(** * PacketStream: COBS framing over a byte-oriented FileHandle

    A shallow embedding of [PacketStream.cpp] / [PacketStream.h]
    (ARMmbed fpga-ci-test-shield-updater) and the properties of its
    byte-stuffing encoder ([_cobs_write]) and decoding state machine
    ([_cobs_getc], [read], [scanf]), of the formatted layer ([printf],
    [scanf]), of the test doubles and the self test, and of what is
    built on the stream: the methods of [RemoteFile.h] and the command
    loop and [baud_handler] of [main.cpp].

    Conventions of the embedding:
    - [uint8_t], [uint16_t] and [size_t] values are integers of [Z]; every
      place where the C++ code can wrap ([_rx_next_zero--], [_tx_pos++],
      [_tx_buf[0] = _tx_pos], [pos++]) applies the wrap explicitly.
      [size_t] is 32 bits wide on the Cortex-M targets of the firmware
      ([main.cpp] hands a [uint32_t *] to [read] as its [size_t *actual]).
    - arrays are lists, written by index with stdpp's [<[i:=x]>] and read
      with [take]; a [(pointer, size)] argument pair is a list.
    - member variables live in the record [PacketStream]; every method
      takes the object and returns the updated object.
    - [mbed::FileHandle] is an abstract class: it is a type class here,
      its test doubles of [PacketStream.cpp] are instances.
    - calls into the C library ([vsnprintf], [vsprintf], [vsscanf]) are
      arguments of the functions that make them: what the call returns
      and what it stores. *)

From Stdlib Require Import ZArith List Bool Lia.
From Stdlib Require Strings.String Strings.Ascii.
From stdpp Require Import base list.
Import ListNotations.
Import Stdlib.Strings.String.StringSyntax.
Delimit Scope string_scope with string.

Local Open Scope Z_scope.

(** ** Machine integers *)

Definition u8 (x : Z) : Z := x mod 256.
Definition u16 (x : Z) : Z := x mod 65536.
Definition SIZE_MAX : Z := 4294967295.
Definition usize (x : Z) : Z := x mod (SIZE_MAX + 1).

Definition is_byte (b : Z) : Prop := 0 <= b < 256.

(** ** [mbed::FileHandle]

    [fh_read io size] is [io->read(buffer, size)]: the [ssize_t] it
    returns, the bytes it stored at the start of [buffer], and the handle
    afterwards.  [fh_write io bytes] is [io->write(buffer, size)] with
    [bytes] the [size] bytes at [buffer]: the [ssize_t] it returns and the
    handle afterwards. *)

Class FileHandle (S : Type) := {
  fh_read : S -> Z -> Z * list Z * S;
  fh_write : S -> list Z -> Z * S
}.

(** ** [class PacketStream] *)

Inductive DecodingStatus :=
| DecodingDone
| DecodingContinue
| DecodingCobsError
| DecodingFileError.

Definition status_eqb (a b : DecodingStatus) : bool :=
  match a, b with
  | DecodingDone, DecodingDone
  | DecodingContinue, DecodingContinue
  | DecodingCobsError, DecodingCobsError
  | DecodingFileError, DecodingFileError => true
  | _, _ => false
  end.

Record PacketStream (S : Type) := mkPacketStream {
  _tx_pos : Z;             (* uint16_t *)
  _tx_buf : list Z;        (* uint8_t [256 + 1] *)
  _rx_next_zero : Z;       (* uint8_t *)
  _rx_next_pad : bool;
  _io : S                  (* mbed::FileHandle * *)
}.

Arguments mkPacketStream {S}.
Arguments _tx_pos {S}.
Arguments _tx_buf {S}.
Arguments _rx_next_zero {S}.
Arguments _rx_next_pad {S}.
Arguments _io {S}.

Definition TX_BUF_SIZE : Z := 256 + 1.

Section Methods.

Context {S : Type} `{FileHandle S}.

Local Abbreviation stream := (PacketStream S).

(** Assignments to single members. *)

Definition set_tx_pos (ps : stream) (v : Z) : stream :=
  mkPacketStream v (_tx_buf ps) (_rx_next_zero ps) (_rx_next_pad ps) (_io ps).

(** [_tx_buf[i] = v].  Wherever the code stores, the index is inside the
    array: [_tx_pos] is at most 255 at the head of the loop ([tx_inv],
    kept by the loop) and at most 256 at the delimiter.  Outside the
    range the list is left as it is. *)
Definition set_tx_buf (ps : stream) (i v : Z) : stream :=
  mkPacketStream (_tx_pos ps) (<[Z.to_nat i := v]> (_tx_buf ps))
                 (_rx_next_zero ps) (_rx_next_pad ps) (_io ps).

Definition set_rx_next_zero (ps : stream) (v : Z) : stream :=
  mkPacketStream (_tx_pos ps) (_tx_buf ps) v (_rx_next_pad ps) (_io ps).

Definition set_rx_next_pad (ps : stream) (v : bool) : stream :=
  mkPacketStream (_tx_pos ps) (_tx_buf ps) (_rx_next_zero ps) v (_io ps).

Definition set_io (ps : stream) (io : S) : stream :=
  mkPacketStream (_tx_pos ps) (_tx_buf ps) (_rx_next_zero ps) (_rx_next_pad ps) io.

(** [PacketStream::PacketStream(io)].  The constructor stores only
    [_tx_buf[0]]; [uninit] is what the other 256 bytes of the array hold. *)
Definition PacketStream_new (uninit : list Z) (io : S) : stream :=
  mkPacketStream 1 (0 :: take 256 (uninit ++ replicate 256 0)) 1 true io.

(** [if (_io->write(_tx_buf, _tx_pos) != _tx_pos) { success = false; }] *)
Definition tx_write (ps : stream) (success : bool) : stream * bool :=
  let '(n, io) := fh_write (_io ps) (take (Z.to_nat (_tx_pos ps)) (_tx_buf ps)) in
  (set_io ps io, if negb (n =? _tx_pos ps) then false else success).

(** The [for] loop of [_cobs_write], one payload byte per iteration. *)
Fixpoint _cobs_write_loop (data : list Z) (ps : stream) (success : bool)
  : stream * bool :=
  match data with
  | [] => (ps, success)
  | d :: data' =>
      (* Flush and stuff if not enough zeros *)
      let '(ps, success) :=
        if 255 <=? _tx_pos ps then
          let ps := set_tx_buf ps 0 (u8 (_tx_pos ps)) in
          let '(ps, success) := tx_write ps success in
          let ps := set_tx_pos ps 0 in
          let ps := set_tx_buf ps (_tx_pos ps) 0 in
          let ps := set_tx_pos ps (u16 (_tx_pos ps + 1)) in
          (ps, success)
        else (ps, success) in
      (* Escape and flush if zero *)
      let '(ps, success) :=
        if d =? 0 then
          let ps := set_tx_buf ps 0 (u8 (_tx_pos ps)) in
          let '(ps, success) := tx_write ps success in
          let ps := set_tx_pos ps 0 in
          (ps, success)
        else (ps, success) in
      (* Add byte *)
      let ps := set_tx_buf ps (_tx_pos ps) d in
      let ps := set_tx_pos ps (u16 (_tx_pos ps + 1)) in
      _cobs_write_loop data' ps success
  end.

(** [bool PacketStream::_cobs_write(const uint8_t *data, size_t size, bool last)] *)
Definition _cobs_write (ps : stream) (data : list Z) (last : bool)
  : stream * bool :=
  let '(ps, success) := _cobs_write_loop data ps true in
  if last then
    let ps := set_tx_buf ps 0 (u8 (_tx_pos ps)) in
    (* Add delimiter 0 (not actually part of COBS) *)
    let ps := set_tx_buf ps (_tx_pos ps) 0 in
    let ps := set_tx_pos ps (u16 (_tx_pos ps + 1)) in
    let '(ps, success) := tx_write ps success in
    (* Reset cobs *)
    let ps := set_tx_buf ps 0 0 in
    let ps := set_tx_pos ps 1 in
    (ps, success)
  else (ps, success).

(** [bool PacketStream::write(const uint8_t *data, size_t size)] *)
Definition write (ps : stream) (data : list Z) : stream * bool :=
  _cobs_write ps data true.

(** [PacketStream::_getc(uint8_t *val)]: [val] is what [*val] holds
    before the call; the handle stores its byte there. *)
Definition _getc (ps : stream) (val : Z) : DecodingStatus * Z * stream :=
  let '(n, bytes, io) := fh_read (_io ps) 1 in
  let val := hd val bytes in
  let ps := set_io ps io in
  if n =? 1 then (DecodingContinue, val, ps)
  else (DecodingFileError, val, ps).

(** [PacketStream::_cobs_getc(uint8_t *val)].  The function calls itself;
    [depth] bounds the nesting of calls, and [None] is a call chain deeper
    than [depth].  [_cobs_getc_two] shows that depth 2 is never
    exceeded.  The local [data] is not initialised by the code; it starts
    as 0 here and is read only after [_getc] reported a stored byte. *)
Fixpoint _cobs_getc (depth : nat) (ps : stream) (val : Z)
  : option (DecodingStatus * Z * stream) :=
  match depth with
  | O => None
  | Datatypes.S depth' =>
      let '(status, data, ps) := _getc ps 0 in
      if negb (status_eqb status DecodingContinue) then Some (status, val, ps)
      else
        let ps := set_rx_next_zero ps (u8 (_rx_next_zero ps - 1)) in
        (* Check for end of packet *)
        if data =? 0 then
          (* Pointer to end of packet must be valid *)
          let valid := _rx_next_zero ps =? 0 in
          let ps := set_rx_next_zero ps 1 in
          let ps := set_rx_next_pad ps true in
          Some (if valid then DecodingDone else DecodingCobsError, val, ps)
        else
          (* Check for cobs encoded data *)
          if _rx_next_zero ps =? 0 then
            let prev_rx_next_pad := _rx_next_pad ps in
            let ps := set_rx_next_zero ps data in
            let ps := set_rx_next_pad ps (data =? 255) in
            if prev_rx_next_pad then
              (* Guaranteed max two levels of recursion *)
              _cobs_getc depth' ps val
            else Some (DecodingContinue, 0, ps)
          else
            (* regular data *)
            Some (DecodingContinue, data, ps)
  end.

(** The bound of the source comment in [_cobs_getc]. *)
Definition MAX_RECURSION : nat := 2.

(** The [while (true)] loop of [read].  [fuel] bounds the number of
    iterations; the result is the status that ended the loop with the
    caller's buffer, [pos] and the object at that point, or [None] when
    [fuel] iterations did not end it.  [data] is the whole array behind
    the caller's pointer, [size] the capacity the caller announced. *)
Fixpoint read_loop (fuel : nat) (ps : stream) (data : list Z) (size : Z)
         (val pos : Z) : option (DecodingStatus * list Z * Z * stream) :=
  match fuel with
  | O => None
  | Datatypes.S fuel' =>
      match _cobs_getc MAX_RECURSION ps val with
      | None => None
      | Some (DecodingContinue, val, ps) =>
          let data := if pos <? size then <[Z.to_nat pos := val]> data else data in
          read_loop fuel' ps data size val (usize (pos + 1))
      | Some (status, _, ps) => Some (status, data, pos, ps)
      end
  end.

(** [bool PacketStream::read(uint8_t *data, size_t size, size_t *actual)].
    [actual] is what [*actual] holds before the call.  The result is the
    returned flag, the caller's buffer, [*actual] and the object.  The
    local [val] is not initialised by the code; it starts as 0 here and
    is stored only after [_cobs_getc] has set it. *)
Definition read (fuel : nat) (ps : stream) (data : list Z) (size : Z)
           (actual : Z) : option (bool * list Z * Z * stream) :=
  match read_loop fuel ps data size 0 0 with
  | None => None
  | Some (DecodingDone, data, pos, ps) => Some (true, data, pos, ps)
  | Some (_, data, _, ps) =>
      (* Return failure on any other status *)
      Some (false, data, actual, ps)
  end.

(** What [scanf] hands back: the value it returns, or the store
    [buf[actual] = 0] landing outside [buf] at [index]. *)
Inductive scanf_result :=
| ScanfReturn (ret : Z) (ps : stream)
| ScanfOutOfBounds (index : Z) (ps : stream).

Definition SCANF_BUF_SIZE : Z := 64 + 1.

(** [int PacketStream::scanf(const char *format, ...)].  [uninit] is what
    the local array [buf] holds on entry; [vsscanf] stands for the C
    library call with [format] and the variadic arguments fixed, applied
    to the array [buf].  The result of [vsscanf] is assigned to a [bool]
    and that is returned as [int]. *)
Definition scanf (fuel : nat) (ps : stream) (uninit : list Z)
           (vsscanf : list Z -> Z) : option scanf_result :=
  let buf := take (Z.to_nat SCANF_BUF_SIZE)
                  (uninit ++ replicate (Z.to_nat SCANF_BUF_SIZE) 0) in
  let actual := 0 in
  match read fuel ps buf (SCANF_BUF_SIZE - 1) actual with
  | None => None
  | Some (false, _, _, ps) => Some (ScanfReturn 0 ps)
  | Some (true, buf, actual, ps) =>
      if actual <? SCANF_BUF_SIZE then
        let buf := <[Z.to_nat actual := 0]> buf in
        let ret := negb (vsscanf buf =? 0) in
        Some (ScanfReturn (if ret then 1 else 0) ps)
      else Some (ScanfOutOfBounds actual ps)
  end.

End Methods.

Arguments scanf_result : clear implicits.
Arguments ScanfReturn {S}.
Arguments ScanfOutOfBounds {S}.

(** ** File handles *)

(** A reliable byte pipe without a bound on what it holds, the
    transport of a stream that is looped back: [write] queues every
    byte and reports them all written, [read] takes up to [size] bytes
    from the front of the queue and reports how many it took. *)
Record Pipe := mkPipe { pipe_bytes : list Z }.

#[export] Instance Pipe_FileHandle : FileHandle Pipe := {
  fh_read io size :=
    let got := take (Z.to_nat size) (pipe_bytes io) in
    (Z.of_nat (length got), got, mkPipe (drop (Z.to_nat size) (pipe_bytes io)));
  fh_write io bytes :=
    (Z.of_nat (length bytes), mkPipe (pipe_bytes io ++ bytes))
}.

(** [class PacketStreamTestFileHandle], the mock of the self test:
    [read] hands out the bytes set with [read_set_next], [write]
    compares what it is given with the bytes set with
    [write_set_expected]. *)
Record PacketStreamTestFileHandle := mkTestFileHandle {
  _read_buf : list Z;
  _read_size : Z;
  _read_pos : Z;
  _write_buf : list Z;
  _write_size : Z;
  _write_pos : Z;
  _write_valid : bool
}.

Definition TestFileHandle_new : PacketStreamTestFileHandle :=
  mkTestFileHandle [] 0 0 [] 0 0 false.

Definition write_set_expected (m : PacketStreamTestFileHandle) (buffer : list Z)
  : PacketStreamTestFileHandle :=
  mkTestFileHandle (_read_buf m) (_read_size m) (_read_pos m)
                   buffer (Z.of_nat (length buffer)) 0 true.

Definition write_valid (m : PacketStreamTestFileHandle) : bool :=
  _write_valid m && (_write_pos m =? _write_size m).

Definition read_set_next (m : PacketStreamTestFileHandle) (buffer : list Z)
  : PacketStreamTestFileHandle :=
  mkTestFileHandle buffer (Z.of_nat (length buffer)) 0
                   (_write_buf m) (_write_size m) (_write_pos m) (_write_valid m).

Definition read_done (m : PacketStreamTestFileHandle) : bool :=
  _read_pos m =? _read_size m.

(** [memcmp(a, b, size) == 0] for [a] of [size] bytes. *)
Definition bytes_eqb (a b : list Z) : bool :=
  (length a =? length b)%nat && forallb (fun '(x, y) => x =? y) (zip a b).

#[export] Instance TestFileHandle_FileHandle : FileHandle PacketStreamTestFileHandle := {
  fh_read m size :=
    let available := usize (_read_size m - _read_pos m) in
    let read_size := if size >? available then available else size in
    let bytes := take (Z.to_nat read_size) (drop (Z.to_nat (_read_pos m)) (_read_buf m)) in
    (read_size, bytes,
     mkTestFileHandle (_read_buf m) (_read_size m) (usize (_read_pos m + read_size))
                      (_write_buf m) (_write_size m) (_write_pos m) (_write_valid m));
  fh_write m bytes :=
    let size := Z.of_nat (length bytes) in
    let invalid :=
      mkTestFileHandle (_read_buf m) (_read_size m) (_read_pos m)
                       (_write_buf m) (_write_size m) (_write_pos m) false in
    if usize (_write_pos m + size) >? _write_size m then
      (* Too much data written *)
      (size, invalid)
    else if negb (bytes_eqb bytes
                    (take (Z.to_nat size)
                          (drop (Z.to_nat (_write_pos m)) (_write_buf m)))) then
      (* Wrong data written *)
      (size, invalid)
    else
      (size,
       mkTestFileHandle (_read_buf m) (_read_size m) (_read_pos m)
                        (_write_buf m) (_write_size m)
                        (usize (_write_pos m + size)) (_write_valid m))
}.

(** [class PacketStreamLoopFileHandle], the ring buffer of the loop-back
    test: [write] refuses (returns -1) what does not fit. *)
Record PacketStreamLoopFileHandle := mkLoopFileHandle {
  _buf : list Z;          (* uint8_t [2048] *)
  _head : Z;
  _tail : Z;
  _size : Z
}.

Definition LOOP_BUF_SIZE : Z := 2048.

Definition LoopFileHandle_new : PacketStreamLoopFileHandle :=
  mkLoopFileHandle (replicate (Z.to_nat LOOP_BUF_SIZE) 0) 0 0 LOOP_BUF_SIZE.

Definition _used (l : PacketStreamLoopFileHandle) : Z :=
  if _head l >? _tail l then usize (usize (_tail l + _size l) - _head l)
  else usize (_tail l - _head l).

Definition _free (l : PacketStreamLoopFileHandle) : Z :=
  usize (usize (_size l - _used l) - 1).

(** The copying loop of [read], [n] bytes. *)
Fixpoint loop_read (n : nat) (l : PacketStreamLoopFileHandle)
  : list Z * PacketStreamLoopFileHandle :=
  match n with
  | O => ([], l)
  | Datatypes.S n' =>
      let b := default 0 (_buf l !! Z.to_nat (_head l)) in
      let head := usize (_head l + 1) in
      let head := if head >=? _size l then 0 else head in
      let '(bytes, l') := loop_read n' (mkLoopFileHandle (_buf l) head (_tail l) (_size l)) in
      (b :: bytes, l')
  end.

(** The copying loop of [write]. *)
Fixpoint loop_write (bytes : list Z) (l : PacketStreamLoopFileHandle)
  : PacketStreamLoopFileHandle :=
  match bytes with
  | [] => l
  | b :: bytes' =>
      let buf := <[Z.to_nat (_tail l) := b]> (_buf l) in
      let tail := usize (_tail l + 1) in
      let tail := if tail >=? _size l then 0 else tail in
      loop_write bytes' (mkLoopFileHandle buf (_head l) tail (_size l))
  end.

#[export] Instance LoopFileHandle_FileHandle : FileHandle PacketStreamLoopFileHandle := {
  fh_read l size :=
    let available := _used l in
    let read_size := if size <? available then size else available in
    let '(bytes, l') := loop_read (Z.to_nat read_size) l in
    (read_size, bytes, l');
  fh_write l bytes :=
    let size := Z.of_nat (length bytes) in
    let free := _free l in
    if free <? size then (-1, l)
    else (size, loop_write bytes l)
}.

(** A handle that records the traffic of the handle it wraps: one event
    per call, oldest first. *)
Inductive io_event :=
| EvRead (size : Z) (ret : Z) (bytes : list Z)
| EvWrite (bytes : list Z) (ret : Z).

Record Logged (S : Type) := mkLogged { lg_io : S; lg_events : list io_event }.

Arguments mkLogged {S}.
Arguments lg_io {S}.
Arguments lg_events {S}.

#[export] Instance Logged_FileHandle {S} `{FileHandle S} : FileHandle (Logged S) := {
  fh_read io size :=
    let '(n, bytes, io') := fh_read (lg_io io) size in
    (n, bytes, mkLogged io' (lg_events io ++ [EvRead size n bytes]));
  fh_write io bytes :=
    let '(n, io') := fh_write (lg_io io) bytes in
    (n, mkLogged io' (lg_events io ++ [EvWrite bytes n]))
}.

(** The stream over the wrapped handle, the log dropped. *)
Definition unlog {S} (ps : PacketStream (Logged S)) : PacketStream S :=
  mkPacketStream (_tx_pos ps) (_tx_buf ps) (_rx_next_zero ps) (_rx_next_pad ps)
                 (lg_io (_io ps)).

(** ** File handles that keep bytes in order

    What the round trip needs from a handle, stated on a relation
    [queued io q]: the handle [io] holds the bytes [q], oldest first,
    for [read] to deliver. *)

(** One-byte reads deliver the queued bytes in order; a read of an
    empty handle does not return 1. *)
Definition reads_in_order {S} `{FileHandle S}
           (queued : S -> list Z -> Prop) : Prop :=
  (forall io, queued io [] ->
     exists n bytes io',
       fh_read io 1 = (n, bytes, io') /\ n <> 1 /\ queued io' []) /\
  (forall io b q, queued io (b :: q) ->
     exists io', fh_read io 1 = (1, [b], io') /\ queued io' q).

(** A write the handle has room for ([accepts io n]: room for [n] more
    bytes) returns the requested count and queues the bytes behind those
    already there. *)
Definition writes_in_order {S} `{FileHandle S}
           (queued : S -> list Z -> Prop) (accepts : S -> nat -> Prop) : Prop :=
  (forall io n m, accepts io n -> (m <= n)%nat -> accepts io m) /\
  (forall io q bytes n,
     queued io q -> accepts io (length bytes + n)%nat ->
     exists io',
       fh_write io bytes = (Z.of_nat (length bytes), io') /\
       queued io' (q ++ bytes) /\ accepts io' n).

Definition pipe_queued (io : Pipe) (q : list Z) : Prop := pipe_bytes io = q.

Definition pipe_accepts (io : Pipe) (n : nat) : Prop := True.

(** The mock holds what [read_set_next] gave it, from [_read_pos] on. *)
Definition mock_queued (m : PacketStreamTestFileHandle) (q : list Z) : Prop :=
  _read_size m = Z.of_nat (length (_read_buf m)) /\
  0 <= _read_pos m <= _read_size m /\
  _read_size m <= SIZE_MAX /\
  q = drop (Z.to_nat (_read_pos m)) (_read_buf m).

(** [n] bytes of the ring from index [head] on, around the end. *)
Fixpoint ring_bytes (n : nat) (buf : list Z) (head : Z) : list Z :=
  match n with
  | O => []
  | Datatypes.S n' =>
      default 0 (buf !! Z.to_nat head) ::
      ring_bytes n' buf (if head + 1 >=? LOOP_BUF_SIZE then 0 else head + 1)
  end.

Definition ring_ok (l : PacketStreamLoopFileHandle) : Prop :=
  _size l = LOOP_BUF_SIZE /\
  Z.of_nat (length (_buf l)) = LOOP_BUF_SIZE /\
  0 <= _head l < LOOP_BUF_SIZE /\
  0 <= _tail l < LOOP_BUF_SIZE.

Definition ring_queued (l : PacketStreamLoopFileHandle) (q : list Z) : Prop :=
  ring_ok l /\ q = ring_bytes (Z.to_nat (_used l)) (_buf l) (_head l).

Definition ring_accepts (l : PacketStreamLoopFileHandle) (n : nat) : Prop :=
  _used l + Z.of_nat n <= LOOP_BUF_SIZE - 1.

(** ** The self test of [PacketStream.cpp]

    [get_test_vector] and the deterministic parts of
    [PacketStream::self_test], run against the embedding below. *)

(** [i, i+1, ...], [n] bytes, as [uint8_t]. *)
Definition byte_run (from : Z) (n : nat) : list Z :=
  map (fun i => u8 (from + Z.of_nat i)) (seq 0 n).

(** The pairs (decoded, encoded) of [get_test_vector], index 0 to 10. *)
Definition test_vectors : list (list Z * list Z) :=
  [ ([0x00], [0x01; 0x01; 0x00]);
    ([0x00; 0x00], [0x01; 0x01; 0x01; 0x00]);
    ([0x11; 0x22; 0x00; 0x33], [0x03; 0x11; 0x22; 0x02; 0x33; 0x00]);
    ([0x11; 0x22; 0x33; 0x44], [0x05; 0x11; 0x22; 0x33; 0x44; 0x00]);
    ([0x11; 0x00; 0x00; 0x00], [0x02; 0x11; 0x01; 0x01; 0x01; 0x00]);
    (* 01 02 03 ... FD FE  /  FF 01 02 03 ... FD FE *)
    (byte_run 1 254, 0xFF :: byte_run 1 254 ++ [0x00]);
    (* 00 01 02 ... FC FD FE  /  01 FF 01 02 ... FC FD FE *)
    (byte_run 0 255, 0x01 :: 0xFF :: byte_run 1 254 ++ [0x00]);
    (* 01 02 03 ... FD FE FF  /  FF 01 02 03 ... FD FE 02 FF *)
    (byte_run 1 255, 0xFF :: byte_run 1 254 ++ [0x02; 0xFF; 0x00]);
    (* 02 03 04 ... FE FF 00  /  FF 02 03 04 ... FE FF 01 01 *)
    (byte_run 2 255, 0xFF :: byte_run 2 254 ++ [0x01; 0x01; 0x00]);
    (* 03 04 05 ... FF 00 01  /  FE 03 04 05 ... FF 02 01 *)
    (byte_run 3 255, 0xFE :: byte_run 3 253 ++ [0x02; 0x01; 0x00]);
    ([], [0x01; 0x00]) ].

(** "Test writing to the serial port": every vector is written through
    the same stream, the mock checks the bytes. *)
Fixpoint self_test_writes (serial : PacketStream PacketStreamTestFileHandle)
         (vectors : list (list Z * list Z)) : bool :=
  match vectors with
  | [] => true
  | (decoded, encoded) :: vectors' =>
      let serial := set_io serial (write_set_expected (_io serial) encoded) in
      let '(serial, _) := write serial decoded in
      if negb (write_valid (_io serial)) then false
      else self_test_writes serial vectors'
  end.

(** "Test reading from the serial port", into [actual_decoded[512]]. *)
Fixpoint self_test_reads (fuel : nat) (serial : PacketStream PacketStreamTestFileHandle)
         (vectors : list (list Z * list Z)) : option bool :=
  match vectors with
  | [] => Some true
  | (decoded, encoded) :: vectors' =>
      let serial := set_io serial (read_set_next (_io serial) encoded) in
      match read fuel serial (replicate 512 0) 512 0 with
      | None => None
      | Some (_, actual_decoded, actual_size, serial) =>
          if negb (actual_size =? Z.of_nat (length decoded)) then Some false
          else if negb (bytes_eqb decoded (take (Z.to_nat actual_size) actual_decoded))
               then Some false
          else self_test_reads fuel serial vectors'
      end
  end.

(** "Test bad cobs", then "Test 0 length cobs": the flag of the read of
    the bad packet, the result of the read of the good packet after it,
    and the result of the read of a lone delimiter. *)
Definition self_test_bad_cobs (fuel : nat)
           (serial : PacketStream PacketStreamTestFileHandle)
  : option (bool * (bool * list Z * Z) * (bool * Z)) :=
  let serial := set_io serial (read_set_next (_io serial) [0x01; 0x02; 0x00]) in
  match read fuel serial (replicate 512 0) 512 0xFFFFFFFF with
  | None => None
  | Some (ret_bad, _, _, serial) =>
      let serial := set_io serial (read_set_next (_io serial) [0x01; 0x01; 0x00]) in
      match read fuel serial (replicate 512 0) 512 0 with
      | None => None
      | Some (ret_good, actual_decoded, actual_size, serial) =>
          let serial := set_io serial (read_set_next (_io serial) [0x00]) in
          match read fuel serial (replicate 512 0) 512 0xFFFFFFFF with
          | None => None
          | Some (ret_zero, _, zero_size, _) =>
              Some (ret_bad,
                    (ret_good, take (Z.to_nat actual_size) actual_decoded, actual_size),
                    (ret_zero, zero_size))
          end
      end
  end.

(** One round of "Test loopback" with the payload [src] in place of the
    random bytes: [write], then [read] into [dst[1024]]. *)
Definition self_test_loopback (fuel : nat)
           (loopback : PacketStream PacketStreamLoopFileHandle) (src : list Z)
  : option (bool * PacketStream PacketStreamLoopFileHandle) :=
  let '(loopback, _) := write loopback src in
  match read fuel loopback (replicate 1024 0) 1024 0 with
  | None => None
  | Some (ret, dst, real_size, loopback) =>
      Some (ret && (real_size =? Z.of_nat (length src))
                && bytes_eqb src (take (length src) dst),
            loopback)
  end.

(** ** Notions used in the statements *)

(** The decoder's members, as the pair (remaining count, pending flag). *)
Definition rx_state {S} (ps : PacketStream S) : Z * bool :=
  (_rx_next_zero ps, _rx_next_pad ps).

Definition RX_INITIAL : Z * bool := (1, true).

(** The encoder between two packets: an empty block is open and the
    array has its declared size. *)
Definition tx_ready {S} (ps : PacketStream S) : Prop :=
  _tx_pos ps = 1 /\ Z.of_nat (length (_tx_buf ps)) = TX_BUF_SIZE.

(** The encoder at the head of the [for] loop. *)
Definition tx_inv {S} (ps : PacketStream S) : Prop :=
  1 <= _tx_pos ps <= 255 /\ Z.of_nat (length (_tx_buf ps)) = TX_BUF_SIZE.

(** The statuses that end a packet on a zero byte. *)
Definition ends_packet (status : DecodingStatus) : Prop :=
  status = DecodingDone \/ status = DecodingCobsError.

(** A [write] call on the handle that returned the count it was asked for. *)
Definition full_write (e : io_event) : bool :=
  match e with
  | EvWrite bytes ret => ret =? Z.of_nat (length bytes)
  | EvRead _ _ _ => true
  end.

(** A [write] call on the handle that returned another count. *)
Definition short_write (e : io_event) : Prop :=
  match e with
  | EvWrite bytes ret => ret <> Z.of_nat (length bytes)
  | EvRead _ _ _ => False
  end.

Definition is_write (e : io_event) : Prop :=
  match e with EvWrite _ _ => True | EvRead _ _ _ => False end.

(** A one-byte [read] call on the handle. *)
Definition is_read1 (e : io_event) : Prop :=
  match e with EvRead size _ _ => size = 1 | EvWrite _ _ => False end.

(** A [read] call that handed the byte [b] to [_getc]. *)
Definition delivers (b : Z) (e : io_event) : Prop :=
  match e with
  | EvRead _ ret bytes => ret = 1 /\ hd 0 bytes = b
  | EvWrite _ _ => False
  end.

(** The payload bytes a packet decodes to: the values [_cobs_getc]
    passes on, call after call as [read] makes them, up to the call that
    does not return [DecodingContinue]; with them the status of that call
    and the object after it.  [None] when [fuel] calls did not get that
    far. *)
Fixpoint decode_loop {S} `{FileHandle S} (fuel : nat) (ps : PacketStream S)
         (val : Z) : option (list Z * DecodingStatus * PacketStream S) :=
  match fuel with
  | O => None
  | Datatypes.S fuel' =>
      match _cobs_getc MAX_RECURSION ps val with
      | None => None
      | Some (DecodingContinue, val, ps) =>
          match decode_loop fuel' ps val with
          | None => None
          | Some (out, status, ps) => Some (val :: out, status, ps)
          end
      | Some (status, _, ps) => Some ([], status, ps)
      end
  end.

(** The caller's buffer after [read] was handed the bytes [out] one by
    one from position [pos] on: those below [size] are stored. *)
Fixpoint store_from (data : list Z) (size pos : Z) (out : list Z) : list Z :=
  match out with
  | [] => data
  | v :: out' =>
      store_from (if pos <? size then <[Z.to_nat pos := v]> data else data)
                 size (pos + 1) out'
  end.

(** *** Reference functions on byte lists

    Two functions on plain lists that the proofs relate the methods to:
    what the encoder sends and what the decoder makes of a wire. *)

(** The bytes [_cobs_write] sends from the head of its loop to the end
    of the packet, when [w] are the data bytes of the block it has open
    and [data] is the payload it still has to take. *)
Fixpoint cobs_tail (w data : list Z) : list Z :=
  match data with
  | [] => (1 + Z.of_nat (length w)) :: w ++ [0]
  | d :: data' =>
      if 255 <=? 1 + Z.of_nat (length w) then
        (1 + Z.of_nat (length w)) :: w ++
        (if d =? 0 then 1 :: cobs_tail [] data' else cobs_tail [d] data')
      else if d =? 0 then
        (1 + Z.of_nat (length w)) :: w ++ cobs_tail [] data'
      else cobs_tail (w ++ [d]) data'
  end.

Definition cobs_frame (data : list Z) : list Z := cobs_tail [] data.

(** The decoder run over the bytes [wire], one byte per step, from the
    members [(z, pad)]: the payload bytes passed on, the status that ends
    the run, the members then, and the bytes of [wire] not yet read. *)
Fixpoint cobs_scan (z : Z) (pad : bool) (wire : list Z)
  : list Z * DecodingStatus * (Z * bool) * list Z :=
  match wire with
  | [] => ([], DecodingFileError, (z, pad), [])
  | b :: wire' =>
      if b =? 0 then
        ([], if u8 (z - 1) =? 0 then DecodingDone else DecodingCobsError,
         RX_INITIAL, wire')
      else if u8 (z - 1) =? 0 then
        let '(out, status, rx, rest) := cobs_scan b (b =? 255) wire' in
        (if pad then out else 0 :: out, status, rx, rest)
      else
        let '(out, status, rx, rest) := cobs_scan (u8 (z - 1)) pad wire' in
        (b :: out, status, rx, rest)
  end.

(** The encoder with the block [w] open: [w] sits behind the slot of the
    length byte. *)
Definition tx_open {S} (ps : PacketStream S) (w : list Z) : Prop :=
  _tx_pos ps = 1 + Z.of_nat (length w) /\
  Z.of_nat (length w) <= 254 /\
  Z.of_nat (length (_tx_buf ps)) = TX_BUF_SIZE /\
  exists b0 rest, _tx_buf ps = b0 :: w ++ rest.

Definition nonzero_byte (b : Z) : Prop := 0 < b < 256.

(** *** Streams and payloads the theorems are instantiated at *)

(** A new stream over an empty pipe. *)
Definition fresh : PacketStream Pipe := PacketStream_new [] (mkPipe []).

(** A new stream whose pipe holds [wire]. *)
Definition receiving (wire : list Z) : PacketStream Pipe :=
  PacketStream_new [] (mkPipe wire).

(** The two streams of the self test, new. *)
Definition serial : PacketStream PacketStreamTestFileHandle :=
  PacketStream_new [] TestFileHandle_new.

Definition loopback : PacketStream PacketStreamLoopFileHandle :=
  PacketStream_new [] LoopFileHandle_new.

(** [mock.read_set_next(wire)] on the mock behind a stream. *)
Definition refill (ps : PacketStream PacketStreamTestFileHandle) (wire : list Z)
  : PacketStream PacketStreamTestFileHandle :=
  set_io ps (read_set_next (_io ps) wire).

Definition is_byteb (b : Z) : bool := (0 <=? b) && (b <? 256).

(** 600 payload bytes 00 01 .. FF 00 01 ..: three full blocks on the wire. *)
Definition payload600 : list Z := byte_run 0 600.

(** ** Formatted output: [PacketStream::printf] *)

Definition STRING_STACK_LIMIT : Z := 120.

(** What [printf] hands back: the flag it returns, or an access outside
    the array [temp]. *)
Inductive printf_result (S : Type) :=
| PrintfReturn (ret : bool) (ps : PacketStream S)
| PrintfOutOfBounds.

Arguments PrintfReturn {S}.
Arguments PrintfOutOfBounds {S}.

(** [bool PacketStream::printf(const char *format, ...)], with [format]
    and the variadic arguments fixed: [len] is the [int] that [vsnprintf]
    returns for them and [text] the characters that [vsprintf] stores at
    [temp], a zero behind them; [uninit] is what [temp] holds behind
    that.  [temp] has [STRING_STACK_LIMIT] bytes on the stack when [len]
    is below that limit and [len + 1] bytes on the heap otherwise;
    [write] is handed [len] as a [size_t] and reads that many bytes of
    [temp]. *)
Definition printf {S} `{FileHandle S} (ps : PacketStream S) (len : Z)
           (text uninit : list Z) : printf_result S :=
  let capacity :=
    if len <? STRING_STACK_LIMIT then STRING_STACK_LIMIT else len + 1 in
  let size := usize len in
  if (Z.of_nat (length text) + 1 <=? capacity) && (size <=? capacity) then
    let temp := take (Z.to_nat capacity)
                     ((text ++ [0]) ++ uninit ++ replicate (Z.to_nat capacity) 0) in
    let '(ps, ret) := write ps (take (Z.to_nat size) temp) in
    PrintfReturn ret ps
  else PrintfOutOfBounds.

(** ** The command loop of [main.cpp] *)

Definition u32 (x : Z) : Z := x mod 4294967296.

(** A string literal of the source as its characters, the terminating
    zero left out. *)
Definition c_str (s : String.string) : list Z :=
  map (fun a => Z.of_nat (Ascii.nat_of_ascii a)) (String.list_ascii_of_string s).

(** [commands[i].name] *)
Definition commands : list (list Z) :=
  [ c_str "version"%string;
    c_str "dump_all"%string;
    c_str "dump"%string;
    c_str "update"%string;
    c_str "reload"%string;
    c_str "baud"%string;
    c_str "stats"%string ].

Definition MAIN_BUF_SIZE : Z := 64.

(** The globals of [main.cpp] that the loop of [main] changes. *)
Record main_state (S : Type) := mkMain {
  pc : PacketStream S;
  cobs_errors : Z;        (* uint32_t *)
  unknown_commands : Z    (* uint32_t *)
}.

Arguments mkMain {S}.
Arguments pc {S}.
Arguments cobs_errors {S}.
Arguments unknown_commands {S}.

(** The [for] loop over [commands] in [main], from index [i] on with
    [names] the names from there: [command] is the entry chosen so far
    ([None] for [NULL]), as its index.  The loop has no [break]: a later
    match replaces an earlier one.  [memcmp] runs only when [actual] is
    the length of [name]; it compares the [actual] bytes at [buf] with
    those of [name].  The names of [commands] are shorter than [buf], so
    the comparison stays inside both. *)
Fixpoint find_command (names : list (list Z)) (i : nat) (buf : list Z)
         (actual : Z) (command : option nat) : option nat :=
  match names with
  | [] => command
  | name :: names' =>
      if negb (actual =? Z.of_nat (length name)) then
        find_command names' (Datatypes.S i) buf actual command
      else if negb (bytes_eqb (take (Z.to_nat actual) buf)
                              (take (Z.to_nat actual) name)) then
        find_command names' (Datatypes.S i) buf actual command
      else find_command names' (Datatypes.S i) buf actual (Some i)
  end.

(** One pass through the body of [while (true)] in [main], up to the
    call [command->handler()]: the globals at that point and the index
    of the command whose handler is then called, if one is.  [actual]
    is what the local [actual] holds before [read] is called. *)
Definition main_iteration {S} `{FileHandle S} (fuel : nat) (st : main_state S)
           (actual : Z) : option (main_state S * option nat) :=
  let buf := replicate (Z.to_nat MAIN_BUF_SIZE) 0 in
  match read fuel (pc st) buf (MAIN_BUF_SIZE - 1) actual with
  | None => None
  | Some (good_read, buf, actual, pc') =>
      if negb good_read then
        Some (mkMain pc' (u32 (cobs_errors st + 1)) (unknown_commands st), None)
      else if actual =? 0 then
        Some (mkMain pc' (cobs_errors st) (unknown_commands st), None)
      else
        match find_command commands 0 buf actual None with
        | Some i =>
            Some (mkMain pc' (cobs_errors st) (unknown_commands st), Some i)
        | None =>
            Some (mkMain pc' (cobs_errors st) (u32 (unknown_commands st + 1)), None)
        end
  end.

(** One pass through the body of [while (true)] in [main], the call of
    the handler included.  [handlers i] stands for [commands[i].handler]:
    what the call makes of the globals of the loop, [None] when it does
    not return. *)
Definition main_pass {S} `{FileHandle S}
           (handlers : nat -> main_state S -> option (main_state S))
           (fuel : nat) (st : main_state S) (actual : Z)
  : option (main_state S) :=
  match main_iteration fuel st actual with
  | None => None
  | Some (st', Some i) => handlers i st'
  | Some (st', None) => Some st'
  end.

(** *** Further notions used in the statements *)

(** The handle after the calls [write(c)] for the chunks [c] of
    [chunks], in this order. *)
Fixpoint fh_writes {S} `{FileHandle S} (io : S) (chunks : list (list Z)) : S :=
  match chunks with
  | [] => io
  | c :: chunks' => fh_writes (fh_write io c).2 chunks'
  end.

(** A [write] call on the handle that passes a part of [_tx_buf] from
    its start: at least the length byte, at most 256 of the 257 bytes. *)
Definition block_write (e : io_event) : Prop :=
  match e with
  | EvWrite bytes _ => (1 <= length bytes <= 256)%nat
  | EvRead _ _ _ => False
  end.

(** The mock as a receiver of writes: since [write_set_expected] set
    the bytes [e], the bytes [q] were written.  While the mock is valid
    they are the expected bytes up to [_write_pos]; once it is not, they
    are not a beginning of [e]. *)
Definition mock_written (e : list Z) (m : PacketStreamTestFileHandle)
           (q : list Z) : Prop :=
  _write_buf m = e /\
  _write_size m = Z.of_nat (length e) /\
  _write_size m <= SIZE_MAX /\
  0 <= _write_pos m <= _write_size m /\
  if _write_valid m then q = take (Z.to_nat (_write_pos m)) e
  else ~ exists r, e = q ++ r.

Definition mock_accepts (m : PacketStreamTestFileHandle) (n : nat) : Prop := True.

(** The bytes [write] sends for the payload [P]: what a new stream puts
    into an empty pipe. *)
Definition frame_of (P : list Z) : list Z := pipe_bytes (_io (write fresh P).1).

(** ** [scanf] with an argument, [RemoteFile.h] and [baud_handler] *)

(** [scanf] called with one [int *] argument, as all callers in this
    program call it: [arg] is what the [int] holds before the call, and
    [vsscanf buf arg] gives the result of the C library call on the
    array [buf] together with what the [int] holds after it.  The
    result carries the [int] after the call. *)
Definition scanf_int {S} `{FileHandle S} (fuel : nat) (ps : PacketStream S)
           (uninit : list Z) (vsscanf : list Z -> Z -> Z * Z) (arg : Z)
  : option (scanf_result S * Z) :=
  let buf := take (Z.to_nat SCANF_BUF_SIZE)
                  (uninit ++ replicate (Z.to_nat SCANF_BUF_SIZE) 0) in
  let actual := 0 in
  match read fuel ps buf (SCANF_BUF_SIZE - 1) actual with
  | None => None
  | Some (false, _, _, ps) => Some (ScanfReturn 0 ps, arg)
  | Some (true, buf, actual, ps) =>
      if actual <? SCANF_BUF_SIZE then
        let buf := <[Z.to_nat actual := 0]> buf in
        let '(n, arg) := vsscanf buf arg in
        let ret := negb (n =? 0) in
        Some (ScanfReturn (if ret then 1 else 0) ps, arg)
      else Some (ScanfOutOfBounds actual ps, arg)
  end.

(** A [size_t] returned as [ssize_t]. *)
Definition ssize (x : Z) : Z := if x <? 2147483648 then x else x - 4294967296.

(** What a method built on [printf], [read] and [scanf] hands back: the
    value it returns with the stream, or an access outside an array in
    one of the calls. *)
Inductive outcome (A S : Type) :=
| Returns (ret : A) (ps : PacketStream S)
| OutOfBounds.

Arguments Returns {A S}.
Arguments OutOfBounds {A S}.

Section RemoteFile.

Context {S : Type} `{FileHandle S}.

(** [printf] of a format whose rendering is the characters [text]. *)
Definition printf_str (ps : PacketStream S) (text uninit : list Z)
  : printf_result S :=
  printf ps (Z.of_nat (length text)) text uninit.

(** The tail shared by [write], [seek] and [close] of [RemoteFile]:
    [_stream->scanf("%i", &ret); return ret;] with [ret] holding -1. *)
Definition remote_reply (fuel : nat) (ps : PacketStream S) (uninit : list Z)
           (vsscanf : list Z -> Z -> Z * Z) : option (outcome Z S) :=
  let ret := -1 in
  match scanf_int fuel ps uninit vsscanf ret with
  | None => None
  | Some (ScanfOutOfBounds _ _, _) => Some OutOfBounds
  | Some (ScanfReturn _ ps, ret) => Some (Returns ret ps)
  end.

(** [RemoteFile::read(buffer, size)].  [request] is the rendering of
    ["read,%i"] for [(int)size]; [actual] is what the uninitialised
    local holds.  The result carries the caller's buffer. *)
Definition RemoteFile_read (fuel : nat) (ps : PacketStream S)
           (request uninit : list Z) (buffer : list Z) (size actual : Z)
  : option (outcome (Z * list Z) S) :=
  match printf_str ps request uninit with
  | PrintfOutOfBounds => Some OutOfBounds
  | PrintfReturn _ ps =>
      match read fuel ps buffer size actual with
      | None => None
      | Some (_, buffer, actual, ps) => Some (Returns (ssize actual, buffer) ps)
      end
  end.



(** [RemoteFile::close()] *)
Definition RemoteFile_close (fuel : nat) (ps : PacketStream S)
           (uninit1 uninit2 : list Z) (vsscanf : list Z -> Z -> Z * Z)
  : option (outcome Z S) :=
  match printf_str ps (c_str "close"%string) uninit1 with
  | PrintfOutOfBounds => Some OutOfBounds
  | PrintfReturn _ ps => remote_reply fuel ps uninit2 vsscanf
  end.

(** [baud_handler()] of [main.cpp]: the result is the rate handed to
    [serial.set_baud], if the handler calls it. *)
Definition baud_handler (fuel : nat) (ps : PacketStream S)
           (uninit1 uninit2 : list Z) (vsscanf : list Z -> Z -> Z * Z)
  : option (outcome (option Z) S) :=
  let baud := 0 in
  match scanf_int fuel ps uninit1 vsscanf baud with
  | None => None
  | Some (ScanfOutOfBounds _ _, _) => Some OutOfBounds
  | Some (ScanfReturn ret ps, baud) =>
      if ret =? 1 then
        match printf_str ps (c_str "ok"%string) uninit2 with
        | PrintfOutOfBounds => Some OutOfBounds
        | PrintfReturn _ ps => Some (Returns (Some baud) ps)
        end
      else
        match printf_str ps (c_str "error"%string) uninit2 with
        | PrintfOutOfBounds => Some OutOfBounds
        | PrintfReturn _ ps => Some (Returns None ps)
        end
  end.

End RemoteFile.

(** The handlers of [commands] as far as they are embedded here: entry
    5 is [baud_handler]; the others drive the [MbedTester] hardware or
    print its answers and have no embedding, they stand as calls that
    do not return. *)
Definition handlers_baud {S} `{FileHandle S} (fuel : nat)
           (uninit1 uninit2 : list Z) (vsscanf : list Z -> Z -> Z * Z)
           (i : nat) (st : main_state S) : option (main_state S) :=
  if (i =? 5)%nat then
    match baud_handler fuel (pc st) uninit1 uninit2 vsscanf with
    | Some (Returns _ ps) =>
        Some (mkMain ps (cobs_errors st) (unknown_commands st))
    | _ => None
    end
  else None.

(** A handle with two directions: writes go out and leave alone what
    waits to be read ([queued]); reads leave alone what has gone out
    ([sent]). *)
Definition writes_aside {S} `{FileHandle S}
           (queued : S -> list Z -> Prop) : Prop :=
  forall io bytes q, queued io q -> queued (fh_write io bytes).2 q.

Definition reads_aside {S} `{FileHandle S}
           (sent : S -> list Z -> Prop) (accepts : S -> nat -> Prop) : Prop :=
  forall io size,
    (forall s, sent io s -> sent (fh_read io size).2 s) /\
    (forall n, accepts io n -> accepts (fh_read io size).2 n).

(** ** Properties *)

(** Carry out member assignments and projections. *)
Ltac ps_simpl :=
  cbn [_tx_pos _tx_buf _rx_next_zero _rx_next_pad _io
       set_tx_pos set_tx_buf set_rx_next_zero set_rx_next_pad set_io
       fst snd lg_io lg_events pipe_bytes] in *.

(** Member assignments turned into the record they build. *)
Ltac ps_unfold :=
  unfold set_tx_pos, set_tx_buf, set_rx_next_zero, set_rx_next_pad, set_io;
  cbn [_tx_pos _tx_buf _rx_next_zero _rx_next_pad _io fst snd pipe_bytes].

(** A step of the loop of [_cobs_write] under [unlog]. *)
Ltac unlog_step IH :=
  match goal with
  | |- _cobs_write_loop _ ?x _ = (unlog (_cobs_write_loop _ ?y _).1, _) =>
      change x with (unlog y); apply IH
  end.

Section Decoder.

Context {S : Type} `{FileHandle S}.

Local Abbreviation stream := (PacketStream S).

Lemma u8_pred_zero (d : Z) : d = 255 -> u8 (d - 1) <> 0.
Proof. intros ->. unfold u8. discriminate. Qed.

(** One call of [_cobs_getc], with the member updates carried out. *)
Lemma _cobs_getc_unfold (depth : nat) (ps : stream) (val : Z) :
  _cobs_getc (Datatypes.S depth) ps val =
  let '(n, bytes, io) := fh_read (_io ps) 1 in
  let d := hd 0 bytes in
  let z := u8 (_rx_next_zero ps - 1) in
  if n =? 1 then
    if d =? 0 then
      Some (if z =? 0 then DecodingDone else DecodingCobsError, val,
            mkPacketStream (_tx_pos ps) (_tx_buf ps) 1 true io)
    else if z =? 0 then
      if _rx_next_pad ps then
        _cobs_getc depth
          (mkPacketStream (_tx_pos ps) (_tx_buf ps) d (d =? 255) io) val
      else
        Some (DecodingContinue, 0,
              mkPacketStream (_tx_pos ps) (_tx_buf ps) d (d =? 255) io)
    else
      Some (DecodingContinue, d,
            mkPacketStream (_tx_pos ps) (_tx_buf ps) z (_rx_next_pad ps) io)
  else
    Some (DecodingFileError, val,
          mkPacketStream (_tx_pos ps) (_tx_buf ps) (_rx_next_zero ps)
                         (_rx_next_pad ps) io).
Proof.
  cbn [_cobs_getc]. unfold _getc.
  destruct (fh_read (_io ps) 1) as [[n bytes] io].
  destruct (n =? 1); [|reflexivity].
  cbn [status_eqb negb].
  destruct (hd 0 bytes =? 0); [reflexivity|].
  cbn [set_rx_next_zero set_io _rx_next_zero _rx_next_pad _tx_pos _tx_buf _io].
  destruct (u8 (_rx_next_zero ps - 1) =? 0); [|reflexivity].
  destruct (_rx_next_pad ps); reflexivity.
Qed.

(** A call in a state the control-byte branch leaves behind
    ([_rx_next_pad] set exactly when [_rx_next_zero] is 255) does not
    call itself. *)
Lemma _cobs_getc_inner (ps : stream) (val : Z) :
  _rx_next_pad ps = (_rx_next_zero ps =? 255) ->
  exists r, _cobs_getc 1 ps val = Some r.
Proof.
  intros Hpad. rewrite _cobs_getc_unfold.
  destruct (fh_read (_io ps) 1) as [[n bytes] io]. cbv zeta.
  destruct (n =? 1); [|eauto].
  destruct (hd 0 bytes =? 0); [eauto|].
  destruct (u8 (_rx_next_zero ps - 1) =? 0) eqn:Hz; [|eauto].
  rewrite Hpad. destruct (_rx_next_zero ps =? 255) eqn:H255; [|eauto].
  apply Z.eqb_eq in H255. apply u8_pred_zero in H255.
  apply Z.eqb_eq in Hz. contradiction.
Qed.

Lemma _cobs_getc_two (ps : stream) (val : Z) :
  exists r, _cobs_getc 2 ps val = Some r.
Proof.
  rewrite _cobs_getc_unfold.
  destruct (fh_read (_io ps) 1) as [[n bytes] io]. cbv zeta.
  destruct (n =? 1); [|eauto].
  destruct (hd 0 bytes =? 0); [eauto|].
  destruct (u8 (_rx_next_zero ps - 1) =? 0); [|eauto].
  destruct (_rx_next_pad ps); [|eauto].
  apply _cobs_getc_inner. reflexivity.
Qed.

(** More depth than a call needs does not change its result. *)
Lemma _cobs_getc_mono (depth : nat) (ps : stream) (val : Z) r :
  _cobs_getc depth ps val = Some r ->
  forall depth', (depth <= depth')%nat -> _cobs_getc depth' ps val = Some r.
Proof.
  revert ps. induction depth as [|depth IH]; intros ps Hr depth' Hle.
  - discriminate.
  - destruct depth' as [|depth']; [lia|].
    rewrite _cobs_getc_unfold in *.
    destruct (fh_read (_io ps) 1) as [[n bytes] io]. cbv zeta in *.
    destruct (n =? 1); [|assumption].
    destruct (hd 0 bytes =? 0); [assumption|].
    destruct (u8 (_rx_next_zero ps - 1) =? 0); [|assumption].
    destruct (_rx_next_pad ps); [|assumption].
    apply IH; [assumption|lia].
Qed.

(** The decoder's members after a call of [_cobs_getc], by the status
    it returns. *)
Lemma _cobs_getc_rx_after (depth : nat) :
  forall (ps : stream) (val : Z) status v ps',
    _cobs_getc depth ps val = Some (status, v, ps') ->
    (ends_packet status -> rx_state ps' = RX_INITIAL) /\
    (status = DecodingFileError ->
     rx_state ps' = rx_state ps \/
     exists d, d <> 0 /\ rx_state ps' = (d, d =? 255)).
Proof.
  induction depth as [|depth IH]; intros ps val status v ps' Hr.
  - discriminate.
  - rewrite _cobs_getc_unfold in Hr.
    destruct (fh_read (_io ps) 1) as [[n bytes] io]. cbv zeta in Hr.
    destruct (n =? 1).
    2:{ inversion Hr; subst; clear Hr. split.
        - intros [Hs|Hs]; discriminate.
        - intros _. left. reflexivity. }
    destruct (hd 0 bytes =? 0) eqn:Hd.
    { inversion Hr; subst; clear Hr. split; [reflexivity|].
      destruct (u8 _ =? 0); discriminate. }
    apply Z.eqb_neq in Hd.
    destruct (u8 (_rx_next_zero ps - 1) =? 0).
    2:{ inversion Hr; subst; clear Hr.
        split; [intros [Hs|Hs]; discriminate|discriminate]. }
    destruct (_rx_next_pad ps).
    2:{ inversion Hr; subst; clear Hr.
        split; [intros [Hs|Hs]; discriminate|discriminate]. }
    apply IH in Hr. destruct Hr as [Hend Hfile]. split; [exact Hend|].
    intros Hs. right. destruct (Hfile Hs) as [Hsame|Hnested]; [|exact Hnested].
    exists (hd 0 bytes). split; [exact Hd|]. rewrite Hsame. reflexivity.
Qed.

(** C3, as the code has it.  A call of [_cobs_getc] that returns
    [DecodingDone] or [DecodingCobsError] leaves the decoder in its
    initial state.  A call that returns [DecodingFileError] resets
    nothing, and there are two ways for it to come about.  Either the
    read of the handle that the call makes first did not return 1: then
    the decoder is as it was before the call.  Or that read gave a byte
    [d] other than zero which the call took for a length byte (the
    count had run out, a stuffed zero was pending) and the read of the
    nested call did not return 1: then the decoder is as that length
    byte has set it, count [d] and flag [d == 255].  In both cases the
    handle is the one the failing read has left. *)
Theorem _cobs_getc_reset_on_zero (depth : nat) (ps : stream) (val : Z)
        status v ps' :
  _cobs_getc depth ps val = Some (status, v, ps') ->
  (ends_packet status -> rx_state ps' = RX_INITIAL) /\
  (status = DecodingFileError ->
   let first := fh_read (_io ps) 1 in
   let d := hd 0 first.1.2 in
   let second := fh_read first.2 1 in
   (first.1.1 <> 1 /\
    rx_state ps' = rx_state ps /\ _io ps' = first.2) \/
   (first.1.1 = 1 /\ d <> 0 /\
    u8 (_rx_next_zero ps - 1) = 0 /\ _rx_next_pad ps = true /\
    second.1.1 <> 1 /\
    rx_state ps' = (d, d =? 255) /\ _io ps' = second.2)).
Proof.
  intros Hr. split; [apply (_cobs_getc_rx_after depth ps val status v ps' Hr)|].
  intros ->. cbv zeta.
  destruct depth as [|depth]; [discriminate|].
  rewrite _cobs_getc_unfold in Hr.
  destruct (fh_read (_io ps) 1) as [[n bytes] io]. cbv zeta in Hr.
  cbn [fst snd].
  destruct (n =? 1) eqn:Hn.
  2:{ apply Z.eqb_neq in Hn. inversion Hr; subst; clear Hr.
      left. repeat split. exact Hn. }
  apply Z.eqb_eq in Hn.
  destruct (hd 0 bytes =? 0) eqn:Hd.
  { destruct (u8 _ =? 0); discriminate. }
  apply Z.eqb_neq in Hd.
  destruct (u8 (_rx_next_zero ps - 1) =? 0) eqn:Hz; [|discriminate].
  apply Z.eqb_eq in Hz.
  destruct (_rx_next_pad ps) eqn:Hpad; [|discriminate].
  (* the nested call *)
  destruct depth as [|depth]; [discriminate|].
  rewrite _cobs_getc_unfold in Hr. cbn [_io _rx_next_zero _rx_next_pad] in Hr.
  destruct (fh_read io 1) as [[n2 bytes2] io2]. cbv zeta in Hr.
  cbn [fst snd].
  destruct (n2 =? 1) eqn:Hn2.
  - exfalso. destruct (hd 0 bytes2 =? 0).
    { destruct (u8 _ =? 0); discriminate. }
    destruct (u8 (hd 0 bytes - 1) =? 0) eqn:Hz2; [|discriminate].
    destruct (hd 0 bytes =? 255) eqn:H255; [|discriminate].
    apply Z.eqb_eq in H255. apply Z.eqb_eq in Hz2.
    exact (u8_pred_zero _ H255 Hz2).
  - apply Z.eqb_neq in Hn2. inversion Hr; subst; clear Hr.
    right. repeat split; assumption.
Qed.

(** The loop of [read] ends on the status of its last [_cobs_getc]: when
    that is [DecodingDone] or [DecodingCobsError] the decoder is back in
    its initial state. *)
Lemma read_loop_reset (fuel : nat) :
  forall (ps : stream) (data : list Z) (size val pos : Z) status data' pos' ps',
    read_loop fuel ps data size val pos = Some (status, data', pos', ps') ->
    ends_packet status -> rx_state ps' = RX_INITIAL.
Proof.
  induction fuel as [|fuel IH];
    intros ps data size val pos status data' pos' ps' Hr Hend; [discriminate|].
  cbn [read_loop] in Hr.
  destruct (_cobs_getc MAX_RECURSION ps val) as [[[st v] ps1]|] eqn:Hg;
    [|discriminate].
  destruct st; try (inversion Hr; subst; clear Hr;
    apply _cobs_getc_rx_after in Hg; apply Hg; exact Hend).
  eapply IH; eauto.
Qed.

(** *** [read] stores what [decode_loop] lists *)

Lemma store_from_skip (out : list Z) :
  forall (data : list Z) (size pos : Z),
    size <= pos -> store_from data size pos out = data.
Proof.
  induction out as [|v out IH]; intros data size pos Hle; [reflexivity|].
  cbn [store_from]. destruct (pos <? size) eqn:Hlt.
  - apply Z.ltb_lt in Hlt. lia.
  - apply IH. lia.
Qed.

Lemma store_from_nat (out : list Z) :
  forall (data : list Z) (size p : nat),
    (p <= size <= length data)%nat ->
    store_from data (Z.of_nat size) (Z.of_nat p) out =
    take p data ++ take (size - p) out ++
    drop (p + Nat.min (size - p) (length out)) data.
Proof.
  induction out as [|v out IH]; intros data size p [Hp Hsize].
  - cbn [store_from]. rewrite take_nil, Nat.min_0_r, Nat.add_0_r.
    cbn [app]. symmetry. apply take_drop.
  - cbn [store_from]. destruct (Z.of_nat p <? Z.of_nat size) eqn:Hlt.
    + apply Z.ltb_lt in Hlt.
      replace (Z.of_nat p + 1) with (Z.of_nat (Datatypes.S p)) by lia.
      rewrite IH by (rewrite length_insert; lia).
      rewrite Nat2Z.id.
      replace (size - p)%nat with (Datatypes.S (size - Datatypes.S p)) by lia.
      cbn [take length]. rewrite <- Nat.succ_min_distr.
      rewrite drop_insert_lt by lia.
      rewrite (take_S_r (<[p:=v]> data) p v)
        by (apply list_lookup_insert_eq; lia).
      rewrite take_insert_ge by lia.
      rewrite <- app_assoc. cbn [app]. rewrite <- Nat.add_succ_comm.
      reflexivity.
    + apply Z.ltb_ge in Hlt. assert (p = size) as -> by lia.
      rewrite store_from_skip by lia.
      rewrite Nat.sub_diag, Nat.add_0_r. cbn [take app Nat.min].
      symmetry. apply take_drop.
Qed.

(** From position 0: the first [size] bytes of [out] land at the start
    of the buffer, the rest of the buffer is left as it was. *)
Lemma store_from_zero (out data : list Z) (size : Z) :
  0 <= size <= Z.of_nat (length data) ->
  store_from data size 0 out =
  take (Z.to_nat size) out ++
  drop (Nat.min (Z.to_nat size) (length out)) data.
Proof.
  intros Hsize.
  rewrite <- (Z2Nat.id size) at 1 by lia. change 0 with (Z.of_nat 0).
  rewrite store_from_nat by lia.
  rewrite Nat.sub_0_r. reflexivity.
Qed.

Lemma read_loop_decode_loop (fuel : nat) :
  forall (ps : stream) (val : Z) out status ps',
    decode_loop fuel ps val = Some (out, status, ps') ->
    forall (data : list Z) (size pos : Z),
      0 <= pos -> pos + Z.of_nat (length out) <= SIZE_MAX ->
      read_loop fuel ps data size val pos =
      Some (status, store_from data size pos out,
            pos + Z.of_nat (length out), ps').
Proof.
  induction fuel as [|fuel IH]; intros ps val out status ps' Hd data size pos Hpos Hmax.
  - discriminate.
  - cbn [decode_loop read_loop] in *.
    destruct (_cobs_getc MAX_RECURSION ps val) as [[[st v] ps1]|]; [|discriminate].
    destruct st;
      try (inversion Hd; subst; cbn [store_from length];
           rewrite Z.add_0_r; reflexivity).
    destruct (decode_loop fuel ps1 v) as [[[out1 st1] ps2]|] eqn:Hd1; [|discriminate].
    inversion Hd; subst; clear Hd. cbn [length] in Hmax.
    assert (Hwrap : usize (pos + 1) = pos + 1).
    { unfold usize. apply Z.mod_small. lia. }
    rewrite Hwrap.
    erewrite IH by (eauto; lia).
    cbn [store_from length]. do 3 f_equal. lia.
Qed.

(** [read], given what the packet decodes to. *)
Lemma read_decode_loop (fuel : nat) (ps : stream) out status ps' :
  decode_loop fuel ps 0 = Some (out, status, ps') ->
  Z.of_nat (length out) <= SIZE_MAX ->
  forall (data : list Z) (size actual : Z),
    0 <= size <= Z.of_nat (length data) ->
    read fuel ps data size actual =
    Some (status_eqb status DecodingDone,
          take (Z.to_nat size) out ++
          drop (Nat.min (Z.to_nat size) (length out)) data,
          if status_eqb status DecodingDone
          then Z.of_nat (length out) else actual,
          ps').
Proof.
  intros Hd Hmax data size actual Hsize. unfold read.
  erewrite read_loop_decode_loop by (eauto; lia).
  rewrite store_from_zero by lia.
  destruct status; reflexivity.
Qed.

(** C6 (silent truncation with true length).  Let a packet on any file
    handle decode to the payload [out] ([decode_loop] ends with
    [DecodingDone]), of a length [size_t] can hold.  Then [read] into a
    buffer of a capacity [size] below that length returns true, reports
    the whole length of [out] in [*actual], has stored exactly the first
    [size] bytes of [out] and has left the rest of the caller's array
    untouched. *)
Theorem read_truncates (fuel : nat) (ps : stream) out ps' :
  decode_loop fuel ps 0 = Some (out, DecodingDone, ps') ->
  Z.of_nat (length out) <= SIZE_MAX ->
  forall (data : list Z) (size actual : Z),
    0 <= size < Z.of_nat (length out) ->
    size <= Z.of_nat (length data) ->
    read fuel ps data size actual =
    Some (true, take (Z.to_nat size) out ++ drop (Z.to_nat size) data,
          Z.of_nat (length out), ps').
Proof.
  intros Hd Hmax data size actual Hsize Hdata.
  rewrite (read_decode_loop fuel ps out DecodingDone ps') by (auto; lia).
  cbn [status_eqb]. rewrite Nat.min_l by lia. reflexivity.
Qed.

(** With room for the whole payload [read] stores all of it. *)
Lemma read_whole (fuel : nat) (ps : stream) out ps' :
  decode_loop fuel ps 0 = Some (out, DecodingDone, ps') ->
  Z.of_nat (length out) <= SIZE_MAX ->
  forall (data : list Z) (size actual : Z),
    Z.of_nat (length out) <= size <= Z.of_nat (length data) ->
    read fuel ps data size actual =
    Some (true, out ++ drop (length out) data, Z.of_nat (length out), ps').
Proof.
  intros Hd Hmax data size actual Hsize.
  rewrite (read_decode_loop fuel ps out DecodingDone ps') by (auto; lia).
  cbn [status_eqb]. rewrite Nat.min_r by lia.
  rewrite take_ge by lia. reflexivity.
Qed.

(** C10 (where [scanf] puts its terminator).  [scanf] reads with
    capacity 64 into its array of 65 bytes and then stores a zero at
    index [actual], which is the whole length of the payload the packet
    decodes to, not the number of bytes stored.  For a payload [out] of
    at most 64 bytes the store is inside the array: [vsscanf] sees [out],
    the zero, and what the array held behind it.  For a longer payload
    the index is [length out], at or past the end of the array. *)
Theorem scanf_terminator_index (fuel : nat) (ps : stream) out ps' :
  decode_loop fuel ps 0 = Some (out, DecodingDone, ps') ->
  Z.of_nat (length out) <= SIZE_MAX ->
  forall (uninit : list Z) (vsscanf : list Z -> Z),
    let buf := take (Z.to_nat SCANF_BUF_SIZE)
                    (uninit ++ replicate (Z.to_nat SCANF_BUF_SIZE) 0) in
    (Z.of_nat (length out) <= 64 ->
     Z.of_nat (length out) < SCANF_BUF_SIZE /\
     scanf fuel ps uninit vsscanf =
     Some (ScanfReturn
             (if negb (vsscanf (out ++ 0 :: drop (Datatypes.S (length out)) buf) =? 0)
              then 1 else 0) ps')) /\
    (64 < Z.of_nat (length out) ->
     SCANF_BUF_SIZE <= Z.of_nat (length out) /\
     scanf fuel ps uninit vsscanf =
     Some (ScanfOutOfBounds (Z.of_nat (length out)) ps')).
Proof.
  intros Hd Hmax uninit vsscanf buf.
  assert (Hbuf : length buf = 65%nat).
  { subst buf. rewrite length_take, length_app, length_replicate.
    change (Z.to_nat SCANF_BUF_SIZE) with 65%nat. lia. }
  unfold scanf. fold buf. change (SCANF_BUF_SIZE - 1) with 64.
  rewrite (read_decode_loop fuel ps out DecodingDone ps')
    by (auto; rewrite Hbuf; lia).
  cbn [status_eqb]. change SCANF_BUF_SIZE with 65. split; intros Hlen.
  - split; [lia|].
    destruct (Z.of_nat (length out) <? 65) eqn:Hlt;
      [|apply Z.ltb_ge in Hlt; lia].
    rewrite Nat2Z.id, take_ge, Nat.min_r by lia.
    assert (Hterm : <[length out := 0]> (out ++ drop (length out) buf) =
                    out ++ 0 :: drop (Datatypes.S (length out)) buf).
    { replace (length out) with (length out + 0)%nat at 1 by lia.
      rewrite insert_app_r.
      destruct (drop (length out) buf) as [|b tl] eqn:Hdrop.
      { apply (f_equal length) in Hdrop. rewrite length_drop in Hdrop.
        cbn in Hdrop. lia. }
      assert (Hb : buf !! length out = Some b).
      { rewrite <- (Nat.add_0_r (length out)), <- lookup_drop, Hdrop.
        reflexivity. }
      rewrite (drop_S buf b (length out) Hb) in Hdrop.
      inversion Hdrop; subst tl. reflexivity. }
    rewrite Hterm. reflexivity.
  - split; [lia|].
    destruct (Z.of_nat (length out) <? 65) eqn:Hlt;
      [apply Z.ltb_lt in Hlt; lia|reflexivity].
Qed.

End Decoder.

Section Traffic.

Context {S : Type} `{FileHandle S}.

Local Abbreviation lstream := (PacketStream (Logged S)).

Lemma tx_write_logged (ps : lstream) (success : bool) :
  exists n io,
    tx_write ps success =
      (set_io ps (mkLogged io (lg_events (_io ps) ++
          [EvWrite (take (Z.to_nat (_tx_pos ps)) (_tx_buf ps)) n])),
       success && (n =? _tx_pos ps)).
Proof.
  unfold tx_write. cbn [fh_write Logged_FileHandle].
  destruct (fh_write (lg_io (_io ps)) _) as [n io]. exists n, io.
  destruct (n =? _tx_pos ps), success; reflexivity.
Qed.

(** Logging does not change what the methods do. *)
Lemma tx_write_unlog (ps : lstream) (success : bool) :
  tx_write (unlog ps) success =
  ((unlog (tx_write ps success).1), (tx_write ps success).2).
Proof.
  unfold tx_write, unlog. ps_simpl. cbn [fh_write Logged_FileHandle].
  destruct (fh_write (lg_io (_io ps)) _) as [n io]. reflexivity.
Qed.

Lemma _cobs_write_loop_unlog (data : list Z) :
  forall (ps : lstream) (success : bool),
    _cobs_write_loop data (unlog ps) success =
    (unlog (_cobs_write_loop data ps success).1,
     (_cobs_write_loop data ps success).2).
Proof.
  induction data as [|d data IH]; intros ps success; [reflexivity|].
  cbn [_cobs_write_loop].
  change (set_tx_buf (unlog ps) 0 (u8 (_tx_pos (unlog ps))))
    with (unlog (set_tx_buf ps 0 (u8 (_tx_pos ps)))).
  rewrite tx_write_unlog.
  destruct (tx_write (set_tx_buf ps 0 (u8 (_tx_pos ps))) success) as [ps1 s1].
  change (_tx_pos (unlog ps)) with (_tx_pos ps). ps_simpl.
  destruct (255 <=? _tx_pos ps).
  - change (set_tx_buf (set_tx_pos (unlog ps1) 0) 0 0)
      with (unlog (set_tx_buf (set_tx_pos ps1 0) 0 0)).
    set (psA := set_tx_pos (set_tx_buf (set_tx_pos ps1 0) 0 0) (u16 (0 + 1))).
    change (set_tx_pos (unlog (set_tx_buf (set_tx_pos ps1 0) 0 0)) (u16 (0 + 1)))
      with (unlog psA).
    change (set_tx_buf (unlog psA) 0 (u8 (_tx_pos (unlog psA))))
      with (unlog (set_tx_buf psA 0 (u8 (_tx_pos psA)))).
    rewrite tx_write_unlog.
    destruct (tx_write (set_tx_buf psA 0 (u8 (_tx_pos psA))) s1) as [ps2 s2].
    ps_simpl. destruct (d =? 0); unlog_step IH.
  - change (set_tx_buf (unlog ps) 0 (u8 (_tx_pos (unlog ps))))
      with (unlog (set_tx_buf ps 0 (u8 (_tx_pos ps)))).
    rewrite tx_write_unlog.
    destruct (tx_write (set_tx_buf ps 0 (u8 (_tx_pos ps))) success) as [ps2 s2].
    ps_simpl. destruct (d =? 0); unlog_step IH.
Qed.

Lemma write_unlog (ps : lstream) (data : list Z) :
  write (unlog ps) data = (unlog (write ps data).1, (write ps data).2).
Proof.
  unfold write, _cobs_write. rewrite _cobs_write_loop_unlog.
  destruct (_cobs_write_loop data ps true) as [ps1 s1]. ps_simpl.
  set (ps2 := set_tx_pos (set_tx_buf (set_tx_buf ps1 0 (u8 (_tx_pos ps1)))
                                     (_tx_pos ps1) 0) (u16 (_tx_pos ps1 + 1))).
  change (tx_write _ s1) with (tx_write (unlog ps2) s1) at 1.
  rewrite tx_write_unlog.
  destruct (tx_write ps2 s1) as [ps3 s3]. reflexivity.
Qed.

Lemma _cobs_getc_unlog (depth : nat) :
  forall (ps : lstream) (val : Z),
    _cobs_getc depth (unlog ps) val =
    match _cobs_getc depth ps val with
    | Some (status, v, ps') => Some (status, v, unlog ps')
    | None => None
    end.
Proof.
  induction depth as [|depth IH]; intros ps val; [reflexivity|].
  rewrite !_cobs_getc_unfold.
  cbn [fh_read Logged_FileHandle unlog _io _tx_pos _tx_buf _rx_next_zero
       _rx_next_pad lg_io].
  destruct (fh_read (lg_io (_io ps)) 1) as [[n bytes] io]. cbv zeta.
  destruct (n =? 1); [|reflexivity].
  destruct (hd 0 bytes =? 0); [reflexivity|].
  destruct (u8 (_rx_next_zero ps - 1) =? 0); [|reflexivity].
  destruct (_rx_next_pad ps); [|reflexivity].
  match goal with
  | |- _ = match _cobs_getc _ ?y _ with _ => _ end => exact (IH y val)
  end.
Qed.

(** One [_io->write(_tx_buf, _tx_pos)] of the encoder, seen on the log:
    a single write event is appended, the transmit members stay, and the
    flag stays set only if the handle returned the requested count. *)
Lemma tx_write_event (ps : lstream) (success : bool) :
  0 <= _tx_pos ps <= Z.of_nat (length (_tx_buf ps)) ->
  exists e,
    lg_events (_io (tx_write ps success).1) = lg_events (_io ps) ++ [e] /\
    is_write e /\
    (tx_write ps success).2 = success && full_write e /\
    _tx_pos (tx_write ps success).1 = _tx_pos ps /\
    _tx_buf (tx_write ps success).1 = _tx_buf ps.
Proof.
  intros Hpos. destruct (tx_write_logged ps success) as (n & io & ->).
  eexists. repeat split. cbn [snd full_write]. do 2 f_equal.
  rewrite length_take. lia.
Qed.

Lemma set_tx_buf_length (ps : lstream) i v :
  length (_tx_buf (set_tx_buf ps i v)) = length (_tx_buf ps).
Proof. apply length_insert. Qed.

(** The loop of [_cobs_write] on the log: only write events are added,
    the flag records whether all of them were full writes, and the
    transmit cursor stays inside the array. *)
Lemma _cobs_write_loop_logged (data : list Z) :
  forall (ps : lstream) (success : bool),
    tx_inv ps ->
    exists evs,
      lg_events (_io (_cobs_write_loop data ps success).1) =
        lg_events (_io ps) ++ evs /\
      Forall is_write evs /\
      (_cobs_write_loop data ps success).2 = success && forallb full_write evs /\
      tx_inv (_cobs_write_loop data ps success).1.
Proof.
  induction data as [|d data IH]; intros ps success [Hpos Hlen].
  - exists []. cbn. rewrite app_nil_r, andb_true_r. repeat split; auto; lia.
  - cbn [_cobs_write_loop].
    (* flush of a full block *)
    set (ps1 := set_tx_buf ps 0 (u8 (_tx_pos ps))).
    destruct (tx_write_event ps1 success) as (e1 & He1 & Hw1 & Hs1 & Hp1 & Hb1).
    { subst ps1. rewrite set_tx_buf_length. ps_simpl. unfold TX_BUF_SIZE in *. lia. }
    destruct (tx_write ps1 success) as [ps1' s1] eqn:E1. cbn [fst snd] in *.
    set (A := if 255 <=? _tx_pos ps then _ else _).
    assert (HA : exists evsA,
      lg_events (_io A.1) = lg_events (_io ps) ++ evsA /\ Forall is_write evsA /\
      A.2 = success && forallb full_write evsA /\ tx_inv A.1 /\
      1 <= _tx_pos A.1 <= 254).
    { subst A. destruct (255 <=? _tx_pos ps) eqn:E255.
      - exists [e1]. subst ps1. ps_simpl. unfold tx_inv. ps_simpl.
        cbn [forallb]. rewrite andb_true_r, length_insert, Hb1, length_insert.
        change (u16 (0 + 1)) with 1.
        repeat split; auto; lia.
      - exists []. ps_simpl. rewrite app_nil_r, andb_true_r.
        apply Z.leb_gt in E255. repeat split; auto; lia. }
    destruct A as [psA sA]. cbn [fst snd] in HA.
    destruct HA as (evsA & HAe & HAw & HAs & [HApos HAlen] & HA254).
    (* flush at a zero byte *)
    set (ps2 := set_tx_buf psA 0 (u8 (_tx_pos psA))).
    destruct (tx_write_event ps2 sA) as (e2 & He2 & Hw2 & Hs2 & Hp2 & Hb2).
    { subst ps2. rewrite set_tx_buf_length. ps_simpl. unfold TX_BUF_SIZE in *. lia. }
    destruct (tx_write ps2 sA) as [ps2' s2] eqn:E2. cbn [fst snd] in *.
    set (B := if d =? 0 then _ else _).
    assert (HB : exists evsB,
      lg_events (_io B.1) = lg_events (_io ps) ++ evsB /\ Forall is_write evsB /\
      B.2 = success && forallb full_write evsB /\
      Z.of_nat (length (_tx_buf B.1)) = TX_BUF_SIZE /\
      0 <= _tx_pos B.1 <= 254).
    { subst B. destruct (d =? 0).
      - exists (evsA ++ [e2]). subst ps2. ps_simpl.
        rewrite He2, Hs2, HAs, HAe, forallb_app, Hb2, length_insert.
        cbn [forallb]. rewrite andb_true_r, andb_assoc, app_assoc.
        repeat split; auto; try lia.
        apply Forall_app; auto.
      - exists evsA. ps_simpl. repeat split; auto; lia. }
    destruct B as [psB sB]. cbn [fst snd] in HB.
    destruct HB as (evsB & HBe & HBw & HBs & HBlen & HBpos).
    (* the byte is added, the loop goes on *)
    set (ps3 := set_tx_pos _ _).
    destruct (IH ps3 sB) as (evs & Hevs & Hw & Hs & Hinv).
    { subst ps3. unfold tx_inv. ps_simpl. rewrite length_insert.
      unfold u16. rewrite Z.mod_small; lia. }
    subst sB. exists (evsB ++ evs). rewrite Hevs, Hs. subst ps3. ps_simpl.
    rewrite HBe, forallb_app, andb_assoc, app_assoc.
    split; [reflexivity|]. split; [apply Forall_app; auto|].
    split; [reflexivity|exact Hinv].
Qed.

Lemma not_full_write (evs : list io_event) :
  forallb full_write evs = false <-> Exists short_write evs.
Proof.
  induction evs as [|e evs IH]; cbn [forallb].
  - split; [discriminate|]. intros Hex. inversion Hex.
  - rewrite andb_false_iff, Exists_cons, IH.
    assert (full_write e = false <-> short_write e) as ->; [|reflexivity].
    destruct e as [sz ret bytes|bytes ret]; cbn.
    + split; [discriminate|contradiction].
    + apply Z.eqb_neq.
Qed.

(** C7 (encoder failure propagation and unconditional reset).  On any
    file handle, [write] returns false exactly when one of the handle's
    [write] calls made for the packet returned a count other than the
    requested one; [write] only ever writes to the handle; and however
    the handle answered, the encoder is back in its initial state
    ([_tx_pos = 1], [_tx_buf[0] = 0]) when [write] returns. *)
Theorem write_fails_iff_short_write (ps : lstream) (data : list Z) :
  tx_ready ps ->
  exists evs,
    lg_events (_io (write ps data).1) = lg_events (_io ps) ++ evs /\
    Forall is_write evs /\
    ((write ps data).2 = false <-> Exists short_write evs) /\
    tx_ready (write ps data).1 /\
    _tx_buf (write ps data).1 !! 0%nat = Some 0.
Proof.
  intros [Hpos Hlen]. unfold write, _cobs_write.
  destruct (_cobs_write_loop_logged data ps true) as (evs & He & Hw & Hs & Hi).
  { split; [lia|exact Hlen]. }
  destruct (_cobs_write_loop data ps true) as [ps1 s1]. ps_simpl.
  destruct Hi as [Hpos1 Hlen1].
  set (ps2 := set_tx_pos _ _).
  assert (Hlen2 : Z.of_nat (length (_tx_buf ps2)) = TX_BUF_SIZE).
  { subst ps2. ps_simpl. rewrite !length_insert. exact Hlen1. }
  assert (Hpos2 : _tx_pos ps2 = _tx_pos ps1 + 1).
  { subst ps2. ps_simpl. unfold u16. rewrite Z.mod_small; lia. }
  destruct (tx_write_event ps2 s1) as (e & Hev & Hwe & Hse & Hpe & Hbe).
  { unfold TX_BUF_SIZE in *. lia. }
  destruct (tx_write ps2 s1) as [ps3 s3]. ps_simpl.
  exists (evs ++ [e]). rewrite Hev. subst ps2. ps_simpl.
  rewrite He, app_assoc. split; [reflexivity|].
  split; [apply Forall_app; auto|].
  split.
  - rewrite <- not_full_write, forallb_app, Hse, Hs. cbn [forallb andb].
    rewrite andb_true_r. reflexivity.
  - unfold tx_ready. ps_simpl. rewrite length_insert, Hbe, !length_insert.
    split; [auto|]. apply list_lookup_insert_eq.
    rewrite !length_insert. unfold TX_BUF_SIZE in *. lia.
Qed.

(** [_cobs_getc] on the log: the [read] of the handle behind [_getc]. *)
Lemma fh_read_logged (io : Logged S) (size : Z) :
  fh_read io size =
  (let '(n, bytes, io') := fh_read (lg_io io) size in
   (n, bytes, mkLogged io' (lg_events io ++ [EvRead size n bytes]))).
Proof. reflexivity. Qed.

(** A call that cannot nest reads the handle exactly once. *)
Lemma _cobs_getc_inner_logged (ps : lstream) (val : Z) :
  _rx_next_pad ps = (_rx_next_zero ps =? 255) ->
  exists status v ps' e,
    _cobs_getc 1 ps val = Some (status, v, ps') /\
    lg_events (_io ps') = lg_events (_io ps) ++ [e] /\ is_read1 e.
Proof.
  intros Hpad. rewrite _cobs_getc_unfold, fh_read_logged.
  destruct (fh_read (lg_io (_io ps)) 1) as [[n bytes] io]. cbv zeta.
  destruct (n =? 1); [|repeat eexists].
  destruct (hd 0 bytes =? 0); [repeat eexists|].
  destruct (u8 (_rx_next_zero ps - 1) =? 0) eqn:Hz; [|repeat eexists].
  rewrite Hpad. destruct (_rx_next_zero ps =? 255) eqn:H255; [|repeat eexists].
  apply Z.eqb_eq in H255. apply u8_pred_zero in H255.
  apply Z.eqb_eq in Hz. contradiction.
Qed.

(** C9 (bounded decoder recursion).  On any file handle and in any
    state, a call of [_cobs_getc] returns within the two levels of
    nesting the source comment promises, and deeper bounds give the same
    result, so the step function is total; the nested call is made in a
    state ([_rx_next_pad] set exactly when [_rx_next_zero] is 255) in
    which a call never nests again; and the whole call makes at most two
    one-byte reads of the handle and nothing else. *)
Theorem _cobs_getc_total (ps : lstream) (val : Z) :
  exists status v ps' evs,
    _cobs_getc MAX_RECURSION ps val = Some (status, v, ps') /\
    (forall depth, (MAX_RECURSION <= depth)%nat ->
       _cobs_getc depth ps val = Some (status, v, ps')) /\
    (forall ps1 : lstream,
       _rx_next_pad ps1 = (_rx_next_zero ps1 =? 255) ->
       exists r, _cobs_getc 1 ps1 val = Some r) /\
    lg_events (_io ps') = lg_events (_io ps) ++ evs /\
    Forall is_read1 evs /\ (length evs <= 2)%nat.
Proof.
  assert (Hex : exists status v ps' evs,
    _cobs_getc MAX_RECURSION ps val = Some (status, v, ps') /\
    lg_events (_io ps') = lg_events (_io ps) ++ evs /\
    Forall is_read1 evs /\ (length evs <= 2)%nat).
  { unfold MAX_RECURSION. rewrite _cobs_getc_unfold, fh_read_logged.
    destruct (fh_read (lg_io (_io ps)) 1) as [[n bytes] io]. cbv zeta.
    assert (Hone : Forall is_read1 [EvRead 1 n bytes]).
    { repeat constructor. }
    destruct (n =? 1);
      [|do 3 eexists; exists [EvRead 1 n bytes]; repeat split; auto].
    destruct (hd 0 bytes =? 0);
      [do 3 eexists; exists [EvRead 1 n bytes]; repeat split; auto|].
    destruct (u8 (_rx_next_zero ps - 1) =? 0);
      [|do 3 eexists; exists [EvRead 1 n bytes]; repeat split; auto].
    destruct (_rx_next_pad ps);
      [|do 3 eexists; exists [EvRead 1 n bytes]; repeat split; auto].
    set (ps1 := mkPacketStream _ _ _ _ _).
    destruct (_cobs_getc_inner_logged ps1 val eq_refl)
      as (status & v & ps' & e & Hr & He & Hread).
    exists status, v, ps', [EvRead 1 n bytes; e].
    split; [exact Hr|]. split.
    - rewrite He. subst ps1. ps_simpl. rewrite <- app_assoc. reflexivity.
    - split; [repeat constructor; exact Hread|]. cbn. lia. }
  destruct Hex as (status & v & ps' & evs & Hr & He & Hread & Hlen).
  exists status, v, ps', evs. split; [exact Hr|]. split.
  { intros depth Hd. eapply _cobs_getc_mono; eauto. }
  split; [|auto]. intros ps1 Hpad. apply _cobs_getc_inner. exact Hpad.
Qed.

(** C8 (synthesized-zero invariant).  On any file handle, when a read of
    a call of [_cobs_getc] hands over a zero byte the call returns
    [DecodingDone] or [DecodingCobsError]: a zero from the wire is never
    passed on as data.  A zero the call does pass on ([DecodingContinue]
    with [*val = 0]) stands for a block boundary: the last byte read was
    a non-zero length byte, which the call stored in [_rx_next_zero]. *)
Theorem _cobs_getc_zero_ends_packet (depth : nat) :
  forall (ps : lstream) (val : Z) status v ps',
    _cobs_getc depth ps val = Some (status, v, ps') ->
    exists evs,
      lg_events (_io ps') = lg_events (_io ps) ++ evs /\
      (Exists (delivers 0) evs -> ends_packet status) /\
      (status = DecodingContinue -> v = 0 ->
       exists evs0 size bytes,
         evs = evs0 ++ [EvRead size 1 bytes] /\
         hd 0 bytes <> 0 /\ _rx_next_zero ps' = hd 0 bytes).
Proof.
  induction depth as [|depth IH]; intros ps val status v ps' Hr.
  - discriminate.
  - rewrite _cobs_getc_unfold, fh_read_logged in Hr.
    destruct (fh_read (lg_io (_io ps)) 1) as [[n bytes] io]. cbv zeta in Hr.
    destruct (n =? 1) eqn:Hn.
    2:{ inversion Hr; subst; clear Hr. eexists. split; [reflexivity|].
        split; [|discriminate]. intros Hex. apply Exists_cons in Hex.
        destruct Hex as [[Hret _]|Hex]; [|inversion Hex].
        apply Z.eqb_neq in Hn. contradiction. }
    apply Z.eqb_eq in Hn. subst n.
    destruct (hd 0 bytes =? 0) eqn:Hd.
    { inversion Hr; subst; clear Hr. eexists. split; [reflexivity|].
      split; [|destruct (u8 _ =? 0); discriminate].
      intros _. unfold ends_packet. destruct (u8 _ =? 0); auto. }
    apply Z.eqb_neq in Hd.
    assert (Hnz : ~ Exists (delivers 0) [EvRead 1 1 bytes]).
    { intros Hex. apply Exists_cons in Hex.
      destruct Hex as [[_ Hz]|Hex]; [contradiction|inversion Hex]. }
    destruct (u8 (_rx_next_zero ps - 1) =? 0).
    2:{ inversion Hr; subst; clear Hr. eexists. split; [reflexivity|].
        split; [intros Hex; contradiction|]. intros _ Hv. contradiction. }
    destruct (_rx_next_pad ps).
    2:{ inversion Hr; subst; clear Hr. eexists. split; [reflexivity|].
        split; [intros Hex; contradiction|]. intros _ _.
        exists [], 1, bytes. auto. }
    apply IH in Hr. destruct Hr as (evs & He & Hzero & Hsyn). ps_simpl.
    exists (EvRead 1 1 bytes :: evs). split.
    { rewrite He, <- app_assoc. reflexivity. }
    split.
    + intros Hex. apply Exists_cons in Hex.
      destruct Hex as [[_ Hz]|Hex]; [contradiction|auto].
    + intros Hs Hv. destruct (Hsyn Hs Hv) as (evs0 & size & bytes' & -> & Hb).
      exists (EvRead 1 1 bytes :: evs0), size, bytes'. auto.
Qed.

End Traffic.

(** *** Decoding what the encoder sends, on byte lists *)

Section Lists.

(** Data bytes inside a block are passed on as they are. *)
Lemma cobs_scan_data (w : list Z) :
  forall (z : Z) (pad : bool) (rest : list Z),
    Forall nonzero_byte w ->
    Z.of_nat (length w) < z <= 255 ->
    cobs_scan z pad (w ++ rest) =
    let '(out, status, rx, r) := cobs_scan (z - Z.of_nat (length w)) pad rest in
    (w ++ out, status, rx, r).
Proof.
  induction w as [|b w IH]; intros z pad rest Hw Hz.
  - cbn [app length Z.of_nat]. rewrite Z.sub_0_r.
    destruct (cobs_scan z pad rest) as [[[out st] rx] r]. reflexivity.
  - inversion Hw as [|? ? Hb Hw']; subst. cbn [length] in Hz.
    cbn [app cobs_scan].
    assert (Hu : u8 (z - 1) = z - 1) by (unfold u8; apply Z.mod_small; lia).
    rewrite Hu.
    destruct (b =? 0) eqn:Eb; [apply Z.eqb_eq in Eb; unfold nonzero_byte in Hb; lia|].
    destruct (z - 1 =? 0) eqn:Ez; [apply Z.eqb_eq in Ez; lia|].
    rewrite IH by (auto; lia).
    replace (z - 1 - Z.of_nat (length w))
      with (z - Z.of_nat (length (b :: w))) by (cbn [length]; lia).
    destruct (cobs_scan _ pad rest) as [[[out st] rx] r]. reflexivity.
Qed.

(** A whole block at a block boundary: the zero it stands for is passed
    on unless the block before was a full one, then the data bytes. *)
Lemma cobs_scan_block (w : list Z) (pad : bool) (rest : list Z) :
  Forall nonzero_byte w ->
  Z.of_nat (length w) <= 254 ->
  cobs_scan 1 pad ((1 + Z.of_nat (length w)) :: w ++ rest) =
  let '(out, status, rx, r) :=
    cobs_scan 1 (1 + Z.of_nat (length w) =? 255) rest in
  ((if pad then [] else [0]) ++ w ++ out, status, rx, r).
Proof.
  intros Hw Hlen. cbn [cobs_scan].
  destruct (1 + Z.of_nat (length w) =? 0) eqn:Ec; [apply Z.eqb_eq in Ec; lia|].
  change (u8 (1 - 1) =? 0) with true. cbv iota.
  rewrite cobs_scan_data by (auto; lia).
  replace (1 + Z.of_nat (length w) - Z.of_nat (length w)) with 1 by lia.
  destruct (cobs_scan 1 _ rest) as [[[out st] rx] r].
  destruct pad; reflexivity.
Qed.

(** The decoder, started at a block boundary, reads back from the bytes
    of [cobs_tail] the open block and the payload still to come; the
    packet ends with [DecodingDone] at its delimiter. *)
Lemma cobs_scan_tail (data : list Z) :
  forall (w : list Z) (pad : bool) (rest : list Z),
    Forall is_byte data ->
    Forall nonzero_byte w ->
    Z.of_nat (length w) <= 254 ->
    cobs_scan 1 pad (cobs_tail w data ++ rest) =
    ((if pad then [] else [0]) ++ w ++ data, DecodingDone, RX_INITIAL, rest).
Proof.
  induction data as [|d data IH]; intros w pad rest Hdata Hw Hlen.
  - cbn [cobs_tail]. rewrite <- app_comm_cons, <- app_assoc.
    rewrite cobs_scan_block by auto. cbn [app cobs_scan].
    change (0 =? 0) with true. change (u8 (1 - 1) =? 0) with true. cbv iota.
    reflexivity.
  - inversion Hdata as [|? ? Hd Hdata']; subst. cbn [cobs_tail].
    destruct (255 <=? 1 + Z.of_nat (length w)) eqn:Hfull.
    + apply Z.leb_le in Hfull.
      rewrite <- app_comm_cons, <- app_assoc.
      rewrite cobs_scan_block by auto.
      replace (1 + Z.of_nat (length w) =? 255) with true
        by (symmetry; apply Z.eqb_eq; lia).
      destruct (d =? 0) eqn:Ed.
      * apply Z.eqb_eq in Ed. subst d.
        rewrite <- app_comm_cons.
        change (1 :: cobs_tail [] data ++ rest)
          with ((1 + Z.of_nat (length (@nil Z))) :: [] ++ cobs_tail [] data ++ rest).
        rewrite cobs_scan_block by (auto; cbn; lia).
        cbn [length Z.of_nat]. change (1 + 0 =? 255) with false.
        rewrite IH by (auto; cbn; lia). reflexivity.
      * apply Z.eqb_neq in Ed.
        rewrite IH; [reflexivity|auto| |cbn; lia].
        constructor; [unfold nonzero_byte, is_byte in *; lia|constructor].
    + apply Z.leb_gt in Hfull. destruct (d =? 0) eqn:Ed.
      * apply Z.eqb_eq in Ed. subst d.
        rewrite <- app_comm_cons, <- app_assoc.
        rewrite cobs_scan_block by auto.
        replace (1 + Z.of_nat (length w) =? 255) with false
          by (symmetry; apply Z.eqb_neq; lia).
        rewrite IH by (auto; cbn; lia). reflexivity.
      * apply Z.eqb_neq in Ed.
        rewrite IH; [rewrite <- app_assoc; reflexivity|auto| |].
        -- apply Forall_app. split; [exact Hw|].
           constructor; [unfold nonzero_byte, is_byte in *; lia|constructor].
        -- rewrite length_app. cbn [length]. lia.
Qed.

(** From the decoder's initial state the frame of a payload decodes to
    the payload. *)
Lemma cobs_scan_frame (data rest : list Z) :
  Forall is_byte data ->
  cobs_scan 1 true (cobs_frame data ++ rest) =
  (data, DecodingDone, RX_INITIAL, rest).
Proof.
  intros Hdata. unfold cobs_frame.
  rewrite cobs_scan_tail by (auto; cbn; lia). reflexivity.
Qed.

(** A frame is longer than its payload by the delimiter and one length
    byte per block, and a block is forced only every 254 bytes. *)
Lemma cobs_tail_length (data : list Z) :
  forall w : list Z,
    (length w <= 254)%nat ->
    (254 * length (cobs_tail w data) <=
     255 * (length w + length data) + 508)%nat.
Proof.
  induction data as [|d data IH]; intros w Hw.
  - cbn [cobs_tail length]. rewrite length_app. cbn [length]. lia.
  - cbn [cobs_tail].
    destruct (255 <=? 1 + Z.of_nat (length w)) eqn:Hfull.
    + apply Z.leb_le in Hfull. destruct (d =? 0).
      * cbn [length]. rewrite length_app. cbn [length].
        specialize (IH [] ltac:(cbn; lia)). cbn [length] in IH. lia.
      * cbn [length]. rewrite length_app.
        specialize (IH [d] ltac:(cbn; lia)). cbn [length] in IH. lia.
    + apply Z.leb_gt in Hfull. destruct (d =? 0).
      * cbn [length]. rewrite length_app.
        specialize (IH [] ltac:(cbn; lia)). cbn [length] in IH. lia.
      * specialize (IH (w ++ [d])). rewrite length_app in IH.
        cbn [length] in *. specialize (IH ltac:(lia)). lia.
Qed.

Lemma cobs_frame_length (data : list Z) :
  (length (cobs_frame data) <= length data + length data / 254 + 2)%nat.
Proof.
  pose proof (cobs_tail_length data [] ltac:(cbn; lia)) as Hlen.
  cbn [length] in Hlen. fold (cobs_frame data) in Hlen.
  pose proof (Nat.div_mod_eq (length data) 254) as Hdiv.
  pose proof (Nat.mod_upper_bound (length data) 254 ltac:(lia)) as Hmod.
  lia.
Qed.

End Lists.

(** *** The codec over a handle that keeps bytes in order *)

Section OpenBlock.

Context {S : Type}.

Lemma tx_open_take (buf w rest : list Z) (b0 c : Z) :
  buf = b0 :: w ++ rest ->
  take (Z.to_nat (1 + Z.of_nat (length w))) (<[0%nat := c]> buf) = c :: w.
Proof.
  intros ->. replace (Z.to_nat (1 + Z.of_nat (length w)))
    with (Datatypes.S (length w)) by lia.
  simpl. rewrite take_app_length. reflexivity.
Qed.

Lemma tx_open_store (buf w rest : list Z) (b0 d : Z) :
  buf = b0 :: w ++ rest -> rest <> [] ->
  <[Z.to_nat (1 + Z.of_nat (length w)) := d]> buf =
  b0 :: (w ++ [d]) ++ tl rest.
Proof.
  intros -> Hrest. replace (Z.to_nat (1 + Z.of_nat (length w)))
    with (Datatypes.S (length w + 0)) by lia.
  simpl. rewrite insert_app_r.
  destruct rest as [|r rest]; [contradiction|].
  simpl. rewrite <- app_assoc. reflexivity.
Qed.

Lemma tx_open_rest (ps : PacketStream S) (w rest : list Z) (b0 : Z) :
  Z.of_nat (length w) <= 254 ->
  Z.of_nat (length (_tx_buf ps)) = TX_BUF_SIZE ->
  _tx_buf ps = b0 :: w ++ rest -> rest <> [].
Proof.
  intros Hw Hlen Hbuf ->. rewrite Hbuf in Hlen. cbn in Hlen.
  rewrite length_app in Hlen. cbn in Hlen. unfold TX_BUF_SIZE in Hlen. lia.
Qed.

(** A block restarted at the slot of the length byte. *)
Lemma tx_open_restart (buf : list Z) (x rz : Z) (rp : bool) (io : S) :
  Z.of_nat (length buf) = TX_BUF_SIZE ->
  tx_open (mkPacketStream 1 (<[0%nat := x]> buf) rz rp io) [].
Proof.
  intros Hlen. unfold tx_open. ps_simpl. rewrite length_insert.
  split; [reflexivity|]. split; [cbn; lia|]. split; [exact Hlen|].
  destruct buf as [|b buf]; [cbn in Hlen; unfold TX_BUF_SIZE in Hlen; lia|].
  exists x, buf. reflexivity.
Qed.

(** A byte added to the open block. *)
Lemma tx_open_add (pos rz : Z) (buf w : list Z) (rp : bool) (io : S) (d : Z) :
  tx_open (mkPacketStream pos buf rz rp io) w ->
  Z.of_nat (length w) < 254 ->
  tx_open (mkPacketStream (u16 (pos + 1)) (<[Z.to_nat pos := d]> buf) rz rp io)
          (w ++ [d]).
Proof.
  intros (Hpos & Hw & Hlen & b0 & rest & Hbuf) Hroom. ps_simpl.
  unfold tx_open. ps_simpl. rewrite length_insert, length_app. cbn [length].
  split; [unfold u16; rewrite Z.mod_small; lia|].
  split; [lia|]. split; [exact Hlen|].
  exists b0, (tl rest). rewrite Hpos. apply tx_open_store; [exact Hbuf|].
  apply (tx_open_rest (mkPacketStream pos buf rz rp io) w rest b0); auto; lia.
Qed.

Lemma tx_ready_open (ps : PacketStream S) : tx_ready ps -> tx_open ps [].
Proof.
  intros [Hpos Hlen]. unfold tx_open. cbn [length].
  split; [exact Hpos|]. split; [lia|]. split; [exact Hlen|].
  destruct (_tx_buf ps) as [|b0 rest]; [cbn in Hlen; unfold TX_BUF_SIZE in Hlen; lia|].
  exists b0, rest. reflexivity.
Qed.

End OpenBlock.

Section InOrder.

Context {S : Type} `{FileHandle S}.

Variable queued : S -> list Z -> Prop.
Hypothesis Hreads : reads_in_order queued.

Local Abbreviation stream := (PacketStream S).

(** [_cobs_getc] on a handle that holds nothing, and on one that holds
    a byte. *)
Lemma _cobs_getc_queue_nil depth pos buf z pad (io : S) val :
  queued io [] ->
  exists io',
    queued io' [] /\
    _cobs_getc (Datatypes.S depth) (mkPacketStream pos buf z pad io) val =
    Some (DecodingFileError, val, mkPacketStream pos buf z pad io').
Proof.
  intros Hq. destruct (proj1 Hreads io Hq) as (n & bytes & io' & Hr & Hn & Hq').
  exists io'. split; [exact Hq'|].
  rewrite _cobs_getc_unfold. ps_simpl. rewrite Hr.
  apply Z.eqb_neq in Hn. rewrite Hn. reflexivity.
Qed.

Lemma _cobs_getc_queue_cons depth pos buf z pad (io : S) val b q :
  queued io (b :: q) ->
  exists io',
    queued io' q /\
    _cobs_getc (Datatypes.S depth) (mkPacketStream pos buf z pad io) val =
    if b =? 0 then
      Some (if u8 (z - 1) =? 0 then DecodingDone else DecodingCobsError, val,
            mkPacketStream pos buf 1 true io')
    else if u8 (z - 1) =? 0 then
      if pad then
        _cobs_getc depth (mkPacketStream pos buf b (b =? 255) io') val
      else Some (DecodingContinue, 0, mkPacketStream pos buf b (b =? 255) io')
    else Some (DecodingContinue, b, mkPacketStream pos buf (u8 (z - 1)) pad io').
Proof.
  intros Hq. destruct (proj2 Hreads io b q Hq) as (io' & Hr & Hq').
  exists io'. split; [exact Hq'|].
  rewrite _cobs_getc_unfold. ps_simpl. rewrite Hr. reflexivity.
Qed.

(** The decoder reading such a handle: [decode_loop] finds what
    [cobs_scan] finds in the queued bytes, as soon as [fuel] exceeds
    their number. *)
Lemma decode_loop_queue (fuel : nat) :
  forall pos buf z pad (io : S) (val : Z) (q : list Z),
    queued io q ->
    (length q < fuel)%nat ->
    exists io',
      queued io' (cobs_scan z pad q).2 /\
      decode_loop fuel (mkPacketStream pos buf z pad io) val =
      Some ((cobs_scan z pad q).1.1.1, (cobs_scan z pad q).1.1.2,
            mkPacketStream pos buf (cobs_scan z pad q).1.2.1
                           (cobs_scan z pad q).1.2.2 io').
Proof.
  induction fuel as [|fuel IH]; intros pos buf z pad io val q Hq Hlen; [lia|].
  cbn [decode_loop]. unfold MAX_RECURSION.
  destruct q as [|b q].
  { destruct (_cobs_getc_queue_nil 1 pos buf z pad io val Hq) as (io' & Hq' & ->).
    exists io'. split; [exact Hq'|reflexivity]. }
  destruct (_cobs_getc_queue_cons 1 pos buf z pad io val b q Hq) as (io1 & Hq1 & ->).
  cbn [cobs_scan]. cbn [length] in Hlen.
  destruct (b =? 0) eqn:Hb.
  { exists io1. split; [exact Hq1|]. destruct (u8 (z - 1) =? 0); reflexivity. }
  destruct (u8 (z - 1) =? 0) eqn:Hz.
  2:{ destruct (IH pos buf (u8 (z - 1)) pad io1 b q Hq1 ltac:(lia)) as (io' & Hq' & ->).
      destruct (cobs_scan (u8 (z - 1)) pad q) as [[[out st] rx] rest].
      exists io'. split; [exact Hq'|reflexivity]. }
  destruct pad.
  2:{ destruct (IH pos buf b (b =? 255) io1 0 q Hq1 ltac:(lia)) as (io' & Hq' & ->).
      destruct (cobs_scan b (b =? 255) q) as [[[out st] rx] rest].
      exists io'. split; [exact Hq'|reflexivity]. }
  (* the nested call *)
  destruct q as [|b2 q].
  { destruct (_cobs_getc_queue_nil 0 pos buf b (b =? 255) io1 val Hq1)
      as (io' & Hq' & ->).
    exists io'. split; [exact Hq'|reflexivity]. }
  destruct (_cobs_getc_queue_cons 0 pos buf b (b =? 255) io1 val b2 q Hq1)
    as (io2 & Hq2 & ->).
  cbn [cobs_scan]. cbn [length] in Hlen.
  destruct (b2 =? 0) eqn:Hb2.
  { exists io2. split; [exact Hq2|]. destruct (u8 (b - 1) =? 0); reflexivity. }
  destruct (u8 (b - 1) =? 0) eqn:Hz2.
  - destruct (b =? 255) eqn:H255.
    { apply Z.eqb_eq in H255. apply u8_pred_zero in H255.
      apply Z.eqb_eq in Hz2. contradiction. }
    destruct (IH pos buf b2 (b2 =? 255) io2 0 q Hq2 ltac:(lia)) as (io' & Hq' & ->).
    destruct (cobs_scan b2 (b2 =? 255) q) as [[[out st] rx] rest].
    exists io'. split; [exact Hq'|reflexivity].
  - destruct (IH pos buf (u8 (b - 1)) (b =? 255) io2 b2 q Hq2 ltac:(lia))
      as (io' & Hq' & ->).
    destruct (cobs_scan (u8 (b - 1)) (b =? 255) q) as [[[out st] rx] rest].
    exists io'. split; [exact Hq'|reflexivity].
Qed.

(** A frame at the front of what the handle holds, read by a decoder
    in its initial state with room for the payload. *)
Lemma read_frame_queue (ps : stream) (P rest : list Z) (fuel : nat)
      (data : list Z) (size actual : Z) :
  rx_state ps = RX_INITIAL ->
  queued (_io ps) (cobs_frame P ++ rest) ->
  Forall is_byte P ->
  Z.of_nat (length P) <= SIZE_MAX ->
  Z.of_nat (length P) <= size <= Z.of_nat (length data) ->
  (length (cobs_frame P ++ rest) < fuel)%nat ->
  exists io',
    queued io' rest /\
    read fuel ps data size actual =
    Some (true, P ++ drop (length P) data, Z.of_nat (length P),
          mkPacketStream (_tx_pos ps) (_tx_buf ps) 1 true io').
Proof.
  intros Hrx Hq HP Hmax Hsize Hfuel. destruct ps as [pos buf z pad io].
  unfold rx_state, RX_INITIAL in Hrx. ps_simpl. inversion Hrx; subst z pad.
  destruct (decode_loop_queue fuel pos buf 1 true io 0 _ Hq Hfuel)
    as (io' & Hq' & Hd).
  rewrite cobs_scan_frame in Hq', Hd by exact HP. cbn [fst snd] in Hq', Hd.
  exists io'. split; [exact Hq'|].
  apply read_whole; [exact Hd|exact Hmax|exact Hsize].
Qed.

(** C5 (malformed input detection).  A decoder in its initial state that
    finds the bytes 01 02 00 at the front of what its handle holds ends
    the packet with [DecodingCobsError], not [DecodingDone], and [read]
    returns false, leaving [*actual] alone; the bytes behind the three
    stay in the handle. *)
Theorem read_rejects_01_02_00 (ps : stream) (rest : list Z) (fuel : nat)
        (data : list Z) (size actual : Z) :
  rx_state ps = RX_INITIAL ->
  queued (_io ps) ([1; 2; 0] ++ rest) ->
  (3 + length rest < fuel)%nat ->
  exists data' pos ps',
    read_loop fuel ps data size 0 0 = Some (DecodingCobsError, data', pos, ps') /\
    read fuel ps data size actual = Some (false, data', actual, ps') /\
    queued (_io ps') rest.
Proof.
  intros Hrx Hq Hfuel. destruct ps as [pos buf z pad io].
  unfold rx_state, RX_INITIAL in Hrx. ps_simpl. inversion Hrx; subst z pad.
  destruct (decode_loop_queue fuel pos buf 1 true io 0 _ Hq Hfuel)
    as (io' & Hq' & Hd).
  cbn in Hq', Hd.
  assert (Hl : read_loop fuel (mkPacketStream pos buf 1 true io) data size 0 0 =
               Some (DecodingCobsError, store_from data size 0 [0],
                     0 + Z.of_nat (length [0]),
                     mkPacketStream pos buf 1 true io')).
  { apply read_loop_decode_loop; [exact Hd|lia|cbn; unfold SIZE_MAX; lia]. }
  do 3 eexists. split; [exact Hl|]. split; [|exact Hq'].
  unfold read. rewrite Hl. reflexivity.
Qed.

Variable accepts : S -> nat -> Prop.
Hypothesis Hwrites : writes_in_order queued accepts.

(** One [_io->write(_tx_buf, _tx_pos)] the handle has room for. *)
Lemma tx_write_queue (ps : stream) (success : bool) (q : list Z) (n : nat) :
  queued (_io ps) q ->
  0 <= _tx_pos ps <= Z.of_nat (length (_tx_buf ps)) ->
  accepts (_io ps) (Z.to_nat (_tx_pos ps) + n) ->
  exists io',
    tx_write ps success = (set_io ps io', success) /\
    queued io' (q ++ take (Z.to_nat (_tx_pos ps)) (_tx_buf ps)) /\
    accepts io' n.
Proof.
  intros Hq Hpos Hacc.
  assert (Hlen : length (take (Z.to_nat (_tx_pos ps)) (_tx_buf ps)) =
                 Z.to_nat (_tx_pos ps)) by (rewrite length_take; lia).
  destruct (proj2 Hwrites (_io ps) q
              (take (Z.to_nat (_tx_pos ps)) (_tx_buf ps)) n Hq)
    as (io' & Hw & Hq' & Hacc').
  { rewrite Hlen. exact Hacc. }
  exists io'. split; [|split; [exact Hq'|exact Hacc']].
  unfold tx_write. rewrite Hw, Hlen.
  replace (Z.of_nat (Z.to_nat (_tx_pos ps)) =? _tx_pos ps) with true
    by (symmetry; apply Z.eqb_eq; lia).
  reflexivity.
Qed.

(** Closing the open block: with the length byte stored, the block
    goes out. *)
Lemma tx_flush_queue (pos rz : Z) (buf w : list Z) (rp : bool) (io : S)
      (success : bool) (q : list Z) (n : nat) :
  tx_open (mkPacketStream pos buf rz rp io) w ->
  queued io q ->
  accepts io (Datatypes.S (length w) + n) ->
  exists io',
    tx_write (mkPacketStream pos (<[0%nat := u8 pos]> buf) rz rp io) success =
      (mkPacketStream pos (<[0%nat := u8 pos]> buf) rz rp io', success) /\
    queued io' (q ++ (1 + Z.of_nat (length w)) :: w) /\
    accepts io' n.
Proof.
  intros (Hpos & Hw & Hlen & b0 & rest & Hbuf) Hq Hacc. ps_simpl.
  destruct (tx_write_queue
              (mkPacketStream pos (<[0%nat := u8 pos]> buf) rz rp io)
              success q n) as (io' & Heq & Hq' & Hacc').
  - exact Hq.
  - ps_simpl. rewrite length_insert. unfold TX_BUF_SIZE in *. lia.
  - ps_simpl. replace (Z.to_nat pos) with (Datatypes.S (length w)) by lia.
    exact Hacc.
  - exists io'. split; [exact Heq|]. split; [|exact Hacc'].
    ps_simpl. rewrite Hpos in Hq'.
    rewrite (tx_open_take _ w rest b0 _ Hbuf) in Hq'.
    unfold u8 in Hq'. rewrite Z.mod_small in Hq' by lia. exact Hq'.
Qed.

Lemma accepts_eq (io : S) (n m : nat) : accepts io n -> m = n -> accepts io m.
Proof. intros Hacc ->. exact Hacc. Qed.

(** The loop of [_cobs_write] on a handle with room for the frame sends
    the bytes [cobs_tail] lists, up to the block it leaves open; it
    reports no failure and does not touch the decoder's members. *)
Lemma _cobs_write_loop_queue (data : list Z) :
  forall (ps : stream) (success : bool) (w q : list Z) (n : nat),
    tx_open ps w ->
    queued (_io ps) q ->
    accepts (_io ps) (length (cobs_tail w data) + n) ->
    exists w' q',
      tx_open (_cobs_write_loop data ps success).1 w' /\
      queued (_io (_cobs_write_loop data ps success).1) q' /\
      q' ++ cobs_tail w' [] = q ++ cobs_tail w data /\
      accepts (_io (_cobs_write_loop data ps success).1)
              (length (cobs_tail w' []) + n) /\
      (_cobs_write_loop data ps success).2 = success /\
      rx_state (_cobs_write_loop data ps success).1 = rx_state ps.
Proof.
  induction data as [|d data IH];
    intros [pos buf rz rp io] success w q n Hopen Hq Hacc.
  - exists w, q. cbn [_cobs_write_loop fst snd].
    split; [exact Hopen|]. split; [exact Hq|]. split; [reflexivity|].
    split; [exact Hacc|]. split; reflexivity.
  - cbn [_cobs_write_loop]. cbn [cobs_tail] in Hacc |- *. ps_unfold.
    change (Z.to_nat 0) with 0%nat.
    pose proof Hopen as (Hpos & Hw & Hlen & _). ps_simpl.
    rewrite <- Hpos in Hacc |- *.
    destruct (255 <=? pos) eqn:Hfull; destruct (d =? 0) eqn:Hd; ps_unfold.
    + destruct (tx_flush_queue pos rz buf w rp io success q
                  (Datatypes.S (length (cobs_tail [] data)) + n) Hopen Hq)
        as (io1 & -> & Hq1 & Hacc1).
      { eapply accepts_eq; [exact Hacc|].
        cbn [length]. rewrite length_app. cbn [length]. lia. }
      ps_unfold. change (Z.to_nat 0) with 0%nat. change (u16 (0 + 1)) with 1.
      destruct (tx_flush_queue 1 rz (<[0%nat:=0]> (<[0%nat:=u8 pos]> buf)) []
                  rp io1 success _ (length (cobs_tail [] data) + n)
                  ltac:(apply tx_open_restart; rewrite length_insert; exact Hlen)
                  Hq1 Hacc1)
        as (io2 & -> & Hq2 & Hacc2).
      ps_unfold. change (Z.to_nat 0) with 0%nat. change (u16 (0 + 1)) with 1.
      match goal with |- context [_cobs_write_loop data ?p ?s] =>
        destruct (IH p s [] _ n
                    ltac:(apply tx_open_restart; rewrite !length_insert; exact Hlen)
                    Hq2 Hacc2)
          as (w' & q' & Ho & Hq' & Hp & Ha & Hs & Hr) end.
      exists w', q'. split; [exact Ho|]. split; [exact Hq'|].
      split; [|split; [exact Ha|split; [exact Hs|exact Hr]]].
      cbn [cobs_tail] in Hp. rewrite Hp, Hpos. cbn [length Z.of_nat]. rewrite <- !app_assoc. reflexivity.
    + destruct (tx_flush_queue pos rz buf w rp io success q
                  (length (cobs_tail [d] data) + n) Hopen Hq)
        as (io1 & -> & Hq1 & Hacc1).
      { eapply accepts_eq; [exact Hacc|].
        cbn [length]. rewrite length_app. lia. }
      ps_unfold. change (Z.to_nat 0) with 0%nat. change (u16 (0 + 1)) with 1.
      match goal with |- context [_cobs_write_loop data ?p ?s] =>
        destruct (IH p s [d] _ n
                    ltac:(apply (tx_open_add 1 rz _ []); [|cbn; lia];
                          apply tx_open_restart; rewrite length_insert;
                          exact Hlen)
                    Hq1 Hacc1)
          as (w' & q' & Ho & Hq' & Hp & Ha & Hs & Hr) end.
      exists w', q'. split; [exact Ho|]. split; [exact Hq'|].
      split; [|split; [exact Ha|split; [exact Hs|exact Hr]]].
      cbn [cobs_tail] in Hp. rewrite Hp, Hpos. rewrite <- !app_assoc. reflexivity.
    + destruct (tx_flush_queue pos rz buf w rp io success q
                  (length (cobs_tail [] data) + n) Hopen Hq)
        as (io1 & -> & Hq1 & Hacc1).
      { eapply accepts_eq; [exact Hacc|].
        cbn [length]. rewrite length_app. lia. }
      ps_unfold. change (Z.to_nat 0) with 0%nat. change (u16 (0 + 1)) with 1.
      match goal with |- context [_cobs_write_loop data ?p ?s] =>
        destruct (IH p s [] _ n
                    ltac:(apply tx_open_restart; rewrite !length_insert; exact Hlen)
                    Hq1 Hacc1)
          as (w' & q' & Ho & Hq' & Hp & Ha & Hs & Hr) end.
      exists w', q'. split; [exact Ho|]. split; [exact Hq'|].
      split; [|split; [exact Ha|split; [exact Hs|exact Hr]]].
      cbn [cobs_tail] in Hp. rewrite Hp, Hpos. rewrite <- !app_assoc. reflexivity.
    + apply Z.leb_gt in Hfull.
      match goal with |- context [_cobs_write_loop data ?p ?s] =>
        destruct (IH p s (w ++ [d]) q n
                    ltac:(apply tx_open_add; [exact Hopen|lia]) Hq Hacc)
          as (w' & q' & Ho & Hq' & Hp & Ha & Hs & Hr) end.
      exists w', q'. split; [exact Ho|]. split; [exact Hq'|].
      split; [|split; [exact Ha|split; [exact Hs|exact Hr]]].
      cbn [cobs_tail] in Hp. exact Hp.
Qed.

(** [write] on a handle with room for the frame: the frame of the
    payload is queued behind what the handle holds, the call succeeds,
    the encoder is ready again and the decoder's members are as before. *)
Lemma write_queue (ps : stream) (data q : list Z) (n : nat) :
  tx_ready ps ->
  queued (_io ps) q ->
  accepts (_io ps) (length (cobs_frame data) + n) ->
  (write ps data).2 = true /\
  queued (_io (write ps data).1) (q ++ cobs_frame data) /\
  accepts (_io (write ps data).1) n /\
  rx_state (write ps data).1 = rx_state ps /\
  tx_ready (write ps data).1.
Proof.
  intros Hready Hq Hacc. unfold write, _cobs_write, cobs_frame in *.
  destruct (_cobs_write_loop_queue data ps true [] q n
              (tx_ready_open ps Hready) Hq Hacc)
    as (w & q' & Hopen & Hq' & Hpipe & Hacc' & Hs & Hrx).
  destruct (_cobs_write_loop data ps true) as [[pos buf rz rp io] s1].
  cbn [fst snd] in *. subst s1. ps_unfold.
  destruct Hopen as (Hpos & Hw & Hlen & b0 & rest & Hbuf). ps_simpl.
  assert (Hrest : rest <> []).
  { apply (tx_open_rest (mkPacketStream pos buf rz rp io) w rest b0); auto. }
  assert (Hwrap : u16 (pos + 1) = 2 + Z.of_nat (length w)).
  { unfold u16. rewrite Z.mod_small; lia. }
  assert (Hsent : take (Z.to_nat (2 + Z.of_nat (length w)))
                    (<[Z.to_nat pos := 0]> (<[Z.to_nat 0 := u8 pos]> buf)) =
                  cobs_tail w []).
  { rewrite Hbuf, Hpos. change (Z.to_nat 0) with 0%nat.
    change (<[0%nat := u8 (1 + Z.of_nat (length w))]> (b0 :: w ++ rest))
      with (u8 (1 + Z.of_nat (length w)) :: w ++ rest).
    rewrite (tx_open_store _ w rest (u8 (1 + Z.of_nat (length w))) 0 eq_refl Hrest).
    replace (Z.to_nat (2 + Z.of_nat (length w)))
      with (Datatypes.S (length (w ++ [0]))) by (rewrite length_app; cbn; lia).
    cbn [take cobs_tail]. rewrite take_app_length.
    unfold u8. rewrite Z.mod_small by lia. reflexivity. }
  rewrite Hwrap.
  match goal with |- context [tx_write ?p true] =>
    destruct (tx_write_queue p true q' n Hq') as (io' & -> & Hq'' & Hacc'') end.
  { ps_simpl. rewrite !length_insert. unfold TX_BUF_SIZE in *. lia. }
  { ps_simpl. eapply accepts_eq; [exact Hacc'|].
    cbn [cobs_tail length]. rewrite length_app. cbn [length]. lia. }
  ps_simpl. rewrite Hsent, Hpipe in Hq''. ps_unfold.
  split; [reflexivity|]. split; [exact Hq''|]. split; [exact Hacc''|].
  split; [exact Hrx|].
  unfold tx_ready. ps_simpl. rewrite !length_insert. auto.
Qed.

(** [write], then [read] on the same stream. *)
Lemma round_trip_queue (ps : stream) (P : list Z) (fuel : nat)
        (data : list Z) (size actual : Z) :
  tx_ready ps ->
  rx_state ps = RX_INITIAL ->
  queued (_io ps) [] ->
  accepts (_io ps) (length P + length P / 254 + 2) ->
  Forall is_byte P ->
  Z.of_nat (length P) <= SIZE_MAX ->
  Z.of_nat (length P) <= size <= Z.of_nat (length data) ->
  (length P + length P / 254 + 2 < fuel)%nat ->
  (write ps P).2 = true /\
  exists ps',
    read fuel (write ps P).1 data size actual =
      Some (true, P ++ drop (length P) data, Z.of_nat (length P), ps') /\
    queued (_io ps') [] /\
    rx_state ps' = RX_INITIAL /\
    tx_ready ps'.
Proof.
  intros Hready Hrx Hempty Hacc HP Hmax Hsize Hfuel.
  pose proof (cobs_frame_length P) as Hframe.
  destruct (write_queue ps P [] 0 Hready Hempty) as (Hok & Hq & _ & Hrx' & Hready').
  { eapply (proj1 Hwrites); [exact Hacc|lia]. }
  split; [exact Hok|].
  destruct (read_frame_queue (write ps P).1 P [] fuel data size actual)
    as (io' & Hq' & Hread); auto.
  - rewrite Hrx'. exact Hrx.
  - rewrite app_nil_r. exact Hq.
  - rewrite app_nil_r. lia.
  - eexists. split; [exact Hread|]. split; [exact Hq'|].
    split; [reflexivity|]. destruct Hready' as [Hp Hl]. split; assumption.
Qed.

(** C1 (round trip).  Take a stream over a handle that keeps bytes in
    order, holds none and has room for a frame, with encoder and decoder
    between packets, and any payload [P] of bytes whose length fits
    [size_t].  [write] of [P] succeeds, and a [read] on the same stream
    into a buffer with room for [P] returns true, has [P] in the buffer
    (the bytes behind it untouched) and reports the length of [P] in
    [*actual].  Afterwards the handle holds nothing again and both
    halves of the stream are ready for the next packet.  A frame is at
    most [length P + length P / 254 + 2] bytes long; [fuel] only has to
    exceed that. *)
Theorem write_read_round_trip (ps : stream) (P : list Z) (fuel : nat)
        (data : list Z) (size actual : Z) :
  tx_ready ps ->
  rx_state ps = RX_INITIAL ->
  queued (_io ps) [] ->
  accepts (_io ps) (length P + length P / 254 + 2) ->
  Forall is_byte P ->
  Z.of_nat (length P) <= SIZE_MAX ->
  Z.of_nat (length P) <= size <= Z.of_nat (length data) ->
  (length P + length P / 254 + 2 < fuel)%nat ->
  (write ps P).2 = true /\
  exists ps',
    read fuel (write ps P).1 data size actual =
      Some (true, P ++ drop (length P) data, Z.of_nat (length P), ps') /\
    queued (_io ps') [] /\
    rx_state ps' = RX_INITIAL /\
    tx_ready ps'.
Proof. apply round_trip_queue. Qed.

(** C2 (byte-exact wire format).  On a stream whose encoder is between
    packets, over a handle that keeps bytes in order and has room,
    [write] queues exactly these bytes behind what the handle holds:
    for the empty payload 01 00; for 00: 01 01 00; for 00 00:
    01 01 01 00; for 11 22 00 33: 03 11 22 02 33 00; for 11 22 33 44:
    05 11 22 33 44 00; for the 254 bytes 01 .. FE: FF 01 .. FE 00, one
    full block and no zero put in; for the 255 bytes 00 01 .. FE:
    01 FF 01 .. FE 00. *)
Theorem write_wire_format (ps : stream) (q : list Z) :
  tx_ready ps ->
  queued (_io ps) q ->
  accepts (_io ps) 257 ->
  let sent P frame := queued (_io (write ps P).1) (q ++ frame) in
  sent [] [0x01; 0x00] /\
  sent [0x00] [0x01; 0x01; 0x00] /\
  sent [0x00; 0x00] [0x01; 0x01; 0x01; 0x00] /\
  sent [0x11; 0x22; 0x00; 0x33] [0x03; 0x11; 0x22; 0x02; 0x33; 0x00] /\
  sent [0x11; 0x22; 0x33; 0x44] [0x05; 0x11; 0x22; 0x33; 0x44; 0x00] /\
  sent (map Z.of_nat (seq 1 254))
       (0xFF :: map Z.of_nat (seq 1 254) ++ [0x00]) /\
  sent (map Z.of_nat (seq 0 255))
       (0x01 :: 0xFF :: map Z.of_nat (seq 1 254) ++ [0x00]).
Proof.
  intros Hready Hq Hacc sent.
  assert (Hsent : forall P frame,
             cobs_frame P = frame -> (length frame <= 257)%nat -> sent P frame).
  { intros P frame <- Hlen. subst sent. cbv beta.
    apply (write_queue ps P q 0 Hready Hq).
    eapply (proj1 Hwrites); [exact Hacc|lia]. }
  repeat split; apply Hsent;
    solve [vm_compute; reflexivity | apply Nat.leb_le; vm_compute; reflexivity].
Qed.

End InOrder.

(** *** The file handles of the self test keep bytes in order *)

Section Handles.

Lemma pipe_reads_in_order : reads_in_order pipe_queued.
Proof.
  split.
  - intros [q] Hq. unfold pipe_queued in *. cbn in Hq. subst q.
    exists 0, [], (mkPipe []). repeat split. discriminate.
  - intros [q0] b q Hq. unfold pipe_queued in *. cbn in Hq. subst q0.
    exists (mkPipe q). split; reflexivity.
Qed.

Lemma pipe_writes_in_order : writes_in_order pipe_queued pipe_accepts.
Proof.
  split; [intros; exact I|].
  intros [q0] q bytes n Hq _. unfold pipe_queued in *. cbn in Hq. subst q0.
  exists (mkPipe (q ++ bytes)). repeat split.
Qed.

Lemma usize_small (x : Z) : 0 <= x <= SIZE_MAX -> usize x = x.
Proof. intros Hx. unfold usize. apply Z.mod_small. lia. Qed.

Lemma mock_reads_in_order : reads_in_order mock_queued.
Proof.
  split.
  - intros m (Hsize & Hpos & Hmax & Hq).
    assert (Hend : _read_pos m = _read_size m).
    { symmetry in Hq. apply (f_equal length) in Hq.
      rewrite length_drop in Hq. cbn in Hq. lia. }
    cbn [fh_read TestFileHandle_FileHandle].
    rewrite Hend, Z.sub_diag. change (usize 0) with 0.
    change (1 >? 0) with true. cbv iota. rewrite Z.add_0_r.
    rewrite usize_small by lia.
    do 3 eexists. split; [reflexivity|]. split; [discriminate|].
    unfold mock_queued. cbn [_read_size _read_buf _read_pos].
    split; [exact Hsize|]. split; [lia|]. split; [exact Hmax|].
    rewrite <- Hend. exact Hq.
  - intros m b q (Hsize & Hpos & Hmax & Hq).
    assert (Hlt : _read_pos m < _read_size m).
    { apply (f_equal length) in Hq. rewrite length_drop in Hq. cbn in Hq. lia. }
    cbn [fh_read TestFileHandle_FileHandle].
    rewrite (usize_small (_read_size m - _read_pos m)) by lia.
    replace (1 >? _read_size m - _read_pos m) with false
      by (symmetry; rewrite Z.gtb_ltb; apply Z.ltb_ge; lia).
    rewrite <- Hq. rewrite usize_small by lia.
    eexists. split; [reflexivity|].
    unfold mock_queued. cbn.
    split; [exact Hsize|]. split; [lia|]. split; [exact Hmax|].
    replace (Z.to_nat (_read_pos m + 1))
      with (Z.to_nat (_read_pos m) + 1)%nat by lia.
    rewrite <- drop_drop, <- Hq. reflexivity.
Qed.

(** The ring buffer: how many bytes it holds. *)
Lemma used_spec (l : PacketStreamLoopFileHandle) :
  ring_ok l ->
  0 <= _used l < LOOP_BUF_SIZE /\
  (_head l <= _tail l -> _used l = _tail l - _head l) /\
  (_tail l < _head l -> _used l = _tail l + LOOP_BUF_SIZE - _head l).
Proof.
  intros (Hsize & Hlen & Hhead & Htail). unfold _used, LOOP_BUF_SIZE in *.
  rewrite Hsize. destruct (_head l >? _tail l) eqn:Hgt.
  - apply Z.gtb_lt in Hgt.
    rewrite (usize_small (_tail l + 2048)) by (unfold SIZE_MAX; lia).
    rewrite usize_small by (unfold SIZE_MAX; lia). lia.
  - rewrite Z.gtb_ltb in Hgt. apply Z.ltb_ge in Hgt.
    rewrite usize_small by (unfold SIZE_MAX; lia). lia.
Qed.

Lemma free_spec (l : PacketStreamLoopFileHandle) :
  ring_ok l -> _free l = LOOP_BUF_SIZE - 1 - _used l.
Proof.
  intros Hok. pose proof (used_spec l Hok) as (Hused & _).
  destruct Hok as (Hsize & _). unfold _free. rewrite Hsize.
  unfold LOOP_BUF_SIZE in *.
  rewrite (usize_small (2048 - _used l)) by (unfold SIZE_MAX; lia).
  rewrite usize_small by (unfold SIZE_MAX; lia). lia.
Qed.

(** One byte taken at the head. *)
Lemma used_next_head (l : PacketStreamLoopFileHandle) :
  ring_ok l -> 1 <= _used l ->
  let l' := mkLoopFileHandle
              (_buf l)
              (if _head l + 1 >=? LOOP_BUF_SIZE then 0 else _head l + 1)
              (_tail l) (_size l) in
  ring_ok l' /\ _used l' = _used l - 1.
Proof.
  intros Hok Hone l'.
  pose proof (used_spec l Hok) as (Hused & Hle & Hgt).
  assert (Hok' : ring_ok l').
  { destruct Hok as (Hsize & Hlen & Hhead & Htail).
    subst l'. unfold ring_ok, LOOP_BUF_SIZE in *. cbn.
    destruct (_head l + 1 >=? 2048) eqn:Hwrap; [lia|].
    rewrite Z.geb_leb in Hwrap. apply Z.leb_gt in Hwrap. lia. }
  split; [exact Hok'|].
  pose proof (used_spec l' Hok') as (Hused' & Hle' & Hgt').
  subst l'. cbn [_head _tail] in *.
  destruct Hok as (_ & _ & Hhead & Htail). unfold LOOP_BUF_SIZE in *.
  destruct (_head l + 1 >=? 2048) eqn:Hwrap.
  - rewrite Z.geb_leb in Hwrap. apply Z.leb_le in Hwrap. lia.
  - rewrite Z.geb_leb in Hwrap. apply Z.leb_gt in Hwrap. lia.
Qed.

(** One byte put at the tail. *)
Lemma used_next_tail (l : PacketStreamLoopFileHandle) (b : Z) :
  ring_ok l -> _used l + 1 <= LOOP_BUF_SIZE - 1 ->
  let l' := mkLoopFileHandle
              (<[Z.to_nat (_tail l) := b]> (_buf l)) (_head l)
              (if _tail l + 1 >=? LOOP_BUF_SIZE then 0 else _tail l + 1)
              (_size l) in
  ring_ok l' /\ _used l' = _used l + 1.
Proof.
  intros Hok Hroom l'.
  pose proof (used_spec l Hok) as (Hused & Hle & Hgt).
  assert (Hok' : ring_ok l').
  { destruct Hok as (Hsize & Hlen & Hhead & Htail).
    subst l'. unfold ring_ok, LOOP_BUF_SIZE in *. cbn. rewrite length_insert.
    destruct (_tail l + 1 >=? 2048) eqn:Hwrap; [lia|].
    rewrite Z.geb_leb in Hwrap. apply Z.leb_gt in Hwrap. lia. }
  split; [exact Hok'|].
  pose proof (used_spec l' Hok') as (Hused' & Hle' & Hgt').
  subst l'. cbn [_head _tail] in *.
  destruct Hok as (_ & _ & Hhead & Htail). unfold LOOP_BUF_SIZE in *.
  destruct (_tail l + 1 >=? 2048) eqn:Hwrap.
  - rewrite Z.geb_leb in Hwrap. apply Z.leb_le in Hwrap. lia.
  - rewrite Z.geb_leb in Hwrap. apply Z.leb_gt in Hwrap. lia.
Qed.

(** The bytes held end with the one before the tail's slot ... *)
Lemma ring_bytes_snoc (n : nat) :
  forall l : PacketStreamLoopFileHandle,
    ring_ok l -> _used l = Z.of_nat n ->
    ring_bytes (Datatypes.S n) (_buf l) (_head l) =
    ring_bytes n (_buf l) (_head l) ++ [default 0 (_buf l !! Z.to_nat (_tail l))].
Proof.
  induction n as [|n IH]; intros l Hok Hused.
  - pose proof (used_spec l Hok) as (_ & Hle & Hgt).
    destruct Hok as (_ & _ & Hhead & Htail). unfold LOOP_BUF_SIZE in *.
    assert (_head l = _tail l) as -> by lia. reflexivity.
  - destruct (used_next_head l Hok ltac:(lia)) as (Hok' & Hused').
    specialize (IH _ Hok' ltac:(lia)). cbn [_buf _head _tail] in IH.
    change (ring_bytes (Datatypes.S (Datatypes.S n)) (_buf l) (_head l))
      with (default 0 (_buf l !! Z.to_nat (_head l)) ::
            ring_bytes (Datatypes.S n) (_buf l)
              (if _head l + 1 >=? LOOP_BUF_SIZE then 0 else _head l + 1)).
    rewrite IH. reflexivity.
Qed.

(** ... and do not include the tail's slot. *)
Lemma ring_bytes_insert (n : nat) :
  forall (l : PacketStreamLoopFileHandle) (b : Z),
    ring_ok l -> Z.of_nat n <= _used l ->
    ring_bytes n (<[Z.to_nat (_tail l) := b]> (_buf l)) (_head l) =
    ring_bytes n (_buf l) (_head l).
Proof.
  induction n as [|n IH]; intros l b Hok Hused; [reflexivity|].
  destruct (used_next_head l Hok ltac:(lia)) as (Hok' & Hused').
  specialize (IH _ b Hok' ltac:(lia)). cbn [_buf _head _tail] in IH.
  cbn [ring_bytes]. rewrite IH. f_equal.
  rewrite list_lookup_insert_ne; [reflexivity|].
  pose proof (used_spec l Hok) as (_ & Hle & Hgt).
  destruct Hok as (_ & _ & Hhead & Htail). unfold LOOP_BUF_SIZE in *.
  intros Heq. apply Z2Nat.inj in Heq; lia.
Qed.

(** The copying loop of [write] queues its bytes. *)
Lemma loop_write_spec (bytes : list Z) :
  forall l : PacketStreamLoopFileHandle,
    ring_ok l ->
    _used l + Z.of_nat (length bytes) <= LOOP_BUF_SIZE - 1 ->
    ring_ok (loop_write bytes l) /\
    _used (loop_write bytes l) = _used l + Z.of_nat (length bytes) /\
    _head (loop_write bytes l) = _head l /\
    ring_bytes (Z.to_nat (_used (loop_write bytes l)))
               (_buf (loop_write bytes l)) (_head l) =
    ring_bytes (Z.to_nat (_used l)) (_buf l) (_head l) ++ bytes.
Proof.
  induction bytes as [|b bytes IH]; intros l Hok Hroom.
  - cbn [loop_write length]. rewrite Z.add_0_r, app_nil_r. auto.
  - cbn [length] in Hroom.
    pose proof (used_spec l Hok) as (Hused & _).
    pose proof Hok as (Hsize & Hlen & Hhead & Htail).
    destruct l as [buf head tail size]. cbn [_buf _head _tail _size] in *.
    subst size. cbn [loop_write _buf _head _tail _size].
    rewrite (usize_small (tail + 1))
      by (unfold LOOP_BUF_SIZE, SIZE_MAX in *; lia).
    set (l := mkLoopFileHandle buf head tail LOOP_BUF_SIZE) in *.
    destruct (used_next_tail l b Hok ltac:(lia)) as (Hok1 & Hused1).
    cbn [_buf _head _tail _size l] in Hok1, Hused1.
    set (l1 := mkLoopFileHandle (<[Z.to_nat tail := b]> buf) head
                 (if tail + 1 >=? LOOP_BUF_SIZE then 0 else tail + 1)
                 LOOP_BUF_SIZE) in *.
    destruct (IH l1 Hok1 ltac:(lia)) as (Hok' & Hused' & Hhead' & Hbytes).
    split; [exact Hok'|]. split; [cbn [length]; lia|].
    split; [exact Hhead'|].
    change (_head l1) with head in Hbytes. rewrite Hbytes, Hused1.
    replace (Z.to_nat (_used l + 1)) with (Datatypes.S (Z.to_nat (_used l))) by lia.
    assert (Hl : _used l = Z.of_nat (Z.to_nat (_used l))) by lia.
    (* the slot written is the last of the bytes held *)
    assert (Hlast :
      ring_bytes (Datatypes.S (Z.to_nat (_used l))) (_buf l1) head =
      ring_bytes (Z.to_nat (_used l)) buf head ++ [b]).
    { clear IH Hbytes.
      pose proof (ring_bytes_snoc (Z.to_nat (_used l))
                    (mkLoopFileHandle (_buf l1) head tail LOOP_BUF_SIZE))
        as Hsnoc.
      cbn [_buf _head _tail] in Hsnoc. rewrite Hsnoc.
      - subst l1. cbn [_buf].
        rewrite (ring_bytes_insert _ l b Hok) by lia.
        rewrite list_lookup_insert_eq
          by (unfold LOOP_BUF_SIZE in *; lia).
        reflexivity.
      - subst l1. unfold ring_ok in *. cbn. rewrite length_insert. auto.
      - exact Hl. }
    rewrite Hlast, <- app_assoc. reflexivity.
Qed.

Lemma ring_reads_in_order : reads_in_order ring_queued.
Proof.
  split.
  - intros l [Hok Hq].
    pose proof (used_spec l Hok) as (Hused & _).
    assert (Hzero : _used l = 0).
    { destruct (Z.to_nat (_used l)) eqn:Hn; [lia|discriminate]. }
    cbn [fh_read LoopFileHandle_FileHandle]. rewrite Hzero.
    exists 0, [], l. split; [reflexivity|]. split; [discriminate|].
    split; [exact Hok|exact Hq].
  - intros l b q [Hok Hq].
    pose proof (used_spec l Hok) as (Hused & _).
    destruct (Z.to_nat (_used l)) as [|n] eqn:Hn; [discriminate|].
    cbn [ring_bytes] in Hq. inversion Hq as [[Hb Hq']]. clear Hq.
    destruct (used_next_head l Hok ltac:(lia)) as (Hok' & Hused').
    cbn [fh_read LoopFileHandle_FileHandle].
    replace (if 1 <? _used l then 1 else _used l) with 1
      by (destruct (1 <? _used l) eqn:Hlt; [reflexivity|apply Z.ltb_ge in Hlt; lia]).
    change (Z.to_nat 1) with 1%nat.
    pose proof Hok as (Hsize & Hlen & Hhead & Htail).
    destruct l as [buf head tail size]. cbn [_buf _head _tail _size] in *.
    subst size. cbn [loop_read _buf _head _tail _size].
    rewrite (usize_small (head + 1))
      by (unfold LOOP_BUF_SIZE, SIZE_MAX in *; lia).
    eexists. split; [reflexivity|].
    split; [exact Hok'|]. cbn [_buf _head]. rewrite Hused'.
    replace (Z.to_nat (_used (mkLoopFileHandle buf head tail LOOP_BUF_SIZE) - 1))
      with n by lia.
    reflexivity.
Qed.

Lemma ring_writes_in_order : writes_in_order ring_queued ring_accepts.
Proof.
  split.
  - unfold ring_accepts. intros l n m Hacc Hle. lia.
  - intros l q bytes n [Hok Hq] Hacc. unfold ring_accepts in *.
    rewrite Nat2Z.inj_add in Hacc.
    pose proof (used_spec l Hok) as (Hused & _).
    destruct (loop_write_spec bytes l Hok ltac:(lia))
      as (Hok' & Hused' & Hhead' & Hbytes).
    exists (loop_write bytes l).
    cbn [fh_write LoopFileHandle_FileHandle].
    rewrite (free_spec l Hok).
    replace (LOOP_BUF_SIZE - 1 - _used l <? Z.of_nat (length bytes)) with false
      by (symmetry; apply Z.ltb_ge; lia).
    split; [reflexivity|]. split; [|lia].
    split; [exact Hok'|]. rewrite Hhead', Hbytes, Hq. reflexivity.
Qed.

End Handles.

(** *** A frame sent by one stream, found by another *)

Section Resynchronize.

Context {S : Type} `{FileHandle S}.

Variable queued : S -> list Z -> Prop.
Hypothesis Hreads : reads_in_order queued.

(** What [write] puts into an empty pipe is the frame of the payload. *)
Lemma write_pipe_frame (tx : PacketStream Pipe) (P : list Z) :
  tx_ready tx ->
  pipe_bytes (_io tx) = [] ->
  pipe_bytes (_io (write tx P).1) = cobs_frame P.
Proof.
  intros Hready Hempty.
  apply (write_queue pipe_queued pipe_accepts pipe_writes_in_order tx P [] 0
                     Hready Hempty I).
Qed.

(** C4 (resynchronisation).  Let the loop of [read] on a stream over a
    handle that keeps bytes in order end with [DecodingCobsError], in
    whatever state the decoder was before.  That [read] returns false.
    Take the stream as that call left it, or with only its handle
    changed since (the self test refills its mock with
    [read_set_next]): if what the handle holds starts with the frame
    [write] sends for a payload [P] (of bytes, of a length that fits
    [size_t]), the next [read], with room for [P], returns true with
    [P] in the buffer and its length in [*actual], and leaves in the
    handle what followed the frame. *)
Theorem read_resynchronizes (ps : PacketStream S) (fuel : nat) (data : list Z)
        (size : Z) data1 pos1 (ps1 : PacketStream S) :
  read_loop fuel ps data size 0 0 = Some (DecodingCobsError, data1, pos1, ps1) ->
  forall (ps1' : PacketStream S) (tx : PacketStream Pipe) (P rest : list Z),
    rx_state ps1' = rx_state ps1 ->
    tx_ready tx ->
    pipe_bytes (_io tx) = [] ->
    queued (_io ps1') (pipe_bytes (_io (write tx P).1) ++ rest) ->
    Forall is_byte P ->
    Z.of_nat (length P) <= SIZE_MAX ->
    forall (fuel2 : nat) (buf : list Z) (size2 actual actual2 : Z),
      Z.of_nat (length P) <= size2 <= Z.of_nat (length buf) ->
      (length P + length P / 254 + 2 + length rest < fuel2)%nat ->
      read fuel ps data size actual = Some (false, data1, actual, ps1) /\
      exists ps2,
        read fuel2 ps1' buf size2 actual2 =
          Some (true, P ++ drop (length P) buf, Z.of_nat (length P), ps2) /\
        queued (_io ps2) rest.
Proof.
  intros Hloop ps1' tx P rest Hrx Hready Hempty Hq HP Hmax fuel2 buf size2
         actual actual2 Hsize Hfuel.
  split; [unfold read; rewrite Hloop; reflexivity|].
  rewrite (write_pipe_frame tx P Hready Hempty) in Hq.
  pose proof (cobs_frame_length P) as Hframe.
  destruct (read_frame_queue queued Hreads ps1' P rest fuel2 buf size2 actual2)
    as (io' & Hq' & Hread); auto.
  - rewrite Hrx. eapply read_loop_reset; [exact Hloop|]. right. reflexivity.
  - rewrite length_app. lia.
  - eexists. split; [exact Hread|exact Hq'].
Qed.

End Resynchronize.

(** *** Instances of the theorems *)

Section Instances.

Lemma is_byteb_Forall (l : list Z) : forallb is_byteb l = true -> Forall is_byte l.
Proof.
  intros Hl. apply Forall_forall. intros b Hb.
  apply list_elem_of_In in Hb.
  rewrite forallb_forall in Hl. specialize (Hl b Hb).
  unfold is_byteb in Hl. apply andb_true_iff in Hl.
  unfold is_byte. lia.
Qed.

Lemma tx_ready_new {S} (uninit : list Z) (io : S) :
  tx_ready (PacketStream_new uninit io).
Proof.
  unfold tx_ready, PacketStream_new. cbn [_tx_pos _tx_buf length].
  split; [reflexivity|].
  rewrite length_take, length_app, length_replicate. unfold TX_BUF_SIZE. lia.
Qed.

(** A refilled mock holds the bytes it was given. *)
Lemma refill_queued (ps : PacketStream PacketStreamTestFileHandle) (wire : list Z) :
  Z.of_nat (length wire) <= SIZE_MAX ->
  mock_queued (_io (refill ps wire)) wire.
Proof.
  intros Hlen. unfold mock_queued, refill, read_set_next. cbn.
  repeat split; auto; lia.
Qed.

(** A new ring buffer holds nothing and takes 2047 bytes. *)
Lemma ring_new_queued : ring_queued LoopFileHandle_new [].
Proof.
  split; [|reflexivity].
  unfold ring_ok, LoopFileHandle_new, LOOP_BUF_SIZE. cbn [_size _buf _head _tail].
  rewrite length_replicate. lia.
Qed.

(** The round trip of 600 bytes through the ring buffer of the
    loop-back test. *)
Lemma write_read_round_trip_witness :
  (write loopback payload600).2 = true /\
  exists ps',
    read 1000 (write loopback payload600).1 (replicate 1024 0) 1024 0 =
      Some (true, payload600 ++ drop (length payload600) (replicate 1024 0),
            Z.of_nat (length payload600), ps') /\
    ring_queued (_io ps') [] /\ rx_state ps' = RX_INITIAL /\ tx_ready ps'.
Proof.
  apply (write_read_round_trip ring_queued ring_reads_in_order
           ring_accepts ring_writes_in_order
           loopback payload600 1000 (replicate 1024 0) 1024 0).
  - apply tx_ready_new.
  - reflexivity.
  - exact ring_new_queued.
  - unfold ring_accepts. vm_compute. discriminate.
  - apply is_byteb_Forall. vm_compute. reflexivity.
  - vm_compute. discriminate.
  - vm_compute. split; discriminate.
  - apply Nat.ltb_lt. vm_compute. reflexivity.
Defined.

Lemma write_wire_format_witness :
  pipe_queued (_io (write fresh []).1) ([] ++ [0x01; 0x00]) /\
  pipe_queued (_io (write fresh [0x00]).1) ([] ++ [0x01; 0x01; 0x00]) /\
  pipe_queued (_io (write fresh [0x00; 0x00]).1) ([] ++ [0x01; 0x01; 0x01; 0x00]) /\
  pipe_queued (_io (write fresh [0x11; 0x22; 0x00; 0x33]).1)
              ([] ++ [0x03; 0x11; 0x22; 0x02; 0x33; 0x00]) /\
  pipe_queued (_io (write fresh [0x11; 0x22; 0x33; 0x44]).1)
              ([] ++ [0x05; 0x11; 0x22; 0x33; 0x44; 0x00]) /\
  pipe_queued (_io (write fresh (map Z.of_nat (seq 1 254))).1)
              ([] ++ 0xFF :: map Z.of_nat (seq 1 254) ++ [0x00]) /\
  pipe_queued (_io (write fresh (map Z.of_nat (seq 0 255))).1)
              ([] ++ 0x01 :: 0xFF :: map Z.of_nat (seq 1 254) ++ [0x00]).
Proof.
  apply (write_wire_format pipe_queued pipe_accepts pipe_writes_in_order
                           fresh [] (tx_ready_new [] (mkPipe [])) eq_refl I).
Defined.

(** The length byte 03 and then a failing read. *)
Lemma _cobs_getc_reset_on_zero_witness :
  let ps := receiving [0x03] in
  let ps' := mkPacketStream 1 (_tx_buf fresh) 3 false (mkPipe []) in
  (ends_packet DecodingFileError -> rx_state ps' = RX_INITIAL) /\
  (DecodingFileError = DecodingFileError ->
   let first := fh_read (_io ps) 1 in
   let d := hd 0 first.1.2 in
   let second := fh_read first.2 1 in
   (first.1.1 <> 1 /\
    rx_state ps' = rx_state ps /\ _io ps' = first.2) \/
   (first.1.1 = 1 /\ d <> 0 /\
    u8 (_rx_next_zero ps - 1) = 0 /\ _rx_next_pad ps = true /\
    second.1.1 <> 1 /\
    rx_state ps' = (d, d =? 255) /\ _io ps' = second.2)).
Proof.
  apply (_cobs_getc_reset_on_zero 2 (receiving [0x03]) 0 DecodingFileError 0
           (mkPacketStream 1 (_tx_buf fresh) 3 false (mkPipe []))).
  reflexivity.
Defined.

(** C3 as stated fails: a length byte and then a failing read of the
    handle.  The call returns [DecodingFileError] and the decoder is left
    with the count and flag the length byte has set. *)
Lemma _cobs_getc_file_error_no_reset :
  _cobs_getc MAX_RECURSION (receiving [0x05]) 0 =
    Some (DecodingFileError, 0,
          mkPacketStream 1 (_tx_buf fresh) 5 false (mkPipe [])) /\
  rx_state (mkPacketStream 1 (_tx_buf fresh) 5 false (mkPipe [])) <> RX_INITIAL.
Proof. split; [reflexivity|discriminate]. Qed.

(** "Test bad cobs" of the self test: the mock is given 01 02 00, the
    read fails; the mock is given 01 01 00, the read returns the one
    byte 00. *)
Lemma read_resynchronizes_witness :
  let ps1 := mkPacketStream 1 (_tx_buf serial) 1 true
               (mkTestFileHandle [0x01; 0x02; 0x00] 3 3 [] 0 0 false) in
  read 8 (refill serial [0x01; 0x02; 0x00]) (replicate 512 0) 512 0xFFFFFFFF =
    Some (false, replicate 512 0, 0xFFFFFFFF, ps1) /\
  exists ps2,
    read 8 (refill ps1 [0x01; 0x01; 0x00]) (replicate 512 0) 512 0 =
      Some (true, [0x00] ++ drop (length [0x00]) (replicate 512 0),
            Z.of_nat (length [0x00]), ps2) /\
    mock_queued (_io ps2) [].
Proof.
  intros ps1.
  apply (read_resynchronizes mock_queued mock_reads_in_order
           (refill serial [0x01; 0x02; 0x00]) 8 (replicate 512 0) 512
           (replicate 512 0) 1 ps1 eq_refl
           (refill ps1 [0x01; 0x01; 0x00]) fresh [0x00] []).
  - reflexivity.
  - apply tx_ready_new.
  - reflexivity.
  - apply refill_queued. vm_compute. discriminate.
  - apply is_byteb_Forall. reflexivity.
  - vm_compute. discriminate.
  - vm_compute. split; discriminate.
  - apply Nat.ltb_lt. reflexivity.
Defined.

Lemma read_rejects_01_02_00_witness :
  exists data' pos ps',
    read_loop 8 (refill serial [0x01; 0x02; 0x00]) (replicate 512 0) 512 0 0 =
      Some (DecodingCobsError, data', pos, ps') /\
    read 8 (refill serial [0x01; 0x02; 0x00]) (replicate 512 0) 512 0xFFFFFFFF =
      Some (false, data', 0xFFFFFFFF, ps') /\
    mock_queued (_io ps') [].
Proof.
  apply (read_rejects_01_02_00 mock_queued mock_reads_in_order
           (refill serial [0x01; 0x02; 0x00]) [] 8 (replicate 512 0) 512
           0xFFFFFFFF).
  - reflexivity.
  - apply refill_queued. vm_compute. discriminate.
  - apply Nat.ltb_lt. reflexivity.
Defined.

Lemma read_truncates_witness :
  exists ps',
    read 8 (receiving [0x03; 0x11; 0x22; 0x02; 0x33; 0x00]) [7; 7; 7] 2 5 =
    Some (true, take (Z.to_nat 2) [0x11; 0x22; 0x00; 0x33] ++ drop (Z.to_nat 2) [7; 7; 7],
          Z.of_nat (length [0x11; 0x22; 0x00; 0x33]), ps').
Proof.
  eexists.
  apply (read_truncates 8 (receiving [0x03; 0x11; 0x22; 0x02; 0x33; 0x00])
                        [0x11; 0x22; 0x00; 0x33]).
  - vm_compute. reflexivity.
  - vm_compute. discriminate.
  - vm_compute. split; [discriminate|reflexivity].
  - vm_compute. discriminate.
Defined.

(** A payload that does not fit the ring buffer of the loop-back handle:
    the handle refuses blocks, and [write] returns false. *)
Lemma write_fails_iff_short_write_witness :
  let ps := PacketStream_new [] (mkLogged LoopFileHandle_new []) in
  (write ps (byte_run 1 2100)).2 = false /\
  exists evs,
    lg_events (_io (write ps (byte_run 1 2100)).1) = lg_events (_io ps) ++ evs /\
    Forall is_write evs /\
    ((write ps (byte_run 1 2100)).2 = false <-> Exists short_write evs) /\
    tx_ready (write ps (byte_run 1 2100)).1 /\
    _tx_buf (write ps (byte_run 1 2100)).1 !! 0%nat = Some 0.
Proof.
  split; [vm_compute; reflexivity|].
  apply (write_fails_iff_short_write
           (PacketStream_new [] (mkLogged LoopFileHandle_new []))
           (byte_run 1 2100)).
  apply tx_ready_new.
Defined.

Lemma _cobs_getc_zero_ends_packet_witness :
  let ps := PacketStream_new [] (mkLogged (mkPipe [0x01; 0x00]) []) in
  exists evs,
    lg_events (mkLogged (mkPipe []) [EvRead 1 1 [0x01]; EvRead 1 1 [0x00]]) =
      lg_events (_io ps) ++ evs /\
    (Exists (delivers 0) evs -> ends_packet DecodingDone) /\
    (DecodingDone = DecodingContinue -> 0 = 0 ->
     exists evs0 size bytes,
       evs = evs0 ++ [EvRead size 1 bytes] /\
       hd 0 bytes <> 0 /\ 1 = hd 0 bytes).
Proof.
  apply (_cobs_getc_zero_ends_packet 2
           (PacketStream_new [] (mkLogged (mkPipe [0x01; 0x00]) [])) 0
           DecodingDone 0
           (mkPacketStream 1 (_tx_buf fresh) 1 true
              (mkLogged (mkPipe []) [EvRead 1 1 [0x01]; EvRead 1 1 [0x00]]))).
  reflexivity.
Defined.

(** A packet of 70 bytes received by [scanf]. *)
Lemma scanf_terminator_index_witness :
  exists ps',
    scanf 100 (receiving (cobs_frame (byte_run 1 70))) [] (fun _ => 1) =
    Some (ScanfOutOfBounds 70 ps').
Proof.
  eexists.
  apply (scanf_terminator_index 100 (receiving (cobs_frame (byte_run 1 70)))
                                (byte_run 1 70)).
  - vm_compute. reflexivity.
  - vm_compute. discriminate.
  - vm_compute. reflexivity.
Defined.

Lemma bytes_eqb_refl (a : list Z) : bytes_eqb a a = true.
Proof.
  unfold bytes_eqb. rewrite Nat.eqb_refl. cbn [andb].
  induction a as [|x a IH]; [reflexivity|].
  cbn. rewrite Z.eqb_refl. exact IH.
Qed.

(** X27 (the loop-back test passes).  "Test loopback" of the self test,
    for every payload it can draw (at most 1023 bytes) and wherever the
    ring stands: the round passes and leaves the stream ready for the
    next round. *)
Lemma self_test_loopback_passes
      (ps : PacketStream PacketStreamLoopFileHandle) (src : list Z) :
  tx_ready ps ->
  rx_state ps = RX_INITIAL ->
  ring_queued (_io ps) [] ->
  Forall is_byte src ->
  (length src <= 1023)%nat ->
  exists ps',
    self_test_loopback 2000 ps src = Some (true, ps') /\
    tx_ready ps' /\ rx_state ps' = RX_INITIAL /\ ring_queued (_io ps') [].
Proof.
  intros Hready Hrx Hq Hsrc Hlen.
  pose proof (Nat.div_mod_eq (length src) 254) as Hdiv.
  pose proof (Nat.mod_upper_bound (length src) 254 ltac:(lia)) as Hmod.
  assert (Hused : _used (_io ps) = 0).
  { destruct Hq as [Hok Hq]. pose proof (used_spec _ Hok) as (Hu & _).
    destruct (Z.to_nat (_used (_io ps))) eqn:Hn; [lia|discriminate]. }
  destruct (round_trip_queue ring_queued ring_reads_in_order
              ring_accepts ring_writes_in_order
              ps src 2000 (replicate 1024 0) 1024 0)
    as (Hok & ps' & Hread & Hq' & Hrx' & Hready'); auto.
  - unfold ring_accepts, LOOP_BUF_SIZE. rewrite Hused. lia.
  - unfold SIZE_MAX. lia.
  - rewrite length_replicate. lia.
  - lia.
  - exists ps'. split; [|auto].
    unfold self_test_loopback.
    destruct (write ps src) as [ps1 ok]. cbn [fst snd] in *.
    rewrite Hread, Z.eqb_refl, take_app_length, bytes_eqb_refl. reflexivity.
Qed.

(** The self test's own checks pass on the embedding. *)
Example self_test_writes_pass :
  self_test_writes serial test_vectors = true.
Proof. vm_compute. reflexivity. Qed.

Example self_test_reads_pass :
  self_test_reads 600 serial test_vectors = Some true.
Proof. vm_compute. reflexivity. Qed.

Example self_test_bad_cobs_pass :
  self_test_bad_cobs 8 serial = Some (false, (true, [0x00], 1), (true, 0)).
Proof. vm_compute. reflexivity. Qed.

Example self_test_loopback_pass :
  match self_test_loopback 2000 loopback (byte_run 7 1023) with
  | Some (ok, loopback') =>
      ok = true /\
      (* the ring has wrapped by the end of a second round *)
      option_map fst (self_test_loopback 2000 loopback' (byte_run 0 1023)) =
      Some true
  | None => False
  end.
Proof. vm_compute. split; reflexivity. Qed.

End Instances.

(** ** The frames of the encoder *)

(** What a new stream puts into an empty pipe is the reference frame. *)
Lemma frame_of_frame (P : list Z) : frame_of P = cobs_frame P.
Proof.
  unfold frame_of. apply write_pipe_frame; [apply tx_ready_new|reflexivity].
Qed.

Section Frames.

Context {S : Type} `{FileHandle S}.

Variable queued : S -> list Z -> Prop.
Variable accepts : S -> nat -> Prop.
Hypothesis Hwrites : writes_in_order queued accepts.

(** The bytes of a frame before its last are not zero. *)
Lemma cobs_tail_nonzero (data : list Z) :
  forall w : list Z,
    Forall is_byte data ->
    Forall nonzero_byte w ->
    Z.of_nat (length w) <= 254 ->
    exists body, cobs_tail w data = body ++ [0] /\ Forall nonzero_byte body.
Proof.
  induction data as [|d data IH]; intros w Hdata Hw Hlen; cbn [cobs_tail].
  - exists ((1 + Z.of_nat (length w)) :: w). split; [reflexivity|].
    constructor; [unfold nonzero_byte; lia|exact Hw].
  - inversion Hdata as [|? ? Hd Hdata']; subst.
    assert (Hcode : nonzero_byte (1 + Z.of_nat (length w)))
      by (unfold nonzero_byte; lia).
    destruct (255 <=? 1 + Z.of_nat (length w)) eqn:Hfull.
    + destruct (d =? 0) eqn:Hz.
      * destruct (IH [] Hdata') as (body & Hb & Hnz);
          [constructor|cbn; lia|].
        exists ((1 + Z.of_nat (length w)) :: w ++ 1 :: body). split.
        { rewrite Hb. cbn. rewrite <- !app_assoc. reflexivity. }
        constructor; [exact Hcode|]. apply Forall_app. split; [exact Hw|].
        constructor; [unfold nonzero_byte; lia|exact Hnz].
      * apply Z.eqb_neq in Hz.
        destruct (IH [d] Hdata') as (body & Hb & Hnz).
        { constructor; [unfold nonzero_byte, is_byte in *; lia|constructor]. }
        { cbn; lia. }
        exists ((1 + Z.of_nat (length w)) :: w ++ body). split.
        { rewrite Hb. cbn. rewrite <- !app_assoc. reflexivity. }
        constructor; [exact Hcode|]. apply Forall_app. split; assumption.
    + apply Z.leb_gt in Hfull. destruct (d =? 0) eqn:Hz.
      * destruct (IH [] Hdata') as (body & Hb & Hnz);
          [constructor|cbn; lia|].
        exists ((1 + Z.of_nat (length w)) :: w ++ body). split.
        { rewrite Hb. cbn. rewrite <- !app_assoc. reflexivity. }
        constructor; [exact Hcode|]. apply Forall_app. split; assumption.
      * apply Z.eqb_neq in Hz. apply IH; [exact Hdata'| |].
        { apply Forall_app. split; [exact Hw|].
          constructor; [unfold nonzero_byte, is_byte in *; lia|constructor]. }
        { rewrite length_app. cbn. lia. }
Qed.

(** A frame has at least two bytes more than its payload. *)
Lemma cobs_tail_length_min (data : list Z) :
  forall w : list Z,
    (length w + length data + 2 <= length (cobs_tail w data))%nat.
Proof.
  induction data as [|d data IH]; intros w; cbn [cobs_tail].
  - cbn [length]. rewrite length_app. cbn. lia.
  - destruct (255 <=? 1 + Z.of_nat (length w)).
    + destruct (d =? 0); cbn [length]; rewrite length_app; cbn [length].
      * pose proof (IH []) as Hl. cbn [length] in Hl. lia.
      * pose proof (IH [d]) as Hl. cbn [length] in Hl. lia.
    + destruct (d =? 0).
      * cbn [length]; rewrite length_app.
        pose proof (IH []) as Hl. cbn [length] in Hl. lia.
      * pose proof (IH (w ++ [d])) as Hl. rewrite length_app in Hl.
        cbn [length] in *. lia.
Qed.

(** X1 (shape of a frame).  On a stream whose encoder is between
    packets, over a handle that keeps bytes in order and has room,
    [write] of a payload [P] of bytes succeeds and queues, behind what
    the handle holds, a frame [body ++ [0]] in which the zero delimiter
    is the only zero byte.  The frame has at least two bytes more than
    [P] and at most one more byte for every 254 bytes of [P] on top of
    that. *)
Theorem write_frame_shape (ps : PacketStream S) (P q : list Z) :
  tx_ready ps ->
  queued (_io ps) q ->
  accepts (_io ps) (length P + length P / 254 + 2) ->
  Forall is_byte P ->
  (write ps P).2 = true /\
  exists body,
    queued (_io (write ps P).1) (q ++ body ++ [0]) /\
    Forall nonzero_byte body /\
    (length P + 1 <= length body <= length P + length P / 254 + 1)%nat.
Proof.
  intros Hready Hq Hacc HP.
  pose proof (cobs_frame_length P) as Hmax.
  pose proof (cobs_tail_length_min P []) as Hmin.
  destruct (write_queue queued accepts Hwrites ps P q 0 Hready Hq)
    as (Hok & Hq' & _).
  { eapply (proj1 Hwrites); [exact Hacc|lia]. }
  split; [exact Hok|].
  destruct (cobs_tail_nonzero P [] HP) as (body & Hbody & Hnz);
    [constructor|cbn; lia|].
  exists body. unfold cobs_frame in *. rewrite Hbody in *.
  split; [exact Hq'|]. split; [exact Hnz|].
  rewrite length_app in Hmax, Hmin. cbn [length] in Hmax, Hmin. lia.
Qed.

(** X28 (no two payloads share a frame).  Through a stream over a
    pipe, two payloads of bytes that leave the same bytes in the pipe
    are the same payload: the length of a payload and every one of its
    bytes, zero bytes included, can be read off the frame. *)
Theorem write_injective (ps : PacketStream Pipe) (P1 P2 : list Z) :
  tx_ready ps ->
  Forall is_byte P1 ->
  Forall is_byte P2 ->
  pipe_bytes (_io (write ps P1).1) = pipe_bytes (_io (write ps P2).1) ->
  P1 = P2.
Proof.
  intros Hready H1 H2 Heq.
  destruct (write_queue pipe_queued pipe_accepts pipe_writes_in_order
              ps P1 (pipe_bytes (_io ps)) 0%nat Hready eq_refl I)
    as (_ & Hq1 & _).
  destruct (write_queue pipe_queued pipe_accepts pipe_writes_in_order
              ps P2 (pipe_bytes (_io ps)) 0%nat Hready eq_refl I)
    as (_ & Hq2 & _).
  unfold pipe_queued in Hq1, Hq2. rewrite Hq1, Hq2 in Heq.
  apply app_inv_head in Heq.
  pose proof (cobs_scan_frame P1 [] H1) as Hs1.
  pose proof (cobs_scan_frame P2 [] H2) as Hs2.
  rewrite Heq, Hs2 in Hs1. inversion Hs1. reflexivity.
Qed.

End Frames.

(** ** The encoder on any handle *)

Section Encoder.

Context {S : Type} `{FileHandle S}.

Lemma tx_write_flag (ps : PacketStream S) (success : bool) :
  tx_write ps success =
  ((tx_write ps true).1, success && (tx_write ps true).2).
Proof.
  unfold tx_write. destruct (fh_write _ _) as [n io]. cbn [fst snd].
  destruct (negb (n =? _tx_pos ps)), success; reflexivity.
Qed.

(** The flag of the loop is the flag it was started with and what the
    writes of the loop add; the object does not depend on the flag. *)
Lemma _cobs_write_loop_flag (data : list Z) :
  forall (ps : PacketStream S) (success : bool),
    _cobs_write_loop data ps success =
    ((_cobs_write_loop data ps true).1,
     success && (_cobs_write_loop data ps true).2).
Proof.
  induction data as [|d data IH]; intros ps success.
  - cbn. rewrite andb_true_r. reflexivity.
  - cbn [_cobs_write_loop].
    rewrite (tx_write_flag (set_tx_buf ps 0 (u8 (_tx_pos ps))) success).
    destruct (tx_write (set_tx_buf ps 0 (u8 (_tx_pos ps))) true) as [ps1 s1].
    cbn [fst snd].
    destruct (255 <=? _tx_pos ps).
    + ps_simpl.
      match goal with
      | |- context [tx_write ?p (success && s1)] =>
          rewrite (tx_write_flag p (success && s1)), (tx_write_flag p s1);
          destruct (tx_write p true) as [ps2 s2]
      end.
      cbn [fst snd]. destruct (d =? 0).
      * rewrite IH. symmetry. rewrite IH. cbn [fst snd].
        rewrite !andb_assoc. reflexivity.
      * rewrite IH. symmetry. rewrite IH. cbn [fst snd].
        rewrite !andb_assoc. reflexivity.
    + match goal with
      | |- context [tx_write ?p success] =>
          rewrite (tx_write_flag p success);
          destruct (tx_write p true) as [ps2 s2]
      end.
      cbn [fst snd]. destruct (d =? 0).
      * rewrite IH. symmetry. rewrite IH. cbn [fst snd].
        rewrite !andb_assoc, ?andb_true_r. reflexivity.
      * rewrite IH. reflexivity.
Qed.

Lemma _cobs_write_loop_app (a b : list Z) :
  forall (ps : PacketStream S) (success : bool),
    _cobs_write_loop (a ++ b) ps success =
    _cobs_write_loop b (_cobs_write_loop a ps success).1
                       (_cobs_write_loop a ps success).2.
Proof.
  induction a as [|d a IH]; intros ps success; [reflexivity|].
  cbn [app _cobs_write_loop].
  destruct (if 255 <=? _tx_pos ps then _ else _) as [ps1 s1].
  destruct (if d =? 0 then _ else _) as [ps2 s2].
  apply IH.
Qed.

(** X2 (a packet written in pieces).  [_cobs_write] with [last] false
    leaves the packet open: a payload handed over in two calls, the
    second with [last] true, leaves the stream and the handle as one
    [write] of the whole payload does, and the whole [write] succeeds
    exactly when both calls do.  This holds on any handle, whatever
    its writes return. *)
Theorem _cobs_write_in_pieces (ps : PacketStream S) (a b : list Z) :
  (write ps (a ++ b)).1 = (_cobs_write (_cobs_write ps a false).1 b true).1 /\
  (write ps (a ++ b)).2 =
    (_cobs_write ps a false).2 && (_cobs_write (_cobs_write ps a false).1 b true).2.
Proof.
  unfold write, _cobs_write. rewrite _cobs_write_loop_app.
  destruct (_cobs_write_loop a ps true) as [ps1 s1]. cbn [fst snd].
  rewrite (_cobs_write_loop_flag b ps1 s1).
  destruct (_cobs_write_loop b ps1 true) as [ps2 s2]. cbn [fst snd].
  match goal with
  | |- context [tx_write ?p (s1 && s2)] =>
      rewrite (tx_write_flag p (s1 && s2)), (tx_write_flag p s2);
      destruct (tx_write p true) as [ps3 s3]
  end.
  cbn [fst snd]. rewrite andb_assoc. split; reflexivity.
Qed.

End Encoder.

Section Blocks.

Context {S : Type} `{FileHandle S}.

Local Abbreviation lstream := (PacketStream (Logged S)).

Lemma tx_write_block (ps : lstream) (success : bool) :
  1 <= _tx_pos ps <= 256 ->
  Z.of_nat (length (_tx_buf ps)) = TX_BUF_SIZE ->
  exists e,
    lg_events (_io (tx_write ps success).1) = lg_events (_io ps) ++ [e] /\
    block_write e /\
    _tx_pos (tx_write ps success).1 = _tx_pos ps /\
    _tx_buf (tx_write ps success).1 = _tx_buf ps.
Proof.
  intros Hpos Hlen. destruct (tx_write_logged ps success) as (n & io & ->).
  eexists. repeat split; cbn [block_write]; rewrite length_take;
    unfold TX_BUF_SIZE in *; lia.
Qed.

(** The loop of [_cobs_write] on the log: every event it adds is a
    write of 1 to 256 bytes. *)
Lemma _cobs_write_loop_blocks (data : list Z) :
  forall (ps : lstream) (success : bool),
    tx_inv ps ->
    exists evs,
      lg_events (_io (_cobs_write_loop data ps success).1) =
        lg_events (_io ps) ++ evs /\
      Forall block_write evs /\
      tx_inv (_cobs_write_loop data ps success).1.
Proof.
  induction data as [|d data IH]; intros ps success [Hpos Hlen].
  - exists []. cbn. rewrite app_nil_r. repeat split; auto; lia.
  - cbn [_cobs_write_loop].
    set (ps1 := set_tx_buf ps 0 (u8 (_tx_pos ps))).
    destruct (tx_write_block ps1 success) as (e1 & He1 & Hw1 & Hp1 & Hb1).
    { subst ps1. ps_simpl. lia. }
    { subst ps1. rewrite set_tx_buf_length. ps_simpl. exact Hlen. }
    destruct (tx_write ps1 success) as [ps1' s1] eqn:E1. cbn [fst snd] in *.
    set (A := if 255 <=? _tx_pos ps then _ else _).
    assert (HA : exists evsA,
      lg_events (_io A.1) = lg_events (_io ps) ++ evsA /\ Forall block_write evsA /\
      tx_inv A.1 /\ 1 <= _tx_pos A.1 <= 254).
    { subst A. destruct (255 <=? _tx_pos ps) eqn:E255.
      - exists [e1]. subst ps1. ps_simpl. unfold tx_inv. ps_simpl.
        rewrite length_insert, Hb1, length_insert.
        change (u16 (0 + 1)) with 1.
        repeat split; auto; lia.
      - exists []. ps_simpl. rewrite app_nil_r.
        apply Z.leb_gt in E255. repeat split; auto; lia. }
    destruct A as [psA sA]. cbn [fst snd] in HA.
    destruct HA as (evsA & HAe & HAw & [HApos HAlen] & HA254).
    set (ps2 := set_tx_buf psA 0 (u8 (_tx_pos psA))).
    destruct (tx_write_block ps2 sA) as (e2 & He2 & Hw2 & Hp2 & Hb2).
    { subst ps2. ps_simpl. lia. }
    { subst ps2. rewrite set_tx_buf_length. exact HAlen. }
    destruct (tx_write ps2 sA) as [ps2' s2] eqn:E2. cbn [fst snd] in *.
    set (B := if d =? 0 then _ else _).
    assert (HB : exists evsB,
      lg_events (_io B.1) = lg_events (_io ps) ++ evsB /\ Forall block_write evsB /\
      Z.of_nat (length (_tx_buf B.1)) = TX_BUF_SIZE /\
      0 <= _tx_pos B.1 <= 254).
    { subst B. destruct (d =? 0).
      - exists (evsA ++ [e2]). subst ps2. ps_simpl.
        rewrite He2, HAe, Hb2, length_insert, app_assoc.
        repeat split; auto; try lia.
        apply Forall_app; auto.
      - exists evsA. ps_simpl. repeat split; auto; lia. }
    destruct B as [psB sB]. cbn [fst snd] in HB.
    destruct HB as (evsB & HBe & HBw & HBlen & HBpos).
    set (ps3 := set_tx_pos _ _).
    destruct (IH ps3 sB) as (evs & Hevs & Hw & Hinv).
    { subst ps3. unfold tx_inv. ps_simpl. rewrite length_insert.
      unfold u16. rewrite Z.mod_small; lia. }
    exists (evsB ++ evs). rewrite Hevs. subst ps3. ps_simpl.
    rewrite HBe, app_assoc.
    split; [reflexivity|]. split; [apply Forall_app; auto|exact Hinv].
Qed.

(** X3 (what the encoder asks of the handle).  On any handle, all that
    [write] does with it is to call its [write], at least once, and
    every call passes between 1 and 256 bytes from the start of
    [_tx_buf], an array of 257 bytes: the encoder never reads past its
    buffer and never issues an empty write. *)
Theorem write_passes_blocks (ps : lstream) (data : list Z) :
  tx_ready ps ->
  exists evs e,
    lg_events (_io (write ps data).1) = lg_events (_io ps) ++ evs ++ [e] /\
    Forall block_write (evs ++ [e]).
Proof.
  intros [Hpos Hlen]. unfold write, _cobs_write.
  destruct (_cobs_write_loop_blocks data ps true) as (evs & He & Hw & Hi).
  { split; [lia|exact Hlen]. }
  destruct (_cobs_write_loop data ps true) as [ps1 s1]. ps_simpl.
  destruct Hi as [Hpos1 Hlen1].
  set (ps2 := set_tx_pos _ _).
  assert (Hlen2 : Z.of_nat (length (_tx_buf ps2)) = TX_BUF_SIZE).
  { subst ps2. ps_simpl. rewrite !length_insert. exact Hlen1. }
  assert (Hpos2 : _tx_pos ps2 = _tx_pos ps1 + 1).
  { subst ps2. ps_simpl. unfold u16. rewrite Z.mod_small; lia. }
  destruct (tx_write_block ps2 s1) as (e & Hev & Hwe & Hpe & Hbe);
    [lia|exact Hlen2|].
  destruct (tx_write ps2 s1) as [ps3 s3]. ps_simpl.
  exists evs, e. rewrite Hev. subst ps2. ps_simpl.
  rewrite He, app_assoc. split; [reflexivity|].
  apply Forall_app; auto.
Qed.

End Blocks.

(** ** The decoder on any handle *)

Section Receiver.

Context {S : Type} `{FileHandle S}.

Lemma _cobs_getc_keeps_tx (depth : nat) :
  forall (ps : PacketStream S) (val : Z) status v ps',
    _cobs_getc depth ps val = Some (status, v, ps') ->
    _tx_pos ps' = _tx_pos ps /\ _tx_buf ps' = _tx_buf ps.
Proof.
  induction depth as [|depth IH]; intros ps val status v ps' Hget;
    [discriminate|].
  rewrite _cobs_getc_unfold in Hget.
  destruct (fh_read (_io ps) 1) as [[n bytes] io]. cbv zeta in Hget.
  destruct (n =? 1); [|inversion Hget; subst; split; reflexivity].
  destruct (hd 0 bytes =? 0); [inversion Hget; subst; split; reflexivity|].
  destruct (u8 (_rx_next_zero ps - 1) =? 0);
    [|inversion Hget; subst; split; reflexivity].
  destruct (_rx_next_pad ps); [|inversion Hget; subst; split; reflexivity].
  apply IH in Hget. exact Hget.
Qed.

Lemma read_loop_keeps (fuel : nat) :
  forall (ps : PacketStream S) (data : list Z) (size val pos : Z)
         status data' pos' ps',
    read_loop fuel ps data size val pos = Some (status, data', pos', ps') ->
    0 <= pos ->
    (_tx_pos ps' = _tx_pos ps /\ _tx_buf ps' = _tx_buf ps) /\
    length data' = length data /\
    drop (Z.to_nat size) data' = drop (Z.to_nat size) data.
Proof.
  induction fuel as [|fuel IH];
    intros ps data size val pos status data' pos' ps' Hloop Hpos;
    [discriminate|].
  cbn [read_loop] in Hloop.
  destruct (_cobs_getc MAX_RECURSION ps val) as [[[st v] ps1]|] eqn:Hget;
    [|discriminate].
  apply _cobs_getc_keeps_tx in Hget. destruct Hget as [Hp Hb].
  destruct st; try (inversion Hloop; subst; auto).
  apply IH in Hloop; [|unfold usize; apply Z.mod_pos_bound; reflexivity].
  destruct Hloop as ([Hp' Hb'] & Hlen & Hdrop).
  split; [split; congruence|].
  destruct (pos <? size) eqn:Hlt; [|auto].
  apply Z.ltb_lt in Hlt. rewrite length_insert in Hlen.
  split; [exact Hlen|]. rewrite Hdrop. apply drop_insert_lt. lia.
Qed.

Lemma _cobs_write_loop_keeps_rx (data : list Z) :
  forall (ps : PacketStream S) (success : bool),
    rx_state (_cobs_write_loop data ps success).1 = rx_state ps.
Proof.
  induction data as [|d data IH]; intros ps success; [reflexivity|].
  cbn [_cobs_write_loop]. unfold tx_write.
  destruct (fh_write _ _) as [n1 io1].
  destruct (255 <=? _tx_pos ps).
  - ps_simpl. destruct (fh_write _ _) as [n2 io2].
    destruct (d =? 0); rewrite IH; reflexivity.
  - destruct (fh_write _ _) as [n2 io2].
    destruct (d =? 0); rewrite IH; reflexivity.
Qed.

(** X4 ([read] stays inside the caller's buffer).  On any handle and
    whatever status ends the packet, [read] leaves the buffer with the
    length it had and changes no byte at or behind index [size]; when
    it returns false it leaves [*actual] as it was. *)
Theorem read_stays_in_buffer (fuel : nat) (ps : PacketStream S)
        (data : list Z) (size actual : Z) flag data' actual' ps' :
  read fuel ps data size actual = Some (flag, data', actual', ps') ->
  length data' = length data /\
  drop (Z.to_nat size) data' = drop (Z.to_nat size) data /\
  (flag = false -> actual' = actual).
Proof.
  unfold read. intros Hread.
  destruct (read_loop fuel ps data size 0 0) as [[[[st d] p] ps1]|] eqn:Hloop;
    [|discriminate].
  apply read_loop_keeps in Hloop; [|lia].
  destruct Hloop as (_ & Hlen & Hdrop).
  destruct st; inversion Hread; subst; repeat split; auto; discriminate.
Qed.

(** X5 (the two directions do not touch each other).  On any handle,
    [write] leaves the members of the decoder as they are, and [read]
    leaves the members of the encoder as they are: a packet can be
    received while another is being answered. *)
Theorem read_write_independent (ps : PacketStream S) :
  (forall P, rx_state (write ps P).1 = rx_state ps) /\
  (forall fuel data size actual flag data' actual' ps',
     read fuel ps data size actual = Some (flag, data', actual', ps') ->
     _tx_pos ps' = _tx_pos ps /\ _tx_buf ps' = _tx_buf ps).
Proof.
  split.
  - intros P. unfold write, _cobs_write.
    pose proof (_cobs_write_loop_keeps_rx P ps true) as Hrx.
    destruct (_cobs_write_loop P ps true) as [ps1 s1]. cbn [fst] in Hrx.
    unfold tx_write. destruct (fh_write _ _) as [n io]. exact Hrx.
  - intros fuel data size actual flag data' actual' ps'. unfold read.
    intros Hread.
    destruct (read_loop fuel ps data size 0 0) as [[[[st d] p] ps1]|] eqn:Hloop;
      [|discriminate].
    apply read_loop_keeps in Hloop; [|lia].
    destruct Hloop as (Htx & _).
    destruct st; inversion Hread; subst; exact Htx.
Qed.

End Receiver.

(** ** The decoder on a handle that keeps bytes in order *)

Section Delimiters.

Context {S : Type} `{FileHandle S}.

Variable queued : S -> list Z -> Prop.
Hypothesis Hreads : reads_in_order queued.

(** The decoder runs to the first zero byte and not beyond. *)
Lemma cobs_scan_to_zero (a : list Z) :
  forall (z : Z) (pad : bool) (rest : list Z),
    Forall (fun b => b <> 0) a ->
    exists out status,
      cobs_scan z pad (a ++ 0 :: rest) = (out, status, RX_INITIAL, rest) /\
      ends_packet status /\ (length out <= length a)%nat.
Proof.
  induction a as [|b a IH]; intros z pad rest Ha; cbn [app cobs_scan].
  - change (0 =? 0) with true. cbv iota.
    exists [], (if u8 (z - 1) =? 0 then DecodingDone else DecodingCobsError).
    split; [reflexivity|]. split; [|cbn; lia].
    unfold ends_packet. destruct (u8 (z - 1) =? 0); auto.
  - inversion Ha as [|? ? Hb Ha']; subst.
    apply Z.eqb_neq in Hb. rewrite Hb.
    destruct (u8 (z - 1) =? 0).
    + destruct (IH b (b =? 255) rest Ha') as (out & st & -> & Hend & Hlen).
      exists (if pad then out else 0 :: out), st.
      split; [reflexivity|]. split; [exact Hend|].
      destruct pad; cbn [length]; lia.
    + destruct (IH (u8 (z - 1)) pad rest Ha') as (out & st & -> & Hend & Hlen).
      exists (b :: out), st.
      split; [reflexivity|]. split; [exact Hend|]. cbn [length]. lia.
Qed.

(** Without a zero byte the decoder runs out of bytes. *)
Lemma cobs_scan_no_zero (a : list Z) :
  forall (z : Z) (pad : bool),
    Forall (fun b => b <> 0) a ->
    exists out rx,
      cobs_scan z pad a = (out, DecodingFileError, rx, []) /\
      (length out <= length a)%nat.
Proof.
  induction a as [|b a IH]; intros z pad Ha; cbn [cobs_scan].
  - exists [], (z, pad). split; [reflexivity|cbn; lia].
  - inversion Ha as [|? ? Hb Ha']; subst.
    apply Z.eqb_neq in Hb. rewrite Hb.
    destruct (u8 (z - 1) =? 0).
    + destruct (IH b (b =? 255) Ha') as (out & rx & -> & Hlen).
      exists (if pad then out else 0 :: out), rx.
      split; [reflexivity|]. destruct pad; cbn [length]; lia.
    + destruct (IH (u8 (z - 1)) pad Ha') as (out & rx & -> & Hlen).
      exists (b :: out), rx. split; [reflexivity|]. cbn [length]. lia.
Qed.

(** X6 (a packet ends at the first zero byte).  Whatever state the
    decoder is in and whatever bytes [a] without a zero the handle
    holds in front of a zero byte, [read] returns after taking that
    zero byte: the bytes behind it stay in the handle, the decoder is
    in its initial state, and a true result reports at most as many
    payload bytes as [a] has.  So the byte after a zero always starts
    a frame for the decoder. *)
Theorem read_stops_at_delimiter (ps : PacketStream S) (a rest : list Z)
        (fuel : nat) (data : list Z) (size actual : Z) :
  queued (_io ps) (a ++ 0 :: rest) ->
  Forall (fun b => b <> 0) a ->
  Z.of_nat (length a) <= SIZE_MAX ->
  0 <= size <= Z.of_nat (length data) ->
  (length a + 1 + length rest < fuel)%nat ->
  exists flag data' actual' ps',
    read fuel ps data size actual = Some (flag, data', actual', ps') /\
    queued (_io ps') rest /\
    rx_state ps' = RX_INITIAL /\
    (flag = true -> 0 <= actual' <= Z.of_nat (length a)).
Proof.
  intros Hq Ha Hmax Hsize Hfuel.
  destruct ps as [pos buf z pad io]. ps_simpl.
  destruct (decode_loop_queue queued Hreads fuel pos buf z pad io 0 _ Hq)
    as (io' & Hq' & Hdec).
  { rewrite length_app. cbn [length]. lia. }
  destruct (cobs_scan_to_zero a z pad rest Ha) as (out & st & Hscan & Hend & Hlen).
  rewrite Hscan in Hq', Hdec. cbn [fst snd] in Hq', Hdec.
  rewrite (read_decode_loop fuel _ out st _ Hdec) by lia.
  do 4 eexists. split; [reflexivity|]. split; [exact Hq'|].
  split; [reflexivity|]. intros Hflag. rewrite Hflag. lia.
Qed.

(** X7 (no delimiter, no packet).  When the bytes the handle holds have
    no zero among them, [read] takes them all and returns false: the
    caller is never handed a packet that was not closed by a zero
    byte. *)
Theorem read_needs_delimiter (ps : PacketStream S) (a : list Z)
        (fuel : nat) (data : list Z) (size actual : Z) :
  queued (_io ps) a ->
  Forall (fun b => b <> 0) a ->
  Z.of_nat (length a) <= SIZE_MAX ->
  0 <= size <= Z.of_nat (length data) ->
  (length a < fuel)%nat ->
  exists data' ps',
    read fuel ps data size actual = Some (false, data', actual, ps') /\
    queued (_io ps') [].
Proof.
  intros Hq Ha Hmax Hsize Hfuel.
  destruct ps as [pos buf z pad io]. ps_simpl.
  destruct (decode_loop_queue queued Hreads fuel pos buf z pad io 0 _ Hq Hfuel)
    as (io' & Hq' & Hdec).
  destruct (cobs_scan_no_zero a z pad Ha) as (out & rx & Hscan & Hlen).
  rewrite Hscan in Hq', Hdec. cbn [fst snd] in Hq', Hdec.
  rewrite (read_decode_loop fuel _ out _ _ Hdec) by lia.
  do 2 eexists. split; [reflexivity|exact Hq'].
Qed.

Variable accepts : S -> nat -> Prop.
Hypothesis Hwrites : writes_in_order queued accepts.

(** X8 (packets keep their order).  Two payloads written one after the
    other through a stream over a handle that keeps bytes in order and
    has room for both frames are handed back by two calls of [read] in
    the order they were written, each whole, and nothing is left in
    the handle. *)
Theorem two_packets_in_order (ps : PacketStream S) (P1 P2 : list Z)
        (fuel : nat) (data1 data2 : list Z) (size1 size2 actual1 actual2 : Z) :
  tx_ready ps ->
  rx_state ps = RX_INITIAL ->
  queued (_io ps) [] ->
  accepts (_io ps) ((length P1 + length P1 / 254 + 2) +
                    (length P2 + length P2 / 254 + 2)) ->
  Forall is_byte P1 -> Forall is_byte P2 ->
  Z.of_nat (length P1) <= SIZE_MAX -> Z.of_nat (length P2) <= SIZE_MAX ->
  Z.of_nat (length P1) <= size1 <= Z.of_nat (length data1) ->
  Z.of_nat (length P2) <= size2 <= Z.of_nat (length data2) ->
  ((length P1 + length P1 / 254 + 2) +
   (length P2 + length P2 / 254 + 2) < fuel)%nat ->
  let ps1 := (write ps P1).1 in
  let ps2 := (write ps1 P2).1 in
  (write ps P1).2 = true /\ (write ps1 P2).2 = true /\
  exists ps3 ps4,
    read fuel ps2 data1 size1 actual1 =
      Some (true, P1 ++ drop (length P1) data1, Z.of_nat (length P1), ps3) /\
    read fuel ps3 data2 size2 actual2 =
      Some (true, P2 ++ drop (length P2) data2, Z.of_nat (length P2), ps4) /\
    queued (_io ps4) [] /\ rx_state ps4 = RX_INITIAL /\ tx_ready ps4.
Proof.
  intros Hready Hrx Hempty Hacc HP1 HP2 Hm1 Hm2 Hs1 Hs2 Hfuel ps1 ps2.
  pose proof (cobs_frame_length P1) as Hf1.
  pose proof (cobs_frame_length P2) as Hf2.
  destruct (write_queue queued accepts Hwrites ps P1 []
              (length (cobs_frame P2)) Hready Hempty)
    as (Hok1 & Hq1 & Hacc1 & Hrx1 & Hready1).
  { eapply (proj1 Hwrites); [exact Hacc|lia]. }
  fold ps1 in Hq1, Hacc1, Hrx1, Hready1. cbn [app] in Hq1.
  destruct (write_queue queued accepts Hwrites ps1 P2 (cobs_frame P1) 0
              Hready1 Hq1)
    as (Hok2 & Hq2 & _ & Hrx2 & Hready2).
  { eapply (proj1 Hwrites); [exact Hacc1|lia]. }
  fold ps2 in Hq2, Hrx2, Hready2.
  split; [exact Hok1|]. split; [exact Hok2|].
  destruct (read_frame_queue queued Hreads ps2 P1 (cobs_frame P2) fuel
              data1 size1 actual1) as (io3 & Hq3 & Hread3); auto.
  { rewrite Hrx2, Hrx1. exact Hrx. }
  { rewrite length_app. lia. }
  set (ps3 := mkPacketStream (_tx_pos ps2) (_tx_buf ps2) 1 true io3) in *.
  destruct (read_frame_queue queued Hreads ps3 P2 [] fuel
              data2 size2 actual2) as (io4 & Hq4 & Hread4); auto.
  { subst ps3. ps_simpl. rewrite app_nil_r. exact Hq3. }
  { rewrite app_nil_r. lia. }
  exists ps3, (mkPacketStream (_tx_pos ps3) (_tx_buf ps3) 1 true io4).
  split; [exact Hread3|]. split; [exact Hread4|]. split; [exact Hq4|].
  split; [reflexivity|]. destruct Hready2 as [Hp Hl]. split; assumption.
Qed.

End Delimiters.

(** ** Formatted packets: [printf] and [scanf] *)

Section Formatted.

Context {S : Type} `{FileHandle S}.

(** The bytes [write] is handed by [printf] when [vsnprintf] returned
    the number of characters that [vsprintf] stores. *)
Lemma printf_text (ps : PacketStream S) (text uninit : list Z) :
  Z.of_nat (length text) <= 2147483647 ->
  printf ps (Z.of_nat (length text)) text uninit =
  PrintfReturn (write ps text).2 (write ps text).1.
Proof.
  intros Hint. unfold printf.
  set (len := Z.of_nat (length text)) in *.
  set (capacity := if len <? STRING_STACK_LIMIT then _ else _).
  assert (Hcap : len + 1 <= capacity).
  { subst capacity. unfold STRING_STACK_LIMIT.
    destruct (len <? 120) eqn:Hlt; [apply Z.ltb_lt in Hlt|]; lia. }
  assert (Hsize : usize len = len).
  { apply usize_small. unfold SIZE_MAX. lia. }
  rewrite Hsize.
  replace (len + 1 <=? capacity) with true by (symmetry; apply Z.leb_le; lia).
  replace (len <=? capacity) with true by (symmetry; apply Z.leb_le; lia).
  cbn [andb].
  rewrite take_take, Nat.min_l by lia.
  rewrite <- !app_assoc, take_app_le by (subst len; lia).
  subst len. rewrite Nat2Z.id, take_ge by lia.
  destruct (write ps text) as [ps' ret]. reflexivity.
Qed.

(** X9 ([printf] sends the formatted text as one packet).  When
    [vsnprintf] reports the number of characters that [vsprintf] then
    stores, [printf] stays inside [temp], on the stack for fewer than
    120 characters and on the heap otherwise, and returns what [write]
    of exactly these characters returns: the terminating zero and what
    lies behind it in [temp] are not sent. *)
Theorem printf_sends_text (ps : PacketStream S) (len : Z)
        (text uninit : list Z) :
  len = Z.of_nat (length text) ->
  len <= 2147483647 ->
  printf ps len text uninit = PrintfReturn (write ps text).2 (write ps text).1.
Proof. intros -> Hint. apply printf_text. exact Hint. Qed.

(** X10 ([printf] after a failed [vsnprintf]).  [printf] does not check
    the [int] that [vsnprintf] returns.  When that is negative, the
    stack array of 120 bytes is chosen and the value, converted to
    [size_t], asks [write] for more than 2^31 bytes of it: the bytes
    read lie outside [temp], whatever [vsprintf] stored. *)
Theorem printf_negative_length (ps : PacketStream S) (len : Z)
        (text uninit : list Z) :
  -2147483648 <= len < 0 ->
  printf ps len text uninit = PrintfOutOfBounds /\
  STRING_STACK_LIMIT < 2147483648 <= usize len.
Proof.
  intros Hlen.
  assert (Hsize : usize len = len + 4294967296).
  { unfold usize, SIZE_MAX.
    replace len with (len + 4294967296 + (-1) * (4294967295 + 1)) at 1 by lia.
    rewrite Z.mod_add by lia. apply Z.mod_small. lia. }
  unfold printf, STRING_STACK_LIMIT. rewrite Hsize.
  replace (len <? 120) with true by (symmetry; apply Z.ltb_lt; lia).
  replace (len + 4294967296 <=? 120) with false
    by (symmetry; apply Z.leb_gt; lia).
  rewrite andb_false_r. split; [reflexivity|lia].
Qed.

(** The zero that [scanf] stores behind a payload that fits. *)
Lemma insert_terminator (out buf : list Z) :
  (length out < length buf)%nat ->
  <[length out := 0]> (out ++ drop (length out) buf) =
  out ++ 0 :: drop (Datatypes.S (length out)) buf.
Proof.
  intros Hlen.
  replace (length out) with (length out + 0)%nat at 1 by lia.
  rewrite insert_app_r.
  destruct (drop (length out) buf) as [|b tl] eqn:Hdrop.
  { apply (f_equal length) in Hdrop. rewrite length_drop in Hdrop.
    cbn in Hdrop. lia. }
  assert (Hb : buf !! length out = Some b).
  { rewrite <- (Nat.add_0_r (length out)), <- lookup_drop, Hdrop.
    reflexivity. }
  rewrite (drop_S buf b (length out) Hb) in Hdrop.
  inversion Hdrop; subst tl. reflexivity.
Qed.

Lemma scanf_buf_length (uninit : list Z) :
  length (take (Z.to_nat SCANF_BUF_SIZE)
               (uninit ++ replicate (Z.to_nat SCANF_BUF_SIZE) 0)) = 65%nat.
Proof.
  rewrite length_take, length_app, length_replicate.
  change (Z.to_nat SCANF_BUF_SIZE) with 65%nat. lia.
Qed.

(** [scanf_int] is [scanf] with the argument followed: the argument
    forgotten, the results are the same. *)
Lemma scanf_int_scanf (fuel : nat) (ps : PacketStream S) (uninit : list Z)
      (vsscanf : list Z -> Z -> Z * Z) (arg : Z) :
  option_map fst (scanf_int fuel ps uninit vsscanf arg) =
  scanf fuel ps uninit (fun buf => (vsscanf buf arg).1).
Proof.
  unfold scanf_int, scanf.
  destruct (read _ _ _ _ _) as [[[[flag buf] actual] ps']|]; [|reflexivity].
  destruct flag; [|reflexivity].
  destruct (actual <? SCANF_BUF_SIZE); [|reflexivity].
  destruct (vsscanf _ arg) as [n v]. reflexivity.
Qed.

(** X11 (what [scanf] returns).  For a packet whose payload [out] fits
    the array of [scanf], the result is 0 or 1 and nothing else: 0 when
    the packet did not decode, without [vsscanf] being consulted, and
    otherwise 1 exactly when [vsscanf] returned anything but 0 on the
    payload as a C string.  A negative result of [vsscanf] and a count
    above 1 both come back as 1. *)
Theorem scanf_returns_0_or_1 (fuel : nat) (ps : PacketStream S)
        out status ps' :
  decode_loop fuel ps 0 = Some (out, status, ps') ->
  Z.of_nat (length out) <= 64 ->
  forall (uninit : list Z) (vsscanf : list Z -> Z),
    let buf := take (Z.to_nat SCANF_BUF_SIZE)
                    (uninit ++ replicate (Z.to_nat SCANF_BUF_SIZE) 0) in
    exists ret,
      scanf fuel ps uninit vsscanf = Some (ScanfReturn ret ps') /\
      (ret = 0 \/ ret = 1) /\
      (status <> DecodingDone -> ret = 0) /\
      (status = DecodingDone ->
       (ret = 1 <->
        vsscanf (out ++ 0 :: drop (Datatypes.S (length out)) buf) <> 0)).
Proof.
  intros Hd Hlen uninit vsscanf buf.
  pose proof (scanf_buf_length uninit) as Hbuf. fold buf in Hbuf.
  unfold scanf. fold buf. change (SCANF_BUF_SIZE - 1) with 64.
  rewrite (read_decode_loop fuel ps out status ps')
    by (auto; rewrite ?Hbuf; unfold SIZE_MAX; lia).
  destruct (status_eqb status DecodingDone) eqn:Hst.
  - assert (status = DecodingDone) as -> by (destruct status; auto; discriminate).
    change SCANF_BUF_SIZE with 65.
    replace (Z.of_nat (length out) <? 65) with true
      by (symmetry; apply Z.ltb_lt; lia).
    rewrite Nat2Z.id, take_ge, Nat.min_r by lia.
    rewrite insert_terminator by lia.
    destruct (vsscanf _ =? 0) eqn:Hv; cbn [negb]; eexists;
      (split; [reflexivity|]).
    + apply Z.eqb_eq in Hv. split; [auto|]. split; [congruence|].
      intros _. split; [discriminate|congruence].
    + apply Z.eqb_neq in Hv. split; [auto|]. split; [congruence|].
      intros _. split; auto.
  - exists 0. split; [reflexivity|]. split; [auto|]. split; [auto|].
    intros ->. discriminate.
Qed.

Variable queued : S -> list Z -> Prop.
Hypothesis Hreads : reads_in_order queued.
Variable accepts : S -> nat -> Prop.
Hypothesis Hwrites : writes_in_order queued accepts.

(** X12 ([printf] then [scanf]).  On a stream over a handle that keeps
    bytes in order, a text of at most 64 characters sent with [printf]
    is what the next [scanf] parses: [vsscanf] is handed the array with
    the text, a zero behind it, and [scanf] returns 1 unless [vsscanf]
    returns 0.  Afterwards the handle is empty and the stream ready
    for the next packet. *)
Theorem printf_scanf_round_trip (ps : PacketStream S) (text : list Z)
        (fuel : nat) (uninit1 uninit2 : list Z) (vsscanf : list Z -> Z) :
  tx_ready ps ->
  rx_state ps = RX_INITIAL ->
  queued (_io ps) [] ->
  accepts (_io ps) (length text + length text / 254 + 2) ->
  Forall is_byte text ->
  Z.of_nat (length text) <= 64 ->
  (length text + length text / 254 + 2 < fuel)%nat ->
  let buf := take (Z.to_nat SCANF_BUF_SIZE)
                  (uninit2 ++ replicate (Z.to_nat SCANF_BUF_SIZE) 0) in
  exists ps1 ps2,
    printf ps (Z.of_nat (length text)) text uninit1 = PrintfReturn true ps1 /\
    scanf fuel ps1 uninit2 vsscanf =
      Some (ScanfReturn
              (if vsscanf (text ++ 0 :: drop (Datatypes.S (length text)) buf) =? 0
               then 0 else 1) ps2) /\
    queued (_io ps2) [] /\ rx_state ps2 = RX_INITIAL /\ tx_ready ps2.
Proof.
  intros Hready Hrx Hempty Hacc Htext Hlen Hfuel buf.
  pose proof (scanf_buf_length uninit2) as Hbuf. fold buf in Hbuf.
  destruct (round_trip_queue queued Hreads accepts Hwrites ps text fuel
              buf 64 0 Hready Hrx Hempty Hacc Htext)
    as (Hok & ps2 & Hread & Hq & Hrx2 & Hready2);
    [unfold SIZE_MAX; lia|rewrite Hbuf; lia|exact Hfuel|].
  exists (write ps text).1, ps2.
  split; [rewrite printf_text by lia; rewrite Hok; reflexivity|].
  split; [|auto].
  unfold scanf. fold buf. change (SCANF_BUF_SIZE - 1) with 64.
  rewrite Hread. change SCANF_BUF_SIZE with 65.
  replace (Z.of_nat (length text) <? 65) with true
    by (symmetry; apply Z.ltb_lt; lia).
  rewrite Nat2Z.id, insert_terminator by lia.
  destruct (vsscanf _ =? 0); reflexivity.
Qed.

End Formatted.

(** ** The test doubles of the self test *)

Section Doubles.

Lemma ring_bytes_length (n : nat) :
  forall (buf : list Z) (head : Z), length (ring_bytes n buf head) = n.
Proof.
  induction n as [|n IH]; intros buf head; [reflexivity|].
  cbn [ring_bytes length]. rewrite IH. reflexivity.
Qed.

Lemma ring_queued_length (l : PacketStreamLoopFileHandle) (q : list Z) :
  ring_queued l q -> Z.of_nat (length q) = _used l.
Proof.
  intros [Hok ->]. pose proof (used_spec l Hok) as (Hused & _).
  rewrite ring_bytes_length. lia.
Qed.

(** The copying loop of [read] takes the oldest bytes. *)
Lemma loop_read_spec (n : nat) :
  forall l : PacketStreamLoopFileHandle,
    ring_ok l ->
    Z.of_nat n <= _used l ->
    exists l',
      loop_read n l = (ring_bytes n (_buf l) (_head l), l') /\
      ring_ok l' /\
      _used l' = _used l - Z.of_nat n /\
      _buf l' = _buf l /\
      forall m : nat,
        ring_bytes (n + m) (_buf l) (_head l) =
        ring_bytes n (_buf l) (_head l) ++ ring_bytes m (_buf l') (_head l').
Proof.
  induction n as [|n IH]; intros l Hok Hused.
  - exists l. cbn [loop_read ring_bytes]. rewrite Z.sub_0_r. auto.
  - destruct (used_next_head l Hok ltac:(lia)) as (Hok1 & Hused1).
    pose proof Hok as (Hsize & Hlen & Hhead & Htail).
    destruct l as [buf head tail size]. cbn [_buf _head _tail _size] in *.
    subst size. cbn [loop_read _buf _head _tail _size].
    rewrite (usize_small (head + 1))
      by (unfold LOOP_BUF_SIZE, SIZE_MAX in *; lia).
    destruct (IH _ Hok1 ltac:(lia)) as (l' & Hread & Hok' & Hused' & Hbuf' & Happ).
    cbn [_buf _head] in Hread, Hbuf', Happ. rewrite Hread.
    exists l'. split; [reflexivity|]. split; [exact Hok'|].
    split; [lia|]. split; [exact Hbuf'|].
    intros m. cbn [Nat.add ring_bytes app]. rewrite Happ. reflexivity.
Qed.

(** X13 (the ring buffer hands out bytes first in, first out).  A
    [read] of [size] bytes on the loop-back handle returns the oldest
    [size] bytes it holds, or all of them when it holds fewer, in the
    order they were written, and keeps the others. *)
Theorem loop_read_fifo (l : PacketStreamLoopFileHandle) (q : list Z) (size : Z) :
  ring_queued l q ->
  0 <= size ->
  exists l',
    fh_read l size =
      (Z.of_nat (length (take (Z.to_nat size) q)), take (Z.to_nat size) q, l') /\
    ring_queued l' (drop (Z.to_nat size) q).
Proof.
  intros Hq Hsize. pose proof (ring_queued_length l q Hq) as Hlen.
  destruct Hq as [Hok Hq].
  pose proof (used_spec l Hok) as (Hused & _).
  cbn [fh_read LoopFileHandle_FileHandle].
  set (read_size := if size <? _used l then size else _used l).
  assert (Hrs : 0 <= read_size <= _used l /\
                Z.to_nat read_size = Nat.min (Z.to_nat size) (length q)).
  { subst read_size. destruct (size <? _used l) eqn:Hlt;
      [apply Z.ltb_lt in Hlt|apply Z.ltb_ge in Hlt]; lia. }
  destruct Hrs as [Hrs Hmin].
  destruct (loop_read_spec (Z.to_nat read_size) l Hok ltac:(lia))
    as (l' & Hread & Hok' & Hused' & Hbuf' & Happ).
  rewrite Hread. exists l'.
  specialize (Happ (Z.to_nat (_used l') )).
  replace (Z.to_nat read_size + Z.to_nat (_used l'))%nat
    with (Z.to_nat (_used l)) in Happ by lia.
  rewrite <- Hq in Happ.
  set (A := ring_bytes (Z.to_nat read_size) (_buf l) (_head l)) in *.
  assert (HA : length A = Z.to_nat read_size) by apply ring_bytes_length.
  destruct (Z.to_nat size <? length q)%nat eqn:Hlt.
  - apply Nat.ltb_lt in Hlt.
    replace (Z.to_nat size) with (Z.to_nat read_size) by lia.
    rewrite Happ, take_app_length', drop_app_length' by (symmetry; exact HA).
    rewrite HA. split; [f_equal; f_equal; lia|]. split; [exact Hok'|reflexivity].
  - apply Nat.ltb_ge in Hlt. rewrite take_ge, drop_ge by lia.
    assert (Hnone : Z.to_nat (_used l') = 0%nat) by lia.
    rewrite Hnone in Happ.
    cbn [ring_bytes] in Happ. rewrite app_nil_r in Happ. rewrite <- Happ.
    split; [f_equal; f_equal; lia|]. split; [exact Hok'|].
    rewrite Hnone. reflexivity.
Qed.

(** X14 (the ring buffer takes a write whole or not at all).  The
    loop-back handle holds at most 2047 bytes.  A [write] that fits
    returns its size and queues its bytes behind those held; a [write]
    that does not fit returns -1 and leaves the handle as it was, no
    byte of it queued. *)
Theorem loop_write_whole_or_nothing (l : PacketStreamLoopFileHandle)
        (q bytes : list Z) :
  ring_queued l q ->
  (length q <= 2047)%nat /\
  ((length q + length bytes <= 2047)%nat ->
   exists l',
     fh_write l bytes = (Z.of_nat (length bytes), l') /\
     ring_queued l' (q ++ bytes)) /\
  ((2047 < length q + length bytes)%nat -> fh_write l bytes = (-1, l)).
Proof.
  intros Hq. pose proof (ring_queued_length l q Hq) as Hlen.
  pose proof Hq as [Hok _].
  pose proof (used_spec l Hok) as (Hused & _). unfold LOOP_BUF_SIZE in *.
  split; [lia|]. split; intros Hroom.
  - destruct (proj2 ring_writes_in_order l q bytes 0%nat Hq)
      as (l' & Hw & Hq' & _).
    { unfold ring_accepts, LOOP_BUF_SIZE. lia. }
    exists l'. split; assumption.
  - cbn [fh_write LoopFileHandle_FileHandle]. rewrite (free_spec l Hok).
    unfold LOOP_BUF_SIZE.
    replace (2048 - 1 - _used l <? Z.of_nat (length bytes)) with true
      by (symmetry; apply Z.ltb_lt; lia).
    reflexivity.
Qed.

Lemma bytes_eqb_eq (a : list Z) : forall b, bytes_eqb a b = true <-> a = b.
Proof.
  unfold bytes_eqb.
  induction a as [|x a IH]; intros [|y b]; cbn; try (split; [discriminate|discriminate]).
  - split; reflexivity.
  - specialize (IH b). rewrite andb_true_iff in *.
    split.
    + intros [Hl Hz]. apply andb_true_iff in Hz. destruct Hz as [Hxy Hz].
      apply Z.eqb_eq in Hxy. subst y. f_equal. apply IH. split; assumption.
    + intros Heq. inversion Heq; subst.
      destruct (proj2 IH eq_refl) as [Hl Hz].
      split; [exact Hl|]. rewrite Z.eqb_refl. exact Hz.
Qed.

(** The mock once a write did not match: it stays invalid. *)
Lemma mock_writes_invalid (chunks : list (list Z)) :
  forall m : PacketStreamTestFileHandle,
    _write_valid m = false ->
    write_valid (fh_writes m chunks) = false.
Proof.
  induction chunks as [|c chunks IH]; intros m Hm.
  - unfold write_valid. cbn [fh_writes]. rewrite Hm. reflexivity.
  - cbn [fh_writes]. apply IH.
    cbn [fh_write TestFileHandle_FileHandle].
    destruct (_ >? _); [reflexivity|].
    destruct (negb _); [reflexivity|exact Hm].
Qed.

Lemma mock_writes_valid (chunks : list (list Z)) :
  forall m : PacketStreamTestFileHandle,
    _write_valid m = true ->
    _write_size m = Z.of_nat (length (_write_buf m)) ->
    0 <= _write_pos m <= _write_size m ->
    _write_size m <= SIZE_MAX ->
    Z.of_nat (length (concat chunks)) <= SIZE_MAX ->
    write_valid (fh_writes m chunks) = true <->
    concat chunks = drop (Z.to_nat (_write_pos m)) (_write_buf m).
Proof.
  induction chunks as [|c chunks IH]; intros m Hv Hsize Hpos Hmax Hlen.
  - unfold write_valid. cbn [fh_writes concat]. rewrite Hv. cbn [andb].
    rewrite Z.eqb_eq. split.
    + intros Heq. rewrite drop_ge by lia. reflexivity.
    + intros Hnil. apply (f_equal length) in Hnil.
      rewrite length_drop in Hnil. cbn [length] in Hnil. lia.
  - destruct m as [rb rs rp wb ws wp wv].
    cbn [_write_valid _write_size _write_buf _write_pos] in *. subst wv ws.
    cbn [concat] in *. rewrite length_app in Hlen.
    cbn [fh_writes fh_write TestFileHandle_FileHandle
         _write_valid _write_size _write_buf _write_pos
         _read_buf _read_size _read_pos].
    set (size := Z.of_nat (length c)) in *.
    destruct (Z.le_gt_cases (wp + size) SIZE_MAX) as [Hfit|Hwrap].
    + rewrite (usize_small (wp + size)) by lia.
      destruct (wp + size >? Z.of_nat (length wb)) eqn:Hmuch.
      * (* too much data written *)
        apply Z.gtb_lt in Hmuch. cbn [snd].
        rewrite mock_writes_invalid by reflexivity.
        split; [discriminate|]. intros Heq.
        apply (f_equal length) in Heq.
        rewrite length_app, length_drop in Heq. lia.
      * rewrite Z.gtb_ltb in Hmuch. apply Z.ltb_ge in Hmuch.
        destruct (bytes_eqb c _) eqn:Hcmp; cbn [negb snd].
        -- apply bytes_eqb_eq in Hcmp.
           rewrite IH; cbn [_write_valid _write_size _write_buf _write_pos];
             auto; try lia.
           replace (Z.to_nat (wp + size))
             with (Z.to_nat wp + length c)%nat by lia.
           subst size. rewrite Nat2Z.id in Hcmp.
           assert (Hsplit : drop (Z.to_nat wp) wb =
                            c ++ drop (Z.to_nat wp + length c) wb).
           { rewrite <- drop_drop, Hcmp at 1. symmetry. apply take_drop. }
           rewrite Hsplit.
           split; [intros ->; reflexivity|apply app_inv_head].
        -- (* wrong data written *)
           rewrite mock_writes_invalid by reflexivity.
           split; [discriminate|]. intros Heq.
           assert (Hc : bytes_eqb c (take (Z.to_nat size) (drop (Z.to_nat wp) wb)) = true).
           { apply bytes_eqb_eq. rewrite <- Heq. subst size.
             rewrite Nat2Z.id, take_app_length. reflexivity. }
           congruence.
    + (* the position would wrap: more bytes than expected in any case *)
      assert (Hlong : c ++ concat chunks <> drop (Z.to_nat wp) wb).
      { intros Heq. apply (f_equal length) in Heq.
        rewrite length_app, length_drop in Heq. lia. }
      destruct (usize (wp + size) >? Z.of_nat (length wb)); cbn [snd].
      * rewrite mock_writes_invalid by reflexivity.
        split; [discriminate|contradiction].
      * destruct (bytes_eqb c _) eqn:Hcmp; cbn [negb snd].
        -- apply bytes_eqb_eq, (f_equal length) in Hcmp.
           rewrite length_take, length_drop in Hcmp. lia.
        -- rewrite mock_writes_invalid by reflexivity.
           split; [discriminate|contradiction].
Qed.

(** X15 (the verdict of the mock).  After [write_set_expected], and
    whatever way a writer cuts its output into [write] calls,
    [write_valid] is true exactly when the bytes written, taken
    together, are the expected bytes: none missing, none wrong, none
    too many. *)
Theorem mock_write_valid_iff (m : PacketStreamTestFileHandle)
        (expected : list Z) (chunks : list (list Z)) :
  Z.of_nat (length expected) <= SIZE_MAX ->
  Z.of_nat (length (concat chunks)) <= SIZE_MAX ->
  write_valid (fh_writes (write_set_expected m expected) chunks) = true <->
  concat chunks = expected.
Proof.
  intros He Hc.
  rewrite (mock_writes_valid chunks (write_set_expected m expected));
    cbn [write_set_expected _write_valid _write_size _write_buf _write_pos];
    auto; lia.
Qed.

(** X16 (the mock hands out what it was given).  A [read] of [size]
    bytes on the mock returns the next [size] bytes of the buffer set
    with [read_set_next], or those that are left when there are fewer,
    and moves on by that many. *)
Theorem mock_read_fifo (m : PacketStreamTestFileHandle) (q : list Z) (size : Z) :
  mock_queued m q ->
  0 <= size ->
  exists m',
    fh_read m size =
      (Z.of_nat (length (take (Z.to_nat size) q)), take (Z.to_nat size) q, m') /\
    mock_queued m' (drop (Z.to_nat size) q).
Proof.
  intros (Hsize & Hpos & Hmax & Hq) Hs.
  assert (Hlen : Z.of_nat (length q) = _read_size m - _read_pos m).
  { rewrite Hq, length_drop. lia. }
  cbn [fh_read TestFileHandle_FileHandle].
  rewrite (usize_small (_read_size m - _read_pos m)) by lia.
  set (read_size := if size >? _ then _ else _).
  assert (Hrs : read_size = Z.of_nat (length (take (Z.to_nat size) q))).
  { subst read_size. rewrite length_take.
    destruct (size >? _read_size m - _read_pos m) eqn:Hgt.
    - apply Z.gtb_lt in Hgt. lia.
    - rewrite Z.gtb_ltb in Hgt. apply Z.ltb_ge in Hgt. lia. }
  assert (Htake : take (Z.to_nat read_size) q = take (Z.to_nat size) q).
  { rewrite Hrs, Nat2Z.id, length_take.
    destruct (Nat.le_gt_cases (Z.to_nat size) (length q));
      [rewrite Nat.min_l by lia; reflexivity
      |rewrite Nat.min_r, !take_ge by lia; reflexivity]. }
  rewrite <- Hq, Htake, <- Hrs.
  eexists. split; [reflexivity|].
  unfold mock_queued. cbn [_read_size _read_buf _read_pos].
  rewrite length_take in Hrs.
  rewrite usize_small by lia.
  split; [exact Hsize|]. split; [lia|]. split; [exact Hmax|].
  destruct (Z.to_nat size <? length q)%nat eqn:Hlt.
  - apply Nat.ltb_lt in Hlt.
    replace (Z.to_nat (_read_pos m + read_size))
      with (Z.to_nat (_read_pos m) + Z.to_nat size)%nat by lia.
    rewrite Hq, drop_drop. reflexivity.
  - apply Nat.ltb_ge in Hlt. rewrite !drop_ge by lia. reflexivity.
Qed.

End Doubles.

Section WriteTest.

Lemma usize_le (x : Z) : 0 <= x -> 0 <= usize x <= x.
Proof.
  intros Hx. unfold usize, SIZE_MAX. split.
  - apply Z.mod_pos_bound. lia.
  - apply Z.mod_le; lia.
Qed.

(** Every write is taken; the mock keeps track of whether what was
    written so far is what it expects. *)
Lemma mock_writes_in_order (e : list Z) :
  writes_in_order (mock_written e) mock_accepts.
Proof.
  split; [intros; exact I|].
  intros m q bytes n (Hbuf & Hsize & Hmax & Hpos & Hq) _.
  destruct m as [rb rs rp wb ws wp wv].
  cbn [_write_valid _write_size _write_buf _write_pos] in *. subst wb.
  cbn [fh_write TestFileHandle_FileHandle
       _write_valid _write_size _write_buf _write_pos
       _read_buf _read_size _read_pos].
  set (size := Z.of_nat (length bytes)).
  pose proof (usize_le (wp + size) ltac:(lia)) as Hwrap.
  assert (Hext : forall r, e = (q ++ bytes) ++ r -> exists r', e = q ++ r').
  { intros r ->. exists (bytes ++ r). rewrite app_assoc. reflexivity. }
  destruct (usize (wp + size) >? ws) eqn:Hmuch.
  - (* too much data written *)
    apply Z.gtb_lt in Hmuch. eexists. split; [reflexivity|].
    split; [|exact I]. unfold mock_written.
    cbn [_write_valid _write_size _write_buf _write_pos].
    split; [reflexivity|]. split; [assumption|]. split; [assumption|].
    split; [assumption|].
    destruct wv.
    + intros [r Hr]. apply (f_equal length) in Hr. subst q.
      rewrite !length_app, length_take in Hr. lia.
    + intros [r Hr]. apply Hq. eauto.
  - rewrite Z.gtb_ltb in Hmuch. apply Z.ltb_ge in Hmuch.
    destruct (bytes_eqb bytes _) eqn:Hcmp; cbn [negb].
    + (* the expected bytes *)
      apply bytes_eqb_eq in Hcmp.
      assert (Hfit : wp + size <= ws).
      { apply (f_equal length) in Hcmp.
        rewrite length_take, length_drop in Hcmp. lia. }
      rewrite (usize_small (wp + size)) by lia.
      eexists. split; [reflexivity|]. split; [|exact I].
      unfold mock_written. cbn [_write_valid _write_size _write_buf _write_pos].
      split; [reflexivity|]. split; [assumption|]. split; [assumption|].
      split; [lia|]. destruct wv.
      * subst q. rewrite Hcmp at 1. rewrite take_take_drop. f_equal. lia.
      * intros [r Hr]. apply Hq. eauto.
    + (* wrong data written *)
      eexists. split; [reflexivity|]. split; [|exact I].
      unfold mock_written. cbn [_write_valid _write_size _write_buf _write_pos].
      split; [reflexivity|]. split; [assumption|]. split; [assumption|].
    split; [assumption|].
      destruct wv.
      * intros [r Hr]. subst q.
        assert (Hb : bytes_eqb bytes (take (Z.to_nat size) (drop (Z.to_nat wp) e)) = true).
        { apply bytes_eqb_eq.
          rewrite Hr at 1. rewrite <- app_assoc.
          rewrite drop_app_length' by (rewrite length_take; lia).
          subst size. rewrite Nat2Z.id, take_app_length. reflexivity. }
        congruence.
      * intros [r Hr]. apply Hq. eauto.
Qed.

(** X19 (the write test of the self test is exact).  For a stream over
    the mock whose encoder is between packets, an expected encoding [e]
    and a payload [P]: after [write_set_expected(e)] and [write(P)],
    [write_valid] is true exactly when [e] is [cobs_frame P], the COBS
    frame of [P] as the reference function on byte lists gives it,
    which is defined without [write] and which the reference decoder
    takes back to [P] ([cobs_scan_frame]).  The test accepts the right
    encoding and no other. *)
Theorem self_test_write_check (ps : PacketStream PacketStreamTestFileHandle)
        (P e : list Z) :
  tx_ready ps ->
  Z.of_nat (length e) <= SIZE_MAX ->
  write_valid
    (_io (write (set_io ps (write_set_expected (_io ps) e)) P).1) = true <->
  cobs_frame P = e.
Proof.
  intros Hready He.
  destruct (write_queue (mock_written e) mock_accepts (mock_writes_in_order e)
              (set_io ps (write_set_expected (_io ps) e)) P [] 0%nat)
    as (_ & Hq & _).
  { destruct Hready as [Hp Hl]. split; assumption. }
  { unfold mock_written. cbn. repeat split; auto; lia. }
  { exact I. }
  cbn [app] in Hq.
  destruct Hq as (Hbuf & Hsize & Hmax & Hpos & Hq).
  unfold write_valid.
  destruct (_write_valid _).
  - cbn [andb]. rewrite Z.eqb_eq, Hq. split.
    + intros Hend. apply take_ge. lia.
    + intros Htake. apply (f_equal length) in Htake.
      rewrite length_take in Htake. lia.
  - cbn [andb]. split; [discriminate|]. intros Heq. exfalso. apply Hq.
    exists []. rewrite app_nil_r. congruence.
Qed.

End WriteTest.

(** ** The command loop of [main.cpp] *)

Section Commands.

Context {S : Type} `{FileHandle S}.

Variable queued : S -> list Z -> Prop.
Hypothesis Hreads : reads_in_order queued.

Lemma commands_NoDup : NoDup commands.
Proof. apply (bool_decide_unpack _). vm_compute. exact I. Qed.

Lemma commands_short : Forall (fun name => (length name <= 8)%nat) commands.
Proof. repeat constructor. Qed.

(** An entry is chosen when its name is what [buf] starts with and
    [actual] is its length. *)
Lemma find_command_step (name : list Z) (names : list (list Z)) (i : nat)
      (buf : list Z) (actual : Z) (command : option nat) :
  0 <= actual ->
  find_command (name :: names) i buf actual command =
  find_command names (Datatypes.S i) buf actual
    (if decide (actual = Z.of_nat (length name) /\
                take (Z.to_nat actual) buf = name)
     then Some i else command).
Proof.
  intros Hact. cbn [find_command].
  destruct (actual =? Z.of_nat (length name)) eqn:Hlen; cbn [negb].
  - apply Z.eqb_eq in Hlen.
    replace (take (Z.to_nat actual) name) with name
      by (rewrite take_ge by lia; reflexivity).
    destruct (bytes_eqb _ name) eqn:Hcmp; cbn [negb].
    + apply bytes_eqb_eq in Hcmp. rewrite decide_True by auto. reflexivity.
    + rewrite decide_False; [reflexivity|]. intros [_ Heq].
      apply bytes_eqb_eq in Heq. congruence.
  - apply Z.eqb_neq in Hlen. rewrite decide_False by tauto. reflexivity.
Qed.

Lemma find_command_none (names : list (list Z)) :
  forall (i : nat) (buf : list Z) (actual : Z) (command : option nat),
    0 <= actual ->
    ~ elem_of (take (Z.to_nat actual) buf) names ->
    find_command names i buf actual command = command.
Proof.
  induction names as [|name names IH]; intros i buf actual command Hact Hnot;
    [reflexivity|].
  rewrite find_command_step by exact Hact.
  rewrite not_elem_of_cons in Hnot. destruct Hnot as [Hne Hnot].
  rewrite decide_False by (intros [_ Heq]; congruence).
  apply IH; assumption.
Qed.

Lemma find_command_found (names : list (list Z)) :
  forall (i k : nat) (buf : list Z) (actual : Z) (command : option nat),
    NoDup names ->
    names !! k = Some (take (Z.to_nat actual) buf) ->
    actual = Z.of_nat (length (take (Z.to_nat actual) buf)) ->
    find_command names i buf actual command = Some (i + k)%nat.
Proof.
  induction names as [|name names IH]; intros i k buf actual command Hnd Hk Hlen;
    [discriminate|].
  rewrite find_command_step by lia.
  apply NoDup_cons in Hnd. destruct Hnd as [Hnot Hnd].
  destruct k as [|k]; cbn in Hk.
  - inversion Hk; subst name. rewrite decide_True by auto.
    rewrite find_command_none by (auto; lia). f_equal. lia.
  - rewrite decide_False.
    + rewrite (IH (Datatypes.S i) k) by assumption. f_equal. lia.
    + intros [_ Heq]. apply Hnot. rewrite <- Heq.
      eapply list_elem_of_lookup_2. exact Hk.
Qed.

(** What one pass of the loop reads when the handle holds a frame. *)
Lemma main_read_frame (ps : PacketStream S) (P rest : list Z) (fuel : nat)
      (actual : Z) :
  rx_state ps = RX_INITIAL ->
  queued (_io ps) (frame_of P ++ rest) ->
  Forall is_byte P ->
  Z.of_nat (length P) <= SIZE_MAX ->
  (length (frame_of P ++ rest) < fuel)%nat ->
  exists ps' buf,
    read fuel ps (replicate (Z.to_nat MAIN_BUF_SIZE) 0) (MAIN_BUF_SIZE - 1) actual =
      Some (true, buf, Z.of_nat (length P), ps') /\
    queued (_io ps') rest /\ rx_state ps' = RX_INITIAL /\
    ((length P <= 63)%nat -> take (length P) buf = P).
Proof.
  intros Hrx Hq HP Hmax Hfuel. rewrite frame_of_frame in *.
  destruct ps as [pos tx z pad io]. unfold rx_state in Hrx. ps_simpl.
  inversion Hrx; subst z pad.
  destruct (decode_loop_queue queued Hreads fuel pos tx 1 true io 0 _ Hq Hfuel)
    as (io' & Hq' & Hdec).
  rewrite cobs_scan_frame in Hq', Hdec by exact HP. cbn [fst snd] in Hq', Hdec.
  rewrite (read_decode_loop fuel _ P _ _ Hdec Hmax)
    by (rewrite length_replicate; unfold MAIN_BUF_SIZE; lia).
  do 2 eexists. split; [reflexivity|]. split; [exact Hq'|].
  split; [reflexivity|]. intros Hshort.
  change (Z.to_nat (MAIN_BUF_SIZE - 1)) with 63%nat.
  rewrite (take_ge P) by lia. rewrite take_app_length. reflexivity.
Qed.

(** One pass of the loop on a frame. *)
Lemma main_iteration_frame (st : main_state S) (P rest : list Z)
        (fuel : nat) (actual : Z) :
  rx_state (pc st) = RX_INITIAL ->
  queued (_io (pc st)) (frame_of P ++ rest) ->
  Forall is_byte P ->
  Z.of_nat (length P) <= SIZE_MAX ->
  (length (frame_of P ++ rest) < fuel)%nat ->
  exists st' call,
    main_iteration fuel st actual = Some (st', call) /\
    queued (_io (pc st')) rest /\
    rx_state (pc st') = RX_INITIAL /\
    cobs_errors st' = cobs_errors st /\
    (P = [] -> call = None /\ unknown_commands st' = unknown_commands st) /\
    (forall i, commands !! i = Some P ->
       call = Some i /\ unknown_commands st' = unknown_commands st) /\
    (P <> [] -> ~ elem_of P commands ->
       call = None /\ unknown_commands st' = u32 (unknown_commands st + 1)).
Proof.
  intros Hrx Hq HP Hmax Hfuel.
  destruct (main_read_frame (pc st) P rest fuel actual Hrx Hq HP Hmax Hfuel)
    as (ps' & buf & Hread & Hq' & Hrx' & Hbuf).
  unfold main_iteration. rewrite Hread. cbn [negb].
  destruct (Z.of_nat (length P) =? 0) eqn:Hzero.
  - (* the empty packet *)
    apply Z.eqb_eq in Hzero. destruct P as [|b P]; [|cbn in Hzero; lia].
    do 2 eexists. split; [reflexivity|]. cbn [pc cobs_errors unknown_commands].
    split; [exact Hq'|]. split; [exact Hrx'|]. split; [reflexivity|].
    split; [auto|]. split; [|congruence].
    intros i Hi. apply list_elem_of_lookup_2 in Hi.
    exfalso. revert Hi. vm_compute. intros Hi.
    repeat (apply elem_of_cons in Hi; destruct Hi as [Hi|Hi]; [discriminate|]).
    apply elem_of_nil in Hi. exact Hi.
  - apply Z.eqb_neq in Hzero.
    destruct (decide (elem_of P commands)) as [Hin|Hout].
    + (* a command *)
      pose proof commands_short as Hshort. rewrite Forall_forall in Hshort.
      pose proof (Hshort P Hin) as Hlen. cbv beta in Hlen.
      specialize (Hbuf ltac:(lia)).
      apply list_elem_of_lookup_1 in Hin. destruct Hin as [k Hk].
      rewrite (find_command_found commands 0 k buf _ None commands_NoDup)
        by (rewrite Nat2Z.id, Hbuf; auto).
      cbn [Nat.add].
      do 2 eexists. split; [reflexivity|]. cbn [pc cobs_errors unknown_commands].
      split; [exact Hq'|]. split; [exact Hrx'|]. split; [reflexivity|].
      split; [intros ->; cbn in Hzero; lia|]. split.
      * intros i Hi. split; [|reflexivity]. f_equal.
        eapply NoDup_lookup; [exact commands_NoDup|exact Hk|exact Hi].
      * intros _ Hnot. exfalso. apply Hnot.
        eapply list_elem_of_lookup_2. exact Hk.
    + (* anything else *)
      rewrite find_command_none.
      * do 2 eexists. split; [reflexivity|].
        cbn [pc cobs_errors unknown_commands].
        split; [exact Hq'|]. split; [exact Hrx'|]. split; [reflexivity|].
        split; [intros ->; cbn in Hzero; lia|]. split; [|auto].
        intros i Hi. exfalso. apply Hout.
        eapply list_elem_of_lookup_2. exact Hi.
      * lia.
      * intros Hin. rewrite Nat2Z.id in Hin.
        pose proof commands_short as Hshort. rewrite Forall_forall in Hshort.
        pose proof (Hshort _ Hin) as Hlen. cbv beta in Hlen.
        rewrite length_take in Hlen.
        destruct (Nat.le_gt_cases (length P) 63) as [Hle|Hgt].
        -- rewrite Hbuf in Hin by exact Hle. contradiction.
        -- assert (Hb : length buf = 64%nat).
           { unfold read in Hread.
             destruct (read_loop _ _ _ _ _ _) as [[[[s d] p] q0]|] eqn:Hloop;
               [|discriminate].
             apply read_loop_keeps in Hloop; [|lia].
             destruct Hloop as (_ & Hl & _).
             rewrite length_replicate in Hl.
             destruct s; inversion Hread; subst; exact Hl. }
           lia.
Qed.

(** X17 (which handler a packet reaches).  When the handle holds the
    frame of a payload [P] and behind it the bytes [rest], one pass of
    the loop of [main] reads exactly that frame and then
    - goes back to the head of the loop when [P] is empty;
    - calls the handler of entry [i] of [commands] when [P] is, byte
      for byte, the name of that entry, and of no other entry: the
      rest of the pass is what that handler does;
    - counts an unknown command and calls no handler in every other
      case, also when [P] is longer than the 63 bytes the loop reads
      and starts with a name.
    [st_d] is the state the pass is in when it has read the frame: the
    state it ends in, in the first and the last case, and the state the
    handler starts from in the second.  There the handle holds [rest],
    the decoder is in its initial state and [cobs_errors] is as it
    was.  What a handler reads of [rest] is the handler's doing. *)
Theorem main_dispatches_commands
        (handlers : nat -> main_state S -> option (main_state S))
        (st : main_state S) (P rest : list Z) (fuel : nat) (actual : Z) :
  rx_state (pc st) = RX_INITIAL ->
  queued (_io (pc st)) (frame_of P ++ rest) ->
  Forall is_byte P ->
  Z.of_nat (length P) <= SIZE_MAX ->
  (length (frame_of P ++ rest) < fuel)%nat ->
  exists st_d,
    queued (_io (pc st_d)) rest /\
    rx_state (pc st_d) = RX_INITIAL /\
    cobs_errors st_d = cobs_errors st /\
    (P = [] ->
       unknown_commands st_d = unknown_commands st /\
       main_pass handlers fuel st actual = Some st_d) /\
    (forall i, commands !! i = Some P ->
       unknown_commands st_d = unknown_commands st /\
       main_pass handlers fuel st actual = handlers i st_d) /\
    (P <> [] -> ~ elem_of P commands ->
       unknown_commands st_d = u32 (unknown_commands st + 1) /\
       main_pass handlers fuel st actual = Some st_d).
Proof.
  intros Hrx Hq HP Hmax Hfuel.
  destruct (main_iteration_frame st P rest fuel actual Hrx Hq HP Hmax Hfuel)
    as (st_d & call & Hit & Hq' & Hrx' & Herr & Hempty & Hcmd & Hunknown).
  exists st_d. split; [exact Hq'|]. split; [exact Hrx'|]. split; [exact Herr|].
  unfold main_pass. rewrite Hit. split; [|split].
  - intros Hnil. destruct (Hempty Hnil) as [-> Hu]. split; [exact Hu|reflexivity].
  - intros i Hi. destruct (Hcmd i Hi) as [-> Hu]. split; [exact Hu|reflexivity].
  - intros Hne Hnot. destruct (Hunknown Hne Hnot) as [-> Hu].
    split; [exact Hu|reflexivity].
Qed.

Lemma commands_bytes : Forall (Forall is_byte) commands.
Proof. repeat constructor; unfold is_byte; cbn; lia. Qed.

(** A block that a zero byte cuts short ends in [DecodingCobsError]. *)
Lemma cobs_scan_short_block (code : Z) (w rest : list Z) :
  Forall nonzero_byte w ->
  Z.of_nat (length w) + 1 < code <= 255 ->
  cobs_scan 1 true (code :: w ++ 0 :: rest) =
  (w, DecodingCobsError, RX_INITIAL, rest).
Proof.
  intros Hw Hcode. cbn [cobs_scan].
  replace (code =? 0) with false by (symmetry; apply Z.eqb_neq; lia).
  change (u8 (1 - 1) =? 0) with true. cbv iota.
  rewrite cobs_scan_data by (auto; lia). cbn [cobs_scan].
  change (0 =? 0) with true. cbv iota.
  replace (u8 (code - Z.of_nat (length w) - 1) =? 0) with false.
  - rewrite app_nil_r. reflexivity.
  - symmetry. apply Z.eqb_neq. unfold u8. rewrite Z.mod_small; lia.
Qed.

(** X18 (a bad frame costs one packet).  When the handle holds a frame
    whose block is cut short by the zero byte, and behind it the frame
    of the name of entry [i] of [commands], the first pass of the loop
    of [main] counts one COBS error and calls no handler, and the
    second pass calls the handler of entry [i]: the command behind the
    bad frame is not lost. *)
Theorem main_recovers_after_bad_frame (st : main_state S) (code : Z)
        (w P rest : list Z) (i fuel : nat) (actual1 actual2 : Z) :
  rx_state (pc st) = RX_INITIAL ->
  queued (_io (pc st)) ((code :: w ++ [0]) ++ frame_of P ++ rest) ->
  Forall nonzero_byte w ->
  Z.of_nat (length w) + 1 < code <= 255 ->
  commands !! i = Some P ->
  (length w + 2 + length (frame_of P ++ rest) < fuel)%nat ->
  exists st1 st2,
    main_iteration fuel st actual1 = Some (st1, None) /\
    cobs_errors st1 = u32 (cobs_errors st + 1) /\
    unknown_commands st1 = unknown_commands st /\
    main_iteration fuel st1 actual2 = Some (st2, Some i) /\
    cobs_errors st2 = cobs_errors st1 /\
    unknown_commands st2 = unknown_commands st1 /\
    queued (_io (pc st2)) rest.
Proof.
  intros Hrx Hq Hw Hcode Hi Hfuel.
  assert (HP : Forall is_byte P /\ (length P <= 8)%nat).
  { pose proof commands_bytes as Hb. pose proof commands_short as Hs.
    rewrite Forall_forall in Hb, Hs.
    apply list_elem_of_lookup_2 in Hi. split; [apply Hb|apply Hs]; exact Hi. }
  destruct HP as [HP Hlen].
  destruct st as [[pos tx z pad io] errors unknown].
  unfold rx_state in Hrx. cbn [pc _rx_next_zero _rx_next_pad _io] in *.
  inversion Hrx; subst z pad.
  cbn [app] in Hq. rewrite <- app_assoc in Hq. cbn [app] in Hq.
  destruct (decode_loop_queue queued Hreads fuel pos tx 1 true io 0 _ Hq)
    as (io1 & Hq1 & Hdec).
  { cbn [length]. rewrite length_app. cbn [length]. lia. }
  rewrite cobs_scan_short_block in Hq1, Hdec by assumption.
  cbn [fst snd] in Hq1, Hdec.
  set (st1 := mkMain (mkPacketStream pos tx 1 true io1) (u32 (errors + 1)) unknown).
  destruct (main_iteration_frame st1 P rest fuel actual2)
    as (st2 & call & Hit & Hq2 & _ & Herr & _ & Hcall & _); auto.
  { unfold SIZE_MAX. lia. }
  { lia. }
  destruct (Hcall i Hi) as [-> Hunknown].
  exists st1, st2. split.
  - unfold main_iteration. cbn [pc cobs_errors unknown_commands].
    rewrite (read_decode_loop fuel _ w _ _ Hdec)
      by (rewrite ?length_replicate; unfold SIZE_MAX, MAIN_BUF_SIZE; lia).
    reflexivity.
  - split; [reflexivity|]. split; [reflexivity|]. split; [exact Hit|].
    split; [exact Herr|]. split; [exact Hunknown|exact Hq2].
Qed.

(** X29 (a read that runs dry counts as a COBS error).  The loop of
    [main] does not tell why [read] failed.  When the handle holds
    bytes without a zero among them, or none at all, and then delivers
    nothing, the pass takes these bytes, increments [cobs_errors] and
    calls no handler, although no frame was malformed. *)
Theorem main_counts_dry_read (st : main_state S) (a : list Z) (fuel : nat)
        (actual : Z) :
  queued (_io (pc st)) a ->
  Forall (fun b => b <> 0) a ->
  Z.of_nat (length a) <= SIZE_MAX ->
  (length a < fuel)%nat ->
  exists st',
    main_iteration fuel st actual = Some (st', None) /\
    cobs_errors st' = u32 (cobs_errors st + 1) /\
    unknown_commands st' = unknown_commands st /\
    queued (_io (pc st')) [].
Proof.
  intros Hq Ha Hmax Hfuel.
  destruct st as [[pos tx z pad io] errors unknown].
  cbn [pc _io cobs_errors unknown_commands] in *.
  destruct (decode_loop_queue queued Hreads fuel pos tx z pad io 0 _ Hq Hfuel)
    as (io' & Hq' & Hdec).
  destruct (cobs_scan_no_zero a z pad Ha) as (out & rx & Hscan & Hlen).
  rewrite Hscan in Hq', Hdec. cbn [fst snd] in Hq', Hdec.
  unfold main_iteration. cbn [pc cobs_errors unknown_commands].
  rewrite (read_decode_loop fuel _ out _ _ Hdec)
    by (rewrite ?length_replicate; unfold MAIN_BUF_SIZE; lia).
  cbn [status_eqb negb].
  eexists. split; [reflexivity|]. cbn [pc cobs_errors unknown_commands _io].
  split; [reflexivity|]. split; [reflexivity|exact Hq'].
Qed.

End Commands.

(** ** Requests and replies: [RemoteFile] and [baud_handler] *)

Section Duplex.

Context {S : Type} `{FileHandle S}.

Lemma tx_write_keeps_handle (R : S -> Prop) :
  (forall io bytes, R io -> R (fh_write io bytes).2) ->
  forall (ps : PacketStream S) (success : bool),
    R (_io ps) -> R (_io (tx_write ps success).1).
Proof.
  intros HR ps success Hio. unfold tx_write.
  pose proof (HR (_io ps) (take (Z.to_nat (_tx_pos ps)) (_tx_buf ps)) Hio) as Hw.
  destruct (fh_write _ _) as [n io]. exact Hw.
Qed.

Lemma _cobs_write_loop_keeps_handle (R : S -> Prop) :
  (forall io bytes, R io -> R (fh_write io bytes).2) ->
  forall (data : list Z) (ps : PacketStream S) (success : bool),
    R (_io ps) -> R (_io (_cobs_write_loop data ps success).1).
Proof.
  intros HR. induction data as [|d data IH]; intros ps success Hio;
    [exact Hio|].
  cbn [_cobs_write_loop].
  pose proof (tx_write_keeps_handle R HR
                (set_tx_buf ps 0 (u8 (_tx_pos ps))) success Hio) as H1.
  destruct (tx_write (set_tx_buf ps 0 (u8 (_tx_pos ps))) success) as [p1 s1].
  cbn [fst] in H1.
  destruct (255 <=? _tx_pos ps).
  - match goal with
    | |- context [tx_write ?p ?s] =>
        pose proof (tx_write_keeps_handle R HR p s H1) as H2;
        destruct (tx_write p s) as [p2 s2]
    end.
    cbn [fst] in H2. destruct (d =? 0); apply IH; assumption.
  - match goal with
    | |- context [tx_write ?p ?s] =>
        pose proof (tx_write_keeps_handle R HR p s Hio) as H2;
        destruct (tx_write p s) as [p2 s2]
    end.
    cbn [fst] in H2. destruct (d =? 0); apply IH; assumption.
Qed.

(** What holds of the handle whatever is written to it holds after
    [write]. *)
Lemma write_keeps_handle (R : S -> Prop) :
  (forall io bytes, R io -> R (fh_write io bytes).2) ->
  forall (ps : PacketStream S) (P : list Z),
    R (_io ps) -> R (_io (write ps P).1).
Proof.
  intros HR ps P Hio. unfold write, _cobs_write.
  pose proof (_cobs_write_loop_keeps_handle R HR P ps true Hio) as H1.
  destruct (_cobs_write_loop P ps true) as [p1 s1]. cbn [fst] in H1.
  match goal with
  | |- context [tx_write ?p ?s] =>
      pose proof (tx_write_keeps_handle R HR p s H1) as H2;
      destruct (tx_write p s) as [p2 s2]
  end.
  exact H2.
Qed.

Lemma _cobs_getc_keeps_handle (R : S -> Prop) :
  (forall io size, R io -> R (fh_read io size).2) ->
  forall (depth : nat) (ps : PacketStream S) (val : Z) status v ps',
    R (_io ps) ->
    _cobs_getc depth ps val = Some (status, v, ps') -> R (_io ps').
Proof.
  intros HR. induction depth as [|depth IH]; intros ps val status v ps' Hio Hget;
    [discriminate|].
  rewrite _cobs_getc_unfold in Hget.
  pose proof (HR (_io ps) 1 Hio) as Hr.
  destruct (fh_read (_io ps) 1) as [[n bytes] io]. cbv zeta in Hget.
  cbn [snd] in Hr.
  destruct (n =? 1); [|inversion Hget; subst; exact Hr].
  destruct (hd 0 bytes =? 0); [inversion Hget; subst; exact Hr|].
  destruct (u8 (_rx_next_zero ps - 1) =? 0);
    [|inversion Hget; subst; exact Hr].
  destruct (_rx_next_pad ps); [|inversion Hget; subst; exact Hr].
  eapply IH; [|exact Hget]. exact Hr.
Qed.

Lemma read_loop_keeps_handle (R : S -> Prop) :
  (forall io size, R io -> R (fh_read io size).2) ->
  forall (fuel : nat) (ps : PacketStream S) (data : list Z) (size val pos : Z)
         status data' pos' ps',
    R (_io ps) ->
    read_loop fuel ps data size val pos = Some (status, data', pos', ps') ->
    R (_io ps').
Proof.
  intros HR. induction fuel as [|fuel IH];
    intros ps data size val pos status data' pos' ps' Hio Hloop; [discriminate|].
  cbn [read_loop] in Hloop.
  destruct (_cobs_getc MAX_RECURSION ps val) as [[[st v] ps1]|] eqn:Hget;
    [|discriminate].
  apply (_cobs_getc_keeps_handle R HR) in Hget; [|exact Hio].
  destruct st; try (inversion Hloop; subst; exact Hget).
  eapply IH; [exact Hget|exact Hloop].
Qed.

(** What holds of the handle whatever is read from it holds after
    [read]. *)
Lemma read_keeps_handle (R : S -> Prop) :
  (forall io size, R io -> R (fh_read io size).2) ->
  forall (fuel : nat) (ps : PacketStream S) (data : list Z) (size actual : Z)
         flag data' actual' ps',
    R (_io ps) ->
    read fuel ps data size actual = Some (flag, data', actual', ps') ->
    R (_io ps').
Proof.
  intros HR fuel ps data size actual flag data' actual' ps' Hio Hread.
  unfold read in Hread.
  destruct (read_loop fuel ps data size 0 0) as [[[[st d] p] ps1]|] eqn:Hloop;
    [|discriminate].
  apply (read_loop_keeps_handle R HR) in Hloop; [|exact Hio].
  destruct st; inversion Hread; subst; exact Hloop.
Qed.

Variable queued : S -> list Z -> Prop.
Variable sent : S -> list Z -> Prop.
Variable accepts : S -> nat -> Prop.
Hypothesis Hreads : reads_in_order queued.
Hypothesis Hwrites : writes_in_order sent accepts.
Hypothesis Hwaside : writes_aside queued.
Hypothesis Hraside : reads_aside sent accepts.

(** A packet goes out and what waits to be read stays. *)
Lemma write_out (ps : PacketStream S) (P s q : list Z) (n : nat) :
  tx_ready ps ->
  sent (_io ps) s ->
  queued (_io ps) q ->
  accepts (_io ps) (length (frame_of P) + n) ->
  (write ps P).2 = true /\
  sent (_io (write ps P).1) (s ++ frame_of P) /\
  queued (_io (write ps P).1) q /\
  accepts (_io (write ps P).1) n /\
  rx_state (write ps P).1 = rx_state ps /\
  tx_ready (write ps P).1.
Proof.
  intros Hready Hs Hq Hacc. rewrite frame_of_frame in *.
  destruct (write_queue sent accepts Hwrites ps P s n Hready Hs Hacc)
    as (Hok & Hs' & Hacc' & Hrx & Hready').
  repeat (split; [assumption|]). split; [|auto].
  apply (write_keeps_handle (fun io => queued io q)); [|exact Hq].
  intros io bytes. apply Hwaside.
Qed.

Lemma printf_str_out (ps : PacketStream S) (text uninit s q : list Z) (n : nat) :
  tx_ready ps ->
  sent (_io ps) s ->
  queued (_io ps) q ->
  accepts (_io ps) (length (frame_of text) + n) ->
  Z.of_nat (length text) <= 2147483647 ->
  exists ps1,
    printf_str ps text uninit = PrintfReturn true ps1 /\
    sent (_io ps1) (s ++ frame_of text) /\
    queued (_io ps1) q /\
    accepts (_io ps1) n /\
    rx_state ps1 = rx_state ps /\
    tx_ready ps1.
Proof.
  intros Hready Hs Hq Hacc Hint.
  destruct (write_out ps text s q n Hready Hs Hq Hacc) as (Hok & Hrest).
  exists (write ps text).1. split; [|exact Hrest].
  unfold printf_str. rewrite printf_text by exact Hint. rewrite Hok. reflexivity.
Qed.

(** A frame comes in and what has gone out stays. *)
Lemma read_in (ps : PacketStream S) (P rest s : list Z) (n fuel : nat)
      (data : list Z) (size actual : Z) :
  rx_state ps = RX_INITIAL ->
  queued (_io ps) (frame_of P ++ rest) ->
  sent (_io ps) s ->
  accepts (_io ps) n ->
  Forall is_byte P ->
  Z.of_nat (length P) <= SIZE_MAX ->
  0 <= size <= Z.of_nat (length data) ->
  (length (frame_of P ++ rest) < fuel)%nat ->
  exists io',
    read fuel ps data size actual =
      Some (true,
            take (Z.to_nat size) P ++
            drop (Nat.min (Z.to_nat size) (length P)) data,
            Z.of_nat (length P),
            mkPacketStream (_tx_pos ps) (_tx_buf ps) 1 true io') /\
    queued io' rest /\ sent io' s /\ accepts io' n.
Proof.
  intros Hrx Hq Hs Hacc HP Hmax Hsize Hfuel. rewrite frame_of_frame in *.
  destruct ps as [pos tx z pad io]. unfold rx_state in Hrx. ps_simpl.
  inversion Hrx; subst z pad.
  destruct (decode_loop_queue queued Hreads fuel pos tx 1 true io 0 _ Hq Hfuel)
    as (io' & Hq' & Hdec).
  rewrite cobs_scan_frame in Hq', Hdec by exact HP. cbn [fst snd] in Hq', Hdec.
  pose proof (read_decode_loop fuel _ P _ _ Hdec Hmax data size actual Hsize)
    as Hread.
  cbn [status_eqb] in Hread.
  exists io'. split; [exact Hread|]. split; [exact Hq'|]. split.
  - apply (read_keeps_handle (fun io => sent io s)) in Hread; [exact Hread| |exact Hs].
    intros io0 sz. apply (Hraside io0 sz).
  - apply (read_keeps_handle (fun io => accepts io n)) in Hread;
      [exact Hread| |exact Hacc].
    intros io0 sz. apply (Hraside io0 sz).
Qed.

(** A block cut short by the zero byte comes in. *)
Lemma read_in_bad (ps : PacketStream S) (code : Z) (w rest s : list Z)
      (n fuel : nat) (data : list Z) (size actual : Z) :
  rx_state ps = RX_INITIAL ->
  queued (_io ps) (code :: w ++ 0 :: rest) ->
  sent (_io ps) s ->
  accepts (_io ps) n ->
  Forall nonzero_byte w ->
  Z.of_nat (length w) + 1 < code <= 255 ->
  0 <= size <= Z.of_nat (length data) ->
  (length w + 2 + length rest < fuel)%nat ->
  exists data' io',
    read fuel ps data size actual =
      Some (false, data', actual,
            mkPacketStream (_tx_pos ps) (_tx_buf ps) 1 true io') /\
    queued io' rest /\ sent io' s /\ accepts io' n.
Proof.
  intros Hrx Hq Hs Hacc Hw Hcode Hsize Hfuel.
  destruct ps as [pos tx z pad io]. unfold rx_state in Hrx. ps_simpl.
  inversion Hrx; subst z pad.
  destruct (decode_loop_queue queued Hreads fuel pos tx 1 true io 0 _ Hq)
    as (io' & Hq' & Hdec).
  { cbn [length]. rewrite length_app. cbn [length]. lia. }
  rewrite cobs_scan_short_block in Hq', Hdec by assumption.
  cbn [fst snd] in Hq', Hdec.
  pose proof (read_decode_loop fuel _ w _ _ Hdec ltac:(unfold SIZE_MAX; lia)
                data size actual Hsize) as Hread.
  cbn [status_eqb] in Hread.
  do 2 eexists. split; [exact Hread|]. split; [exact Hq'|]. split.
  - apply (read_keeps_handle (fun io => sent io s)) in Hread; [exact Hread| |exact Hs].
    intros io0 sz. apply (Hraside io0 sz).
  - apply (read_keeps_handle (fun io => accepts io n)) in Hread;
      [exact Hread| |exact Hacc].
    intros io0 sz. apply (Hraside io0 sz).
Qed.


(** [scanf] with its argument on a block cut short: the argument is
    not touched. *)
Lemma scanf_int_in_bad (ps : PacketStream S) (code : Z) (w rest s : list Z)
      (n fuel : nat) (uninit : list Z) (vsscanf : list Z -> Z -> Z * Z)
      (arg : Z) :
  rx_state ps = RX_INITIAL ->
  queued (_io ps) (code :: w ++ 0 :: rest) ->
  sent (_io ps) s ->
  accepts (_io ps) n ->
  Forall nonzero_byte w ->
  Z.of_nat (length w) + 1 < code <= 255 ->
  (length w + 2 + length rest < fuel)%nat ->
  exists io',
    scanf_int fuel ps uninit vsscanf arg =
      Some (ScanfReturn 0 (mkPacketStream (_tx_pos ps) (_tx_buf ps) 1 true io'),
            arg) /\
    queued io' rest /\ sent io' s /\ accepts io' n.
Proof.
  intros Hrx Hq Hs Hacc Hw Hcode Hfuel.
  pose proof (scanf_buf_length uninit) as Hbuf.
  destruct (read_in_bad ps code w rest s n fuel _ 64 0 Hrx Hq Hs Hacc Hw Hcode
              ltac:(rewrite Hbuf; lia) Hfuel)
    as (data' & io' & Hread & Hrest).
  exists io'. split; [|exact Hrest].
  unfold scanf_int. change (SCANF_BUF_SIZE - 1) with 64.
  rewrite Hread. reflexivity.
Qed.




(** X23 ([RemoteFile::close] without a valid reply).  When the reply
    is a frame whose block is cut short by the zero byte, [scanf]
    stores nothing and the method returns the -1 that [ret] was set
    to; the frame is used up. *)
Theorem RemoteFile_close_bad_reply (ps : PacketStream S) (code : Z)
        (w rest s : list Z) (fuel : nat) (uninit1 uninit2 : list Z)
        (vsscanf : list Z -> Z -> Z * Z) :
  tx_ready ps ->
  rx_state ps = RX_INITIAL ->
  sent (_io ps) s ->
  queued (_io ps) (code :: w ++ 0 :: rest) ->
  accepts (_io ps) (length (frame_of (c_str "close"%string))) ->
  Forall nonzero_byte w ->
  Z.of_nat (length w) + 1 < code <= 255 ->
  (length w + 2 + length rest < fuel)%nat ->
  exists ps',
    RemoteFile_close fuel ps uninit1 uninit2 vsscanf = Some (Returns (-1) ps') /\
    sent (_io ps') (s ++ frame_of (c_str "close"%string)) /\
    queued (_io ps') rest /\
    rx_state ps' = RX_INITIAL /\ tx_ready ps'.
Proof.
  intros Hready Hrx Hs Hq Hacc Hw Hcode Hfuel.
  destruct (printf_str_out ps (c_str "close"%string) uninit1 s _ 0%nat
              Hready Hs Hq)
    as (ps1 & Hprintf & Hs1 & Hq1 & Hacc1 & Hrx1 & Hready1); [|cbn; lia|].
  { eapply (proj1 Hwrites); [exact Hacc|lia]. }
  unfold RemoteFile_close. rewrite Hprintf.
  assert (Hrx' : rx_state ps1 = RX_INITIAL) by (rewrite Hrx1; exact Hrx).
  destruct (scanf_int_in_bad ps1 code w rest _ 0%nat fuel uninit2 vsscanf (-1)
              Hrx' Hq1 Hs1 Hacc1 Hw Hcode Hfuel)
    as (io' & Hscan & Hq3 & Hs3 & _).
  unfold remote_reply. rewrite Hscan.
  eexists. split; [reflexivity|]. cbn [_io].
  split; [exact Hs3|]. split; [exact Hq3|].
  split; [reflexivity|]. destruct Hready1 as [Hp Hl]. split; assumption.
Qed.

(** X24 ([RemoteFile::read]).  The method sends the rendering of
    "read,%i" as one packet and returns the length of the payload of
    the reply packet, whatever [size] is: a reply longer than [size]
    fills the buffer with its first [size] bytes and the value
    returned is larger than [size]. *)
Theorem RemoteFile_read_reply (ps : PacketStream S) (request reply rest s : list Z)
        (fuel : nat) (uninit buffer : list Z) (size actual : Z) :
  tx_ready ps ->
  rx_state ps = RX_INITIAL ->
  sent (_io ps) s ->
  queued (_io ps) (frame_of reply ++ rest) ->
  accepts (_io ps) (length (frame_of request)) ->
  Z.of_nat (length request) <= 2147483647 ->
  Forall is_byte reply ->
  Z.of_nat (length reply) <= 2147483647 ->
  0 <= size <= Z.of_nat (length buffer) ->
  (length (frame_of reply ++ rest) < fuel)%nat ->
  exists ps',
    RemoteFile_read fuel ps request uninit buffer size actual =
      Some (Returns
              (Z.of_nat (length reply),
               take (Z.to_nat size) reply ++
               drop (Nat.min (Z.to_nat size) (length reply)) buffer)
              ps') /\
    sent (_io ps') (s ++ frame_of request) /\
    queued (_io ps') rest /\
    rx_state ps' = RX_INITIAL /\ tx_ready ps'.
Proof.
  intros Hready Hrx Hs Hq Hacc Hint Hreply Hlen Hsize Hfuel.
  destruct (printf_str_out ps request uninit s _ 0%nat Hready Hs Hq)
    as (ps1 & Hprintf & Hs1 & Hq1 & Hacc1 & Hrx1 & Hready1); [|exact Hint|].
  { eapply (proj1 Hwrites); [exact Hacc|lia]. }
  unfold RemoteFile_read. rewrite Hprintf.
  assert (Hrx' : rx_state ps1 = RX_INITIAL) by (rewrite Hrx1; exact Hrx).
  destruct (read_in ps1 reply rest _ 0%nat fuel buffer size actual
              Hrx' Hq1 Hs1 Hacc1 Hreply ltac:(unfold SIZE_MAX; lia) Hsize Hfuel)
    as (io' & Hread & Hq3 & Hs3 & _).
  rewrite Hread. unfold ssize.
  replace (Z.of_nat (length reply) <? 2147483648) with true
    by (symmetry; apply Z.ltb_lt; lia).
  eexists. split; [reflexivity|]. cbn [_io].
  split; [exact Hs3|]. split; [exact Hq3|].
  split; [reflexivity|]. destruct Hready1 as [Hp Hl]. split; assumption.
Qed.

(** X25 ([RemoteFile::read] without a valid reply).  The method does
    not look at what [read] of the stream returns.  When the reply is a
    frame whose block is cut short by the zero byte, the value returned
    is what the local [actual], which the method does not initialise,
    happened to hold. *)
Theorem RemoteFile_read_bad_reply (ps : PacketStream S) (code : Z)
        (request w rest s : list Z) (fuel : nat) (uninit buffer : list Z)
        (size actual : Z) :
  tx_ready ps ->
  rx_state ps = RX_INITIAL ->
  sent (_io ps) s ->
  queued (_io ps) (code :: w ++ 0 :: rest) ->
  accepts (_io ps) (length (frame_of request)) ->
  Z.of_nat (length request) <= 2147483647 ->
  Forall nonzero_byte w ->
  Z.of_nat (length w) + 1 < code <= 255 ->
  0 <= size <= Z.of_nat (length buffer) ->
  (length w + 2 + length rest < fuel)%nat ->
  exists buffer' ps',
    RemoteFile_read fuel ps request uninit buffer size actual =
      Some (Returns (ssize actual, buffer') ps') /\
    queued (_io ps') rest.
Proof.
  intros Hready Hrx Hs Hq Hacc Hint Hw Hcode Hsize Hfuel.
  destruct (printf_str_out ps request uninit s _ 0%nat Hready Hs Hq)
    as (ps1 & Hprintf & Hs1 & Hq1 & Hacc1 & Hrx1 & Hready1); [|exact Hint|].
  { eapply (proj1 Hwrites); [exact Hacc|lia]. }
  unfold RemoteFile_read. rewrite Hprintf.
  assert (Hrx' : rx_state ps1 = RX_INITIAL) by (rewrite Hrx1; exact Hrx).
  destruct (read_in_bad ps1 code w rest _ 0%nat fuel buffer size actual
              Hrx' Hq1 Hs1 Hacc1 Hw Hcode Hsize Hfuel)
    as (data' & io' & Hread & Hq3 & _).
  rewrite Hread. do 2 eexists. split; [reflexivity|exact Hq3].
Qed.


End Duplex.

(** ** The further properties at concrete streams *)

Section MoreInstances.

Lemma mock_writes_aside : writes_aside mock_queued.
Proof.
  intros m bytes q Hq. unfold mock_queued in *.
  cbn [fh_write TestFileHandle_FileHandle].
  destruct (_ >? _); [exact Hq|]. destruct (negb _); exact Hq.
Qed.

Lemma mock_reads_aside (e : list Z) : reads_aside (mock_written e) mock_accepts.
Proof.
  intros m size. split; [|intros n _; exact I].
  intros s Hs. exact Hs.
Qed.

(** A mock that expects [e] and holds [wire]. *)
Lemma mock_expecting (ps : PacketStream PacketStreamTestFileHandle)
      (e wire : list Z) :
  Z.of_nat (length e) <= SIZE_MAX ->
  mock_written e
    (_io (refill (set_io ps (write_set_expected (_io ps) e)) wire)) [].
Proof.
  intros He. unfold mock_written. cbn. repeat split; auto; lia.
Qed.

Lemma nonzero_Forall (l : list Z) :
  forallb (fun b => negb (b =? 0)) l = true -> Forall (fun b => b <> 0) l.
Proof.
  intros Hl. apply Forall_forall. intros b Hb.
  apply list_elem_of_In in Hb.
  rewrite forallb_forall in Hl. specialize (Hl b Hb).
  apply negb_true_iff, Z.eqb_neq in Hl. exact Hl.
Qed.

Lemma write_frame_shape_witness :
  (write loopback payload600).2 = true /\
  exists body,
    ring_queued (_io (write loopback payload600).1) ([] ++ body ++ [0]) /\
    Forall nonzero_byte body /\
    (length payload600 + 1 <= length body <=
     length payload600 + length payload600 / 254 + 1)%nat.
Proof.
  apply (write_frame_shape ring_queued ring_accepts ring_writes_in_order
           loopback payload600 []).
  - apply tx_ready_new.
  - exact ring_new_queued.
  - unfold ring_accepts. vm_compute. discriminate.
  - apply is_byteb_Forall. vm_compute. reflexivity.
Defined.

Lemma write_passes_blocks_witness :
  exists evs e,
    lg_events (_io (write (PacketStream_new [] (mkLogged (mkPipe []) []))
                          payload600).1) =
      lg_events (_io (PacketStream_new [] (mkLogged (mkPipe []) []))) ++
      evs ++ [e] /\
    Forall block_write (evs ++ [e]).
Proof.
  apply (write_passes_blocks (PacketStream_new [] (mkLogged (mkPipe []) []))
                             payload600).
  apply tx_ready_new.
Defined.

Lemma read_stays_in_buffer_witness :
  length [0x11; 0x22; 7] = length [7; 7; 7] /\
  drop (Z.to_nat 2) [0x11; 0x22; 7] = drop (Z.to_nat 2) [7; 7; 7] /\
  (true = false -> 4 = 5).
Proof.
  apply (read_stays_in_buffer 8
           (receiving [0x03; 0x11; 0x22; 0x02; 0x33; 0x00]) [7; 7; 7] 2 5
           true [0x11; 0x22; 7] 4
           (mkPacketStream 1 (_tx_buf fresh) 1 true (mkPipe []))).
  vm_compute. reflexivity.
Defined.

(** A decoder in the middle of a block of five, then 07 08 00. *)
Lemma read_stops_at_delimiter_witness :
  exists flag data' actual' ps',
    read 10 (mkPacketStream 1 (_tx_buf fresh) 5 false
               (mkPipe ([7; 8] ++ 0 :: [0x01; 0x00])))
         (replicate 4 0) 4 0 = Some (flag, data', actual', ps') /\
    pipe_queued (_io ps') [0x01; 0x00] /\
    rx_state ps' = RX_INITIAL /\
    (flag = true -> 0 <= actual' <= Z.of_nat (length [7; 8])).
Proof.
  apply (read_stops_at_delimiter pipe_queued pipe_reads_in_order
           (mkPacketStream 1 (_tx_buf fresh) 5 false
              (mkPipe ([7; 8] ++ 0 :: [0x01; 0x00])))
           [7; 8] [0x01; 0x00] 10 (replicate 4 0) 4 0).
  - reflexivity.
  - apply nonzero_Forall. reflexivity.
  - vm_compute. discriminate.
  - vm_compute. split; discriminate.
  - apply Nat.ltb_lt. reflexivity.
Defined.

Lemma read_needs_delimiter_witness :
  exists data' ps',
    read 10 (receiving [0x03; 0x11; 0x22]) (replicate 4 0) 4 9 =
      Some (false, data', 9, ps') /\
    pipe_queued (_io ps') [].
Proof.
  apply (read_needs_delimiter pipe_queued pipe_reads_in_order
           (receiving [0x03; 0x11; 0x22]) [0x03; 0x11; 0x22] 10
           (replicate 4 0) 4 9).
  - reflexivity.
  - apply nonzero_Forall. reflexivity.
  - vm_compute. discriminate.
  - vm_compute. split; discriminate.
  - apply Nat.ltb_lt. reflexivity.
Defined.

Lemma two_packets_in_order_witness :
  (write loopback payload600).2 = true /\
  (write (write loopback payload600).1 (byte_run 0 10)).2 = true /\
  exists ps3 ps4,
    read 1000 (write (write loopback payload600).1 (byte_run 0 10)).1
         (replicate 1024 0) 1024 0 =
      Some (true, payload600 ++ drop (length payload600) (replicate 1024 0),
            Z.of_nat (length payload600), ps3) /\
    read 1000 ps3 (replicate 16 0) 16 0 =
      Some (true, byte_run 0 10 ++ drop (length (byte_run 0 10)) (replicate 16 0),
            Z.of_nat (length (byte_run 0 10)), ps4) /\
    ring_queued (_io ps4) [] /\ rx_state ps4 = RX_INITIAL /\ tx_ready ps4.
Proof.
  apply (two_packets_in_order ring_queued ring_reads_in_order
           ring_accepts ring_writes_in_order
           loopback payload600 (byte_run 0 10) 1000
           (replicate 1024 0) (replicate 16 0) 1024 16 0 0).
  - apply tx_ready_new.
  - reflexivity.
  - exact ring_new_queued.
  - unfold ring_accepts. vm_compute. discriminate.
  - apply is_byteb_Forall. vm_compute. reflexivity.
  - apply is_byteb_Forall. vm_compute. reflexivity.
  - vm_compute. discriminate.
  - vm_compute. discriminate.
  - vm_compute. split; discriminate.
  - vm_compute. split; discriminate.
  - apply Nat.ltb_lt. vm_compute. reflexivity.
Defined.

(** 130 characters: the array on the heap. *)
Lemma printf_sends_text_witness :
  printf fresh 130 (byte_run 1 130) [] =
  PrintfReturn (write fresh (byte_run 1 130)).2 (write fresh (byte_run 1 130)).1.
Proof.
  apply (printf_sends_text fresh 130 (byte_run 1 130) []).
  - reflexivity.
  - vm_compute. discriminate.
Defined.

Lemma printf_negative_length_witness :
  printf fresh (-1) [] [] = PrintfOutOfBounds /\
  STRING_STACK_LIMIT < 2147483648 <= usize (-1).
Proof.
  apply (printf_negative_length fresh (-1) [] []).
  vm_compute. split; [discriminate|reflexivity].
Defined.

(** The text "1" parsed by a [vsscanf] that reports a failure. *)
Lemma scanf_returns_0_or_1_witness :
  exists ret,
    scanf 8 (receiving [0x02; 0x31; 0x00]) [] (fun _ => -1) =
      Some (ScanfReturn ret (mkPacketStream 1 (_tx_buf fresh) 1 true (mkPipe []))) /\
    (ret = 0 \/ ret = 1) /\
    (DecodingDone <> DecodingDone -> ret = 0) /\
    (DecodingDone = DecodingDone ->
     (ret = 1 <->
      (fun _ : list Z => -1)
        ([0x31] ++ 0 :: drop (Datatypes.S (length [0x31]))
           (take (Z.to_nat SCANF_BUF_SIZE)
                 ([] ++ replicate (Z.to_nat SCANF_BUF_SIZE) 0))) <> 0)).
Proof.
  apply (scanf_returns_0_or_1 8 (receiving [0x02; 0x31; 0x00]) [0x31]
           DecodingDone (mkPacketStream 1 (_tx_buf fresh) 1 true (mkPipe []))).
  - vm_compute. reflexivity.
  - vm_compute. discriminate.
Defined.

Lemma printf_scanf_round_trip_witness :
  exists ps1 ps2,
    printf loopback (Z.of_nat (length (c_str "Number is 42"%string)))
           (c_str "Number is 42"%string) [] = PrintfReturn true ps1 /\
    scanf 100 ps1 [] (fun _ => 1) =
      Some (ScanfReturn
              (if (fun _ : list Z => 1)
                    (c_str "Number is 42"%string ++
                     0 :: drop (Datatypes.S (length (c_str "Number is 42"%string)))
                            (take (Z.to_nat SCANF_BUF_SIZE)
                                  ([] ++ replicate (Z.to_nat SCANF_BUF_SIZE) 0))) =? 0
               then 0 else 1) ps2) /\
    ring_queued (_io ps2) [] /\ rx_state ps2 = RX_INITIAL /\ tx_ready ps2.
Proof.
  apply (printf_scanf_round_trip ring_queued ring_reads_in_order
           ring_accepts ring_writes_in_order
           loopback (c_str "Number is 42"%string) 100 [] [] (fun _ => 1)).
  - apply tx_ready_new.
  - reflexivity.
  - exact ring_new_queued.
  - unfold ring_accepts. vm_compute. discriminate.
  - apply is_byteb_Forall. vm_compute. reflexivity.
  - vm_compute. discriminate.
  - apply Nat.ltb_lt. vm_compute. reflexivity.
Defined.

(** A ring buffer that was handed 01 02 03. *)
Lemma ring_123_queued :
  ring_queued (fh_write LoopFileHandle_new [1; 2; 3]).2 ([] ++ [1; 2; 3]).
Proof.
  destruct (proj2 ring_writes_in_order LoopFileHandle_new [] [1; 2; 3] 0%nat
              ring_new_queued) as (l' & Hw & Hq & _).
  - unfold ring_accepts. vm_compute. discriminate.
  - rewrite Hw. exact Hq.
Qed.

Lemma loop_read_fifo_witness :
  exists l',
    fh_read (fh_write LoopFileHandle_new [1; 2; 3]).2 2 =
      (Z.of_nat (length (take (Z.to_nat 2) ([] ++ [1; 2; 3]))),
       take (Z.to_nat 2) ([] ++ [1; 2; 3]), l') /\
    ring_queued l' (drop (Z.to_nat 2) ([] ++ [1; 2; 3])).
Proof.
  apply (loop_read_fifo (fh_write LoopFileHandle_new [1; 2; 3]).2
                        ([] ++ [1; 2; 3]) 2).
  - exact ring_123_queued.
  - vm_compute. discriminate.
Defined.

(** 2048 bytes do not fit the new ring buffer. *)
Lemma loop_write_whole_or_nothing_witness :
  (length (@nil Z) <= 2047)%nat /\
  ((length (@nil Z) + length (byte_run 0 2048) <= 2047)%nat ->
   exists l',
     fh_write LoopFileHandle_new (byte_run 0 2048) =
       (Z.of_nat (length (byte_run 0 2048)), l') /\
     ring_queued l' ([] ++ byte_run 0 2048)) /\
  ((2047 < length (@nil Z) + length (byte_run 0 2048))%nat ->
   fh_write LoopFileHandle_new (byte_run 0 2048) = (-1, LoopFileHandle_new)).
Proof.
  apply (loop_write_whole_or_nothing LoopFileHandle_new [] (byte_run 0 2048)).
  exact ring_new_queued.
Defined.

Lemma mock_write_valid_iff_witness :
  write_valid (fh_writes (write_set_expected TestFileHandle_new [0x01; 0x01; 0x00])
                         [[0x01]; [0x01; 0x00]]) = true <->
  concat [[0x01]; [0x01; 0x00]] = [0x01; 0x01; 0x00].
Proof.
  apply (mock_write_valid_iff TestFileHandle_new [0x01; 0x01; 0x00]
                              [[0x01]; [0x01; 0x00]]).
  - vm_compute. discriminate.
  - vm_compute. discriminate.
Defined.

Lemma mock_read_fifo_witness :
  exists m',
    fh_read (_io (refill serial [1; 2; 3])) 2 =
      (Z.of_nat (length (take (Z.to_nat 2) [1; 2; 3])),
       take (Z.to_nat 2) [1; 2; 3], m') /\
    mock_queued m' (drop (Z.to_nat 2) [1; 2; 3]).
Proof.
  apply (mock_read_fifo (_io (refill serial [1; 2; 3])) [1; 2; 3] 2).
  - apply refill_queued. vm_compute. discriminate.
  - vm_compute. discriminate.
Defined.

Lemma self_test_write_check_witness :
  write_valid
    (_io (write (set_io serial
                   (write_set_expected (_io serial)
                      [0x03; 0x11; 0x22; 0x02; 0x33; 0x00]))
                [0x11; 0x22; 0x00; 0x33]).1) = true <->
  cobs_frame [0x11; 0x22; 0x00; 0x33] = [0x03; 0x11; 0x22; 0x02; 0x33; 0x00].
Proof.
  apply (self_test_write_check serial [0x11; 0x22; 0x00; 0x33]
                               [0x03; 0x11; 0x22; 0x02; 0x33; 0x00]).
  - apply tx_ready_new.
  - vm_compute. discriminate.
Defined.

(** The command "baud" arrives and behind it the packet "9600": the
    first is read by the loop, the second is left for [baud_handler]. *)
Lemma main_dispatches_commands_witness :
  let handlers :=
    handlers_baud 20 [] [] (fun (_ : list Z) (_ : Z) => (1, 9600)) in
  let st := mkMain (refill serial (frame_of (c_str "baud"%string) ++
                                   frame_of (c_str "9600"%string))) 0 0 in
  exists st_d,
    mock_queued (_io (pc st_d)) (frame_of (c_str "9600"%string)) /\
    rx_state (pc st_d) = RX_INITIAL /\
    cobs_errors st_d = cobs_errors st /\
    (c_str "baud"%string = [] ->
       unknown_commands st_d = unknown_commands st /\
       main_pass handlers 20 st 0 = Some st_d) /\
    (forall i, commands !! i = Some (c_str "baud"%string) ->
       unknown_commands st_d = unknown_commands st /\
       main_pass handlers 20 st 0 = handlers i st_d) /\
    (c_str "baud"%string <> [] -> ~ elem_of (c_str "baud"%string) commands ->
       unknown_commands st_d = u32 (unknown_commands st + 1) /\
       main_pass handlers 20 st 0 = Some st_d).
Proof.
  intros handlers st.
  apply (main_dispatches_commands mock_queued mock_reads_in_order handlers st
           (c_str "baud"%string) (frame_of (c_str "9600"%string)) 20 0).
  - reflexivity.
  - apply refill_queued. vm_compute. discriminate.
  - apply is_byteb_Forall. vm_compute. reflexivity.
  - vm_compute. discriminate.
  - apply Nat.ltb_lt. vm_compute. reflexivity.
Defined.

(** The same pass to its end: [baud_handler] has read the packet "9600"
    and answered, the handle holds nothing more and both counters are
    as they were. *)
Example main_pass_baud_9600 :
  exists st',
    main_pass (handlers_baud 20 [] [] (fun (_ : list Z) (_ : Z) => (1, 9600)))
              20
              (mkMain (refill serial (frame_of (c_str "baud"%string) ++
                                      frame_of (c_str "9600"%string))) 0 0)
              0 = Some st' /\
    mock_queued (_io (pc st')) [] /\
    cobs_errors st' = 0 /\ unknown_commands st' = 0.
Proof.
  eexists. split; [vm_compute; reflexivity|].
  split; [|split; reflexivity].
  unfold mock_queued. cbn. repeat split; try lia. discriminate.
Qed.

(** 05 01 02 00, a block of four cut short after two bytes, then the
    command "stats". *)
Lemma main_recovers_after_bad_frame_witness :
  exists st1 st2,
    main_iteration 20
      (mkMain (refill serial (([5; 1; 2] ++ [0]) ++
                              frame_of (c_str "stats"%string) ++ [])) 7 3) 0 =
      Some (st1, None) /\
    cobs_errors st1 = u32 (7 + 1) /\
    unknown_commands st1 = 3 /\
    main_iteration 20 st1 0 = Some (st2, Some 6%nat) /\
    cobs_errors st2 = cobs_errors st1 /\
    unknown_commands st2 = unknown_commands st1 /\
    mock_queued (_io (pc st2)) [].
Proof.
  apply (main_recovers_after_bad_frame mock_queued mock_reads_in_order
           (mkMain (refill serial (([5; 1; 2] ++ [0]) ++
                                   frame_of (c_str "stats"%string) ++ [])) 7 3)
           5 [1; 2] (c_str "stats"%string) [] 6 20 0 0).
  - reflexivity.
  - apply refill_queued. vm_compute. discriminate.
  - repeat constructor.
  - vm_compute. split; [reflexivity|discriminate].
  - reflexivity.
  - apply Nat.ltb_lt. vm_compute. reflexivity.
Defined.

Lemma self_test_loopback_passes_witness :
  exists ps',
    self_test_loopback 2000 loopback (byte_run 7 1023) = Some (true, ps') /\
    tx_ready ps' /\ rx_state ps' = RX_INITIAL /\ ring_queued (_io ps') [].
Proof.
  apply (self_test_loopback_passes loopback (byte_run 7 1023)).
  - apply tx_ready_new.
  - reflexivity.
  - exact ring_new_queued.
  - apply is_byteb_Forall. vm_compute. reflexivity.
  - apply Nat.leb_le. vm_compute. reflexivity.
Defined.

(** The peer of the exchanges below: a mock that expects the bytes [e]
    to be written and holds the bytes [wire] to be read. *)
Lemma exchange_ready (e wire : list Z) :
  let ps := refill (set_io serial (write_set_expected (_io serial) e)) wire in
  Z.of_nat (length e) <= SIZE_MAX ->
  Z.of_nat (length wire) <= SIZE_MAX ->
  tx_ready ps /\ rx_state ps = RX_INITIAL /\
  mock_written e (_io ps) [] /\ mock_queued (_io ps) wire.
Proof.
  intros ps He Hwire. split; [split; reflexivity|]. split; [reflexivity|].
  split; [apply mock_expecting; exact He|apply refill_queued; exact Hwire].
Qed.




(** The reply 05 30 00: a block of four cut short after one byte. *)
Lemma RemoteFile_close_bad_reply_witness :
  let e := frame_of (c_str "close"%string) in
  let ps := refill (set_io serial (write_set_expected (_io serial) e))
                   (5 :: [0x30] ++ 0 :: []) in
  let vsscanf := fun (buf : list Z) (_ : Z) => (1, hd 0 buf - 48) in
  exists ps',
    RemoteFile_close 20 ps [] [] vsscanf = Some (Returns (-1) ps') /\
    mock_written e (_io ps') ([] ++ frame_of (c_str "close"%string)) /\
    mock_queued (_io ps') [] /\
    rx_state ps' = RX_INITIAL /\ tx_ready ps'.
Proof.
  intros e ps vsscanf.
  destruct (exchange_ready e (5 :: [0x30] ++ 0 :: []))
    as (Hready & Hrx & Hs & Hq); [vm_compute; discriminate..|].
  apply (RemoteFile_close_bad_reply mock_queued (mock_written e) mock_accepts
           mock_reads_in_order (mock_writes_in_order e)
           mock_writes_aside (mock_reads_aside e)
           ps 5 [0x30] [] [] 20 [] [] vsscanf
           Hready Hrx Hs Hq I).
  - repeat constructor.
  - vm_compute. split; [reflexivity|discriminate].
  - apply Nat.ltb_lt. vm_compute. reflexivity.
Defined.

(** A reply of ten bytes to a request for four. *)
Lemma RemoteFile_read_reply_witness :
  let e := frame_of (c_str "read,4"%string) in
  let ps := refill (set_io serial (write_set_expected (_io serial) e))
                   (frame_of (byte_run 1 10) ++ []) in
  exists ps',
    RemoteFile_read 20 ps (c_str "read,4"%string) [] (replicate 4 0) 4 0 =
      Some (Returns
              (Z.of_nat (length (byte_run 1 10)),
               take (Z.to_nat 4) (byte_run 1 10) ++
               drop (Nat.min (Z.to_nat 4) (length (byte_run 1 10)))
                    (replicate 4 0))
              ps') /\
    mock_written e (_io ps') ([] ++ frame_of (c_str "read,4"%string)) /\
    mock_queued (_io ps') [] /\
    rx_state ps' = RX_INITIAL /\ tx_ready ps'.
Proof.
  intros e ps.
  destruct (exchange_ready e (frame_of (byte_run 1 10) ++ []))
    as (Hready & Hrx & Hs & Hq); [vm_compute; discriminate..|].
  apply (RemoteFile_read_reply mock_queued (mock_written e) mock_accepts
           mock_reads_in_order (mock_writes_in_order e)
           mock_writes_aside (mock_reads_aside e)
           ps (c_str "read,4"%string) (byte_run 1 10) [] [] 20 []
           (replicate 4 0) 4 0 Hready Hrx Hs Hq I).
  - vm_compute. discriminate.
  - apply is_byteb_Forall. vm_compute. reflexivity.
  - vm_compute. discriminate.
  - vm_compute. split; discriminate.
  - apply Nat.ltb_lt. vm_compute. reflexivity.
Defined.

Lemma RemoteFile_read_bad_reply_witness :
  let e := frame_of (c_str "read,4"%string) in
  let ps := refill (set_io serial (write_set_expected (_io serial) e))
                   (5 :: [0x30] ++ 0 :: []) in
  exists buffer' ps',
    RemoteFile_read 20 ps (c_str "read,4"%string) [] (replicate 4 0) 4 123456 =
      Some (Returns (ssize 123456, buffer') ps') /\
    mock_queued (_io ps') [].
Proof.
  intros e ps.
  destruct (exchange_ready e (5 :: [0x30] ++ 0 :: []))
    as (Hready & Hrx & Hs & Hq); [vm_compute; discriminate..|].
  apply (RemoteFile_read_bad_reply mock_queued (mock_written e) mock_accepts
           mock_reads_in_order (mock_writes_in_order e)
           mock_writes_aside (mock_reads_aside e)
           ps 5 (c_str "read,4"%string) [0x30] [] [] 20 []
           (replicate 4 0) 4 123456 Hready Hrx Hs Hq I).
  - vm_compute. discriminate.
  - repeat constructor.
  - vm_compute. split; [reflexivity|discriminate].
  - vm_compute. split; discriminate.
  - apply Nat.ltb_lt. vm_compute. reflexivity.
Defined.


(** A payload beside itself, behind a frame the pipe already holds. *)
Lemma write_injective_witness : [0x11; 0x00] = [0x11; 0x00].
Proof.
  apply (write_injective (receiving [0x01; 0x00]) [0x11; 0x00] [0x11; 0x00]).
  - apply tx_ready_new.
  - apply is_byteb_Forall. reflexivity.
  - apply is_byteb_Forall. reflexivity.
  - reflexivity.
Defined.

(** Nothing has arrived yet. *)
Lemma main_counts_dry_read_witness :
  exists st',
    main_iteration 20 (mkMain (refill serial []) 0 0) 0 = Some (st', None) /\
    cobs_errors st' = u32 (0 + 1) /\
    unknown_commands st' = 0 /\
    mock_queued (_io (pc st')) [].
Proof.
  apply (main_counts_dry_read mock_queued mock_reads_in_order
           (mkMain (refill serial []) 0 0) [] 20 0).
  - apply refill_queued. vm_compute. discriminate.
  - constructor.
  - vm_compute. discriminate.
  - apply Nat.ltb_lt. reflexivity.
Defined.

End MoreInstances.
